(** * The experimental production planner of pants.engine.exp.scheduler

    A shallow embedding of [src/python/pants/engine/exp/scheduler.py]:
    subjects, promises, plans, the product mapper, the planner registry with
    its requirement solver, the local scheduler and the execution graph.

    Conventions of the embedding.
    - A Python class used as a product type is identified by its name.
    - A subject, a configuration or an opaque leaf of a plan is an [obj]:
      either an [Address] or an instance of some class.  Instances are plain
      objects, hence truthy and different from [None]; an optional argument
      ([configuration=None], [primary_subject=None]) is an [option obj], and
      the Python test [if x] on it is the test "is supplied".
    - A [dict] or [set] that the code only probes by key is a [gmap] or
      [gset]; a [dict] or [set] that the code iterates is a list in insertion
      order (one admissible iteration order of the Python container).
    - Python calls that may recurse without bound take a [fuel] and answer
      [None] when it runs out. *)

From stdpp Require Import gmap strings list fin_maps.

Local Open Scope string_scope.
Local Open Scope nat_scope.
Local Open Scope list_scope.
Set Warnings "-register-all".

(** ** Objects and product types *)

(** A product type is a Python class, identified by its name. *)
Definition pytype := string.

Inductive obj :=
| Address (spec : string)
| Instance (cls : pytype) (ident : nat).

#[global] Instance obj_eq_dec : EqDecision obj.
Proof. solve_decision. Defined.

Definition obj_encode (o : obj) : string + pytype * nat :=
  match o with
  | Address spec => inl spec
  | Instance cls ident => inr (cls, ident)
  end.

Definition obj_decode (x : string + pytype * nat) : obj :=
  match x with
  | inl spec => Address spec
  | inr (cls, ident) => Instance cls ident
  end.

#[global] Instance obj_countable : Countable obj.
Proof. apply (inj_countable' obj_encode obj_decode). by intros []. Defined.

(** [type(o)] *)
Definition type_of (o : obj) : pytype :=
  match o with
  | Address _ => "Address"
  | Instance cls _ => cls
  end.

(** [isinstance(o, Address)] *)
Definition is_Address (o : obj) : bool :=
  match o with
  | Address _ => true
  | Instance _ _ => false
  end.

(** ** Subject *)

Record Subject := mkSubject { _primary : obj; _alternate : option obj }.

Module SubjectM.

(** [Subject.as_subject]: a subject passes through, anything else becomes the
    primary of a fresh subject. *)
Definition as_subject (item : Subject + obj) : Subject :=
  match item with
  | inl s => s
  | inr o => mkSubject o None
  end.

Definition primary (s : Subject) : obj := _primary s.

(** [Subject.iter_derivations] *)
Definition iter_derivations (s : Subject) : list obj :=
  _primary s :: match _alternate s with Some a => [a] | None => [] end.

(** [Subject.__eq__] and [Subject.__hash__] over an arbitrary [hash]. *)
Definition eq (s t : Subject) : bool := bool_decide (_primary s = _primary t).

Definition hash {H} (py_hash : obj → H) (s : Subject) : H := py_hash (_primary s).

End SubjectM.

(** ** Promise *)

Record Promise := mkPromise {
  _product_type : pytype;
  _subject : Subject;
  _configuration : option obj
}.

Definition promise_key : Type := pytype * obj * option obj.

Module PromiseM.

(** [Promise.__init__] *)
Definition init (product_type : pytype) (subject : Subject + obj)
    (configuration : option obj) : Promise :=
  mkPromise product_type (SubjectM.as_subject subject) configuration.

Definition subject (p : Promise) : Subject := _subject p.

(** [Promise.rebind] *)
Definition rebind (p : Promise) (subject : Subject + obj) : Promise :=
  init (_product_type p) subject (_configuration p).

(** [Promise._key] *)
Definition _key (p : Promise) : promise_key :=
  (_product_type p, SubjectM.primary (_subject p), _configuration p).

(** [Promise.__eq__] and [Promise.__hash__] over an arbitrary [hash]. *)
Definition eq (p q : Promise) : bool := bool_decide (_key p = _key q).

Definition hash {H} (py_hash : promise_key → H) (p : Promise) : H := py_hash (_key p).

End PromiseM.

(** ** TaskCategorization and _categorize *)

(** The namedtuple [(func, task_type)]; functions and classes are identified
    by name. *)
Record TaskCategorization := mkTaskCategorization {
  func : option string;
  task_type : option string
}.

#[global] Instance TaskCategorization_eq_dec : EqDecision TaskCategorization.
Proof. solve_decision. Defined.

Module TaskCategorizationM.

Definition of_func (f : string) : TaskCategorization := mkTaskCategorization (Some f) None.

Definition of_task_type (t : string) : TaskCategorization := mkTaskCategorization None (Some t).

(** [self.func or self.task_type] *)
Definition value (c : TaskCategorization) : option string :=
  match func c with Some f => Some f | None => task_type c end.

End TaskCategorizationM.

(** What a caller may pass as [func_or_task_type]. *)
Inductive func_or_task_type :=
| ACategorization (c : TaskCategorization)
| AClass (name : string) (is_Task_subclass : bool)
| AFunction (name : string).

(** ** Input trees of a plan *)

Inductive value :=
| VPromise (p : Promise)
| VMapping (entries : list (string * value))
| VSeq (elems : list value)
| VStr (s : string)
| VObj (o : obj)
| VType (t : pytype).

(** The [isinstance] tests the walkers rely on.  A Python string is an
    instance of [collections.Iterable]: iterating it yields its characters as
    one-character strings. *)
Definition isinstance_Promise (v : value) : bool :=
  match v with VPromise _ => true | _ => false end.

Definition isinstance_Mapping (v : value) : bool :=
  match v with VMapping _ => true | _ => false end.

Definition isinstance_Iterable (v : value) : bool :=
  match v with VMapping _ | VSeq _ | VStr _ => true | _ => false end.

Definition isinstance_string_types (v : value) : bool :=
  match v with VStr _ => true | _ => false end.

Fixpoint characters (s : string) : list string :=
  match s with
  | EmptyString => []
  | String c rest => String c EmptyString :: characters rest
  end.

(** [for i in item] *)
Definition py_iter (v : value) : list value :=
  match v with
  | VMapping entries => (λ kv, VStr kv.1) <$> entries
  | VSeq elems => elems
  | VStr s => VStr <$> characters s
  | _ => []
  end.

(** [item.items()] *)
Definition items (v : value) : list (string * value) :=
  match v with VMapping entries => entries | _ => [] end.

(** The hashable form [Plan._key] computes from an input tree: tuples of
    hashable forms, with promises compared through [Promise._key]. *)
Inductive hkey :=
| HPromise (k : promise_key)
| HTuple (l : list hkey)
| HStr (s : string)
| HObj (o : obj)
| HType (t : pytype).

Fixpoint hkey_eq_dec (x y : hkey) {struct x} : {x = y} + {x ≠ y}.
Proof.
  refine (
    match x, y with
    | HPromise k1, HPromise k2 => cast_if (decide (k1 = k2))
    | HTuple l1, HTuple l2 =>
        cast_if ((fix go (l1 l2 : list hkey) : {l1 = l2} + {l1 ≠ l2} :=
           match l1, l2 with
           | [], [] => left eq_refl
           | a :: l1', b :: l2' =>
               match hkey_eq_dec a b with
               | left Ha => match go l1' l2' with
                            | left Hl => left _
                            | right Hl => right _
                            end
               | right Ha => right _
               end
           | _, _ => right _
           end) l1 l2)
    | HStr s1, HStr s2 => cast_if (decide (s1 = s2))
    | HObj o1, HObj o2 => cast_if (decide (o1 = o2))
    | HType t1, HType t2 => cast_if (decide (t1 = t2))
    | _, _ => right _
    end); try congruence.
Defined.

#[global] Instance hkey_eq_decision : EqDecision hkey := hkey_eq_dec.

(** [sorted] on the [(key, hashable)] pairs of a mapping: dictionary keys are
    unique, so the key alone orders the pairs. *)
Fixpoint sorted_insert (kv : string * hkey) (l : list (string * hkey)) : list (string * hkey) :=
  match l with
  | [] => [kv]
  | kv' :: rest =>
      if String.leb kv.1 kv'.1 then kv :: l else kv' :: sorted_insert kv rest
  end.

Definition sorted (l : list (string * hkey)) : list (string * hkey) :=
  foldr sorted_insert [] l.

(** ** Plan *)

Record Plan := mkPlan {
  _func_or_task_type : TaskCategorization;
  _subjects : list Subject;
  _inputs : list (string * value)
}.

(** [_categorize]; [None] stands for the [ValueError] raised for a class that
    is not a [Task]. *)
Definition _categorize (f : func_or_task_type) : option TaskCategorization :=
  match f with
  | ACategorization c => Some c
  | AClass name is_task =>
      if is_task then Some (TaskCategorizationM.of_task_type name) else None
  | AFunction name => Some (TaskCategorizationM.of_func name)
  end.

(** [frozenset(...)] of subjects: a subject equal to one already present
    (same primary) is not added again. *)
Fixpoint frozenset_subjects (seen : list Subject) (l : list Subject) : list Subject :=
  match l with
  | [] => seen
  | s :: rest =>
      if existsb (SubjectM.eq s) seen then frozenset_subjects seen rest
      else frozenset_subjects (seen ++ [s]) rest
  end.

(** [dict] built from keyword arguments and [d[k] = v]. *)
Fixpoint dict_setitem {K V} `{EqDecision K} (k : K) (v : V) (d : list (K * V)) : list (K * V) :=
  match d with
  | [] => [(k, v)]
  | (k', v') :: rest =>
      if decide (k = k') then (k, v) :: rest else (k', v') :: dict_setitem k v rest
  end.

Fixpoint dict_get {K V} `{EqDecision K} (k : K) (d : list (K * V)) : option V :=
  match d with
  | [] => None
  | (k', v') :: rest => if decide (k = k') then Some v' else dict_get k rest
  end.

Module PlanM.

(** [Plan.__init__] *)
Definition init (f : func_or_task_type) (subjects : list (Subject + obj))
    (inputs : list (string * value)) : option Plan :=
  c ← _categorize f;
  Some (mkPlan c (frozenset_subjects [] (SubjectM.as_subject <$> subjects)) inputs).

Definition subjects (p : Plan) : list Subject := _subjects p.

(** [Plan.__getattr__]; [None] is the [AttributeError]. *)
Definition getattr (p : Plan) (item : string) : option value := dict_get item (_inputs p).

Definition _is_mapping (v : value) : bool := isinstance_Mapping v.

Definition _is_iterable (v : value) : bool :=
  isinstance_Iterable v && negb (isinstance_string_types v).

(** [iter_promises] inside [Plan.promises].  The constructors carry the
    outcome of the tests [isinstance(item, Promise)], [_is_mapping(item)] and
    [_is_iterable(item)], taken in this order; [iter_promises_by_tests] below
    is the function written with the tests of the source. *)
Fixpoint iter_promises (item : value) : list Promise :=
  match item with
  | VPromise p => [p]
  | VMapping entries => flat_map (λ kv, iter_promises kv.2) entries
  | VSeq elems => flat_map iter_promises elems
  | VStr _ | VObj _ | VType _ => []
  end.

(** [set.update]: an element equal to one already in the set is dropped. *)
Fixpoint set_update (seen : list Promise) (l : list Promise) : list Promise :=
  match l with
  | [] => seen
  | p :: rest =>
      if existsb (PromiseM.eq p) seen then set_update seen rest
      else set_update (seen ++ [p]) rest
  end.

(** [Plan.promises] *)
Definition promises (p : Plan) : list Promise :=
  fold_left (λ promises kv, set_update promises (iter_promises kv.2)) (_inputs p) [].

(** [hashable] inside [Plan._key] *)
Fixpoint hashable (v : value) : hkey :=
  match v with
  | VPromise p => HPromise (PromiseM._key p)
  | VMapping entries =>
      HTuple ((λ kv, HTuple [HStr kv.1; kv.2]) <$>
              sorted ((λ kv, (kv.1, hashable kv.2)) <$> entries))
  | VSeq elems => HTuple (hashable <$> elems)
  | VStr s => HStr s
  | VObj o => HObj o
  | VType t => HType t
  end.

Definition plan_key : Type := TaskCategorization * gset obj * hkey.

(** [Plan._key]: the frozenset of subjects compares by primaries. *)
Definition _key (p : Plan) : plan_key :=
  (_func_or_task_type p,
   list_to_set (SubjectM.primary <$> _subjects p),
   hashable (VMapping (_inputs p))).

(** [Plan.__eq__] *)
Definition eq (p q : Plan) : bool := bool_decide (_key p = _key q).

Definition hash {H} (py_hash : plan_key → H) (p : Plan) : H := py_hash (_key p).

End PlanM.

(** ** Errors *)

(** A planner as it appears in error payloads and in the scheduler's plan
    index: a registered planner, by identity, or the synthetic [NoPlanner]. *)
Inductive planner_ref :=
| NoPlanner
| Registered (id : nat).

#[global] Instance planner_ref_eq_dec : EqDecision planner_ref.
Proof. solve_decision. Defined.

(** [partially_consumed_candidates]:
    consumed product -> planner -> missing requirements. *)
Abbreviation partials := (gmap pytype (gmap nat (gset pytype))).

Inductive error :=
| NoProducersError (product_type : pytype) (subject : obj)
| PartiallyConsumedInputsError (output_product : pytype) (subject : obj)
    (partially_consumed_products : partials)
| ConflictingProducersError (product_type : pytype) (subject : obj)
    (planners : list planner_ref)
| InvalidRegistrationError (primary_subject : obj) (plan : Plan)
| SchedulingError (subject : obj) (planner : planner_ref) (plan : Plan)
| TaskPlannerError (msg : string)
| ValueError
| AttributeError
| KeyError (k : promise_key)
| UnboundLocalError.

Inductive outcome (A : Type) :=
| Ok (a : A)
| Raise (e : error).

Arguments Ok {A} a.
Arguments Raise {A} e.

(** ** Binding a plan *)

(** The namedtuple [Binding(func, args, kwargs)] built by [Plan.bind]: [func]
    is always [_execute_binding] and [args] is the one-element tuple holding
    the categorization. *)
Record Binding := mkBinding {
  args : TaskCategorization;
  kwargs : list (string * value)
}.

(** A comprehension over computations that may raise. *)
Fixpoint outcome_map {A B} (f : A → outcome B) (l : list A) : outcome (list B) :=
  match l with
  | [] => Ok []
  | x :: rest =>
      match f x with
      | Raise e => Raise e
      | Ok y =>
          match outcome_map f rest with
          | Raise e => Raise e
          | Ok ys => Ok (y :: ys)
          end
      end
  end.

Module PlanBinding.

Section bind.

(** Products are Python values as well. *)
Variable products_by_promise : gmap promise_key value.

(** [bind_products] inside [Plan.bind]; a promise that is not in
    [products_by_promise] raises [KeyError].  A mapping is rebuilt entry by
    entry under the same keys, an iterable as a list. *)
Fixpoint bind_products (item : value) : outcome value :=
  match item with
  | VPromise p =>
      match products_by_promise !! PromiseM._key p with
      | Some product => Ok product
      | None => Raise (KeyError (PromiseM._key p))
      end
  | VMapping entries =>
      match outcome_map (λ kv, match bind_products kv.2 with
                               | Raise e => Raise e
                               | Ok v => Ok (kv.1, v)
                               end) entries with
      | Raise e => Raise e
      | Ok bound => Ok (VMapping bound)
      end
  | VSeq elems =>
      match outcome_map bind_products elems with
      | Raise e => Raise e
      | Ok bound => Ok (VSeq bound)
      end
  | VStr _ | VObj _ | VType _ => Ok item
  end.

(** [Plan.bind]: the loop [inputs[key] = bind_products(value)]. *)
Fixpoint bind_inputs (inputs : list (string * value)) (bound : list (string * value))
    : outcome (list (string * value)) :=
  match inputs with
  | [] => Ok bound
  | kv :: rest =>
      match bind_products kv.2 with
      | Raise e => Raise e
      | Ok v => bind_inputs rest (dict_setitem kv.1 v bound)
      end
  end.

Definition bind (p : Plan) : outcome Binding :=
  match bind_inputs (_inputs p) [] with
  | Raise e => Raise e
  | Ok inputs => Ok (mkBinding (_func_or_task_type p) inputs)
  end.

End bind.

End PlanBinding.

(** ** ProductMapper *)

Module ProductMapper.

Definition init : gmap promise_key Plan := ∅.

(** One turn of the loop of [register_promises]. *)
Definition register_subject (product_type : pytype) (plan : Plan)
    (primary_subject configuration : option obj)
    (st : option Promise * gmap promise_key Plan) (subject : Subject)
    : option Promise * gmap promise_key Plan :=
  let promise := PromiseM.init product_type (inl subject) configuration in
  (if bool_decide (primary_subject = Some (SubjectM.primary subject))
   then Some promise else st.1,
   <[PromiseM._key promise := plan]> st.2).

(** [ProductMapper.register_promises]: the outcome and the mapping after the
    call (the loop has stored its entries when the error is raised). *)
Definition register_promises (self : gmap promise_key Plan) (product_type : pytype)
    (plan : Plan) (primary_subject configuration : option obj)
    : outcome (option Promise) * gmap promise_key Plan :=
  let st := fold_left (register_subject product_type plan primary_subject configuration)
              (PlanM.subjects plan) (None, self) in
  match primary_subject, st.1 with
  | Some subject, None => (Raise (InvalidRegistrationError subject plan), st.2)
  | _, primary_promise => (Ok primary_promise, st.2)
  end.

(** [ProductMapper.promised] *)
Definition promised (self : gmap promise_key Plan) (promise : Promise) : option Plan :=
  self !! PromiseM._key promise.

End ProductMapper.

(** ** Scheduler state and planners *)

(** The mutable part of a [LocalScheduler].  The plan index is iterated by
    the finalization pass, so it is kept in insertion order; its ordered sets
    hold plans up to [Plan.__eq__]. *)
Record SchedulerState := mkState {
  _product_mapper : gmap promise_key Plan;
  _plans_by_product_type_by_planner : list (planner_ref * list (pytype * list Plan))
}.

(** A scheduling computation: it may run out of fuel ([None]), and otherwise
    returns or raises, leaving a state behind. *)
Definition M (A : Type) : Type := SchedulerState → option (outcome A * SchedulerState).

Definition M_ret {A} (a : A) : M A := λ st, Some (Ok a, st).

Definition M_raise {A} (e : error) : M A := λ st, Some (Raise e, st).

Definition M_bind {A B} (c : M A) (k : A → M B) : M B := λ st,
  match c st with
  | None => None
  | Some (Raise e, st') => Some (Raise e, st')
  | Some (Ok a, st') => k a st'
  end.

Notation "'let!' x ':=' c 'in' k" := (M_bind c (λ x, k))
  (at level 10, x pattern, c at level 100, k at level 200).

Definition DNF : Type := list (list pytype).

(** A task planner: what [Planners] and [LocalScheduler] use of it.  [plan]
    receives the scheduler as its [promise] method. *)
Record TaskPlanner := mkTaskPlanner {
  planner_id : nat;
  goal_name : string;
  product_types : list (pytype * DNF);
  plan : (obj → pytype → option obj → M Promise) →
         pytype → obj → option obj → M (option Plan);
  finalize_plans : list Plan → option (list Plan)
}.

(** Planners are hashed and compared by identity. *)
Definition planner_is (p q : TaskPlanner) : bool := Nat.eqb (planner_id p) (planner_id q).

(** ** Planners: the registry *)

Record Planners := mkPlanners {
  _planners_by_goal_name : list (string * list TaskPlanner);
  _product_requirements : list (pytype * list (TaskPlanner * DNF));
  _output_products : list pytype
}.

(** Containers keyed by an equality test. *)
Fixpoint setitem_by {K V} (eqb : K → K → bool) (k : K) (v : V) (d : list (K * V)) : list (K * V) :=
  match d with
  | [] => [(k, v)]
  | (k', v') :: rest =>
      if eqb k k' then (k', v) :: rest else (k', v') :: setitem_by eqb k v rest
  end.

Fixpoint get_by {K V} (eqb : K → K → bool) (k : K) (d : list (K * V)) : option V :=
  match d with
  | [] => None
  | (k', v') :: rest => if eqb k k' then Some v' else get_by eqb k rest
  end.

Definition add_by {K} (eqb : K → K → bool) (k : K) (s : list K) : list K :=
  if existsb (eqb k) s then s else s ++ [k].

Module PlannersM.

(** The body of the inner loop of [Planners.__init__]. *)
Definition register_output (planner : TaskPlanner) (self : Planners)
    (entry : pytype * DNF) : Planners :=
  let by_planner := default [] (get_by String.eqb entry.1 (_product_requirements self)) in
  mkPlanners
    (_planners_by_goal_name self)
    (setitem_by String.eqb entry.1 (setitem_by planner_is planner entry.2 by_planner)
       (_product_requirements self))
    (add_by String.eqb entry.1 (_output_products self)).

Definition register_planner (self : Planners) (planner : TaskPlanner) : Planners :=
  let in_goal := default [] (get_by String.eqb (goal_name planner) (_planners_by_goal_name self)) in
  let self' := mkPlanners
    (setitem_by String.eqb (goal_name planner) (add_by planner_is planner in_goal)
       (_planners_by_goal_name self))
    (_product_requirements self)
    (_output_products self) in
  fold_left (register_output planner) (product_types planner) self'.

(** [Planners.__init__] *)
Definition init (planners : list TaskPlanner) : Planners :=
  fold_left register_planner planners (mkPlanners [] [] []).

(** [Planners.for_goal]: the set of the planners of the goal, listed in one
    admissible iteration order; only membership in it is meaningful. *)
Definition for_goal (self : Planners) (goal_name : string) : list TaskPlanner :=
  default [] (get_by String.eqb goal_name (_planners_by_goal_name self)).

(** [self._product_requirements[product_type].items()] *)
Definition requirements (self : Planners) (product_type : pytype)
    : list (TaskPlanner * DNF) :=
  default [] (get_by String.eqb product_type (_product_requirements self)).

End PlannersM.

(** ** The requirement solver *)

(** The two accumulators the solver mutates. *)
Record accumulators := mkAcc {
  fully_consumed : gset pytype;
  partially_consumed_candidates : partials
}.

(** A solver computation: [None] when the recursion does not come back. *)
Definition solver (A : Type) : Type := accumulators → option (A * accumulators).

Definition solver_ret {A} (a : A) : solver A := λ acc, Some (a, acc).

Definition solver_bind {A B} (c : solver A) (k : A → solver B) : solver B := λ acc,
  match c acc with
  | None => None
  | Some (a, acc') => k a acc'
  end.

Notation "'let*' x ':=' c 'in' k" := (solver_bind c (λ x, k))
  (at level 10, x pattern, c at level 100, k at level 200).

Fixpoint solver_map {A B} (f : A → solver B) (l : list A) : solver (list B) :=
  match l with
  | [] => solver_ret []
  | x :: rest =>
      let* y := f x in
      let* ys := solver_map f rest in
      solver_ret (y :: ys)
  end.

(** [partially_consumed_candidates[consumed_product][planner].update(unconsumed)] *)
Definition update_partial (planner : nat) (unconsumed : gset pytype)
    (candidates : partials) (consumed_product : pytype) : partials :=
  let by_planner := default ∅ (candidates !! consumed_product) in
  let missing := default ∅ (by_planner !! planner) in
  <[consumed_product := <[planner := missing ∪ unconsumed]> by_planner]> candidates.

(** The requirements of a clause whose match flag is [flag]. *)
Definition requirements_where (flag : bool) (anded_clause : list pytype)
    (matched : list bool) : list pytype :=
  (λ rm, rm.1) <$> filter (λ rm, rm.2 = flag) (zip anded_clause matched).

Section clauses.

(** [self._apply_product_requirements], as seen from
    [_apply_product_requirement_clauses]. *)
Variable apply_product_requirements : pytype → list pytype → solver bool.

(** [Planners._apply_product_requirement_clauses] *)
Fixpoint _apply_product_requirement_clauses (input_products : list pytype)
    (planner : TaskPlanner) (ored_clauses : DNF) : solver bool :=
  match ored_clauses with
  | [] => solver_ret false
  | anded_clause :: rest =>
      let* matched :=
        solver_map (λ product_req, apply_product_requirements product_req input_products)
          anded_clause in
      let matched_count := length (filter (λ m, m = true) matched) in
      if matched_count =? length anded_clause then
        λ acc, Some (true, mkAcc (fully_consumed acc ∪ list_to_set anded_clause)
                             (partially_consumed_candidates acc))
      else if 0 <? matched_count then
        let consumed := requirements_where true anded_clause matched in
        let unconsumed := requirements_where false anded_clause matched in
        let* _ := (λ acc, Some (tt, mkAcc (fully_consumed acc)
                     (fold_left (update_partial (planner_id planner) (list_to_set unconsumed))
                        consumed (partially_consumed_candidates acc)))) in
        _apply_product_requirement_clauses input_products planner rest
      else
        _apply_product_requirement_clauses input_products planner rest
  end.

(** The loop [matched |= ...] over the planners registered for an output. *)
Fixpoint any_planner (input_products : list pytype)
    (registered : list (TaskPlanner * DNF)) (matched : bool) : solver bool :=
  match registered with
  | [] => solver_ret matched
  | (planner, ored_clauses) :: rest =>
      let* m := _apply_product_requirement_clauses input_products planner ored_clauses in
      any_planner input_products rest (matched || m)
  end.

End clauses.

(** [Planners._apply_product_requirements] *)
Fixpoint _apply_product_requirements (fuel : nat) (self : Planners)
    (output_product_type : pytype) (input_products : list pytype)
    : solver bool :=
  match fuel with
  | 0 => λ _, None
  | S fuel' =>
      if bool_decide (output_product_type ∈ input_products) then solver_ret true
      else if bool_decide (output_product_type ∉ _output_products self) then solver_ret false
      else any_planner (_apply_product_requirements fuel' self) input_products
             (PlannersM.requirements self output_product_type) false
  end.

Section subject_products.

(** [Products.for_subject] belongs to [pants.engine.exp.products], which is
    not part of the sources at hand: the native product types of a subject,
    in the order it yields them. *)
Variable Products_for_subject : obj → list pytype.

(** The loop of [Planners.produced_types_for_subject]. *)
Fixpoint producible_outputs (fuel : nat) (self : Planners) (input_products : list pytype)
    (output_product_types : list pytype) : solver (list pytype) :=
  match output_product_types with
  | [] => solver_ret []
  | output_product_type :: rest =>
      let* ok := _apply_product_requirements fuel self output_product_type input_products in
      let* producible_output_types := producible_outputs fuel self input_products rest in
      solver_ret (if ok then output_product_type :: producible_output_types
                  else producible_output_types)
  end.

(** [Planners.produced_types_for_subject] *)
Definition produced_types_for_subject (fuel : nat) (self : Planners) (subject : obj)
    (output_product_types : list pytype) : option (outcome (list pytype)) :=
  let input_products := Products_for_subject subject in
  match producible_outputs fuel self input_products output_product_types (mkAcc ∅ ∅) with
  | None => None
  | Some (producible_output_types, acc) =>
      let partially_consumed :=
        filter (λ entry, entry.1 ∉ fully_consumed acc) (partially_consumed_candidates acc) in
      if bool_decide (partially_consumed = ∅) then Some (Ok producible_output_types)
      else match last output_product_types with
           | Some output_product_type =>
               Some (Raise (PartiallyConsumedInputsError output_product_type subject
                              partially_consumed))
           | None => Some (Raise UnboundLocalError)
           end
  end.

(** One turn of the loop of [Planners.for_product_type_and_subject]: whether
    [planner] is yielded, and the shared [partially_consumed_candidates]. *)
Definition planner_applies (fuel : nat) (self : Planners) (input_products : list pytype)
    (configuration : option obj) (planner : TaskPlanner) (ored_clauses : DNF)
    (candidates : partials) : option (bool * partials) :=
  match _apply_product_requirement_clauses (_apply_product_requirements fuel self)
          input_products planner ored_clauses (mkAcc ∅ candidates) with
  | None => None
  | Some (false, acc) => Some (false, partially_consumed_candidates acc)
  | Some (true, acc) =>
      Some (match configuration with
            | None => true
            | Some c => bool_decide (type_of c ∈ fully_consumed acc)
            end, partially_consumed_candidates acc)
  end.

(** [Planners.for_product_type_and_subject], run to exhaustion. *)
Fixpoint yield_planners (fuel : nat) (self : Planners) (input_products : list pytype)
    (configuration : option obj) (registered : list (TaskPlanner * DNF))
    (candidates : partials) : option (list TaskPlanner) :=
  match registered with
  | [] => Some []
  | (planner, ored_clauses) :: rest =>
      match planner_applies fuel self input_products configuration planner ored_clauses
              candidates with
      | None => None
      | Some (yielded, candidates') =>
          planners ← yield_planners fuel self input_products configuration rest candidates';
          Some (if yielded then planner :: planners else planners)
      end
  end.

Definition for_product_type_and_subject (fuel : nat) (self : Planners)
    (product_type : pytype) (subject : obj) (configuration : option obj)
    : option (list TaskPlanner) :=
  yield_planners fuel self (Products_for_subject subject) configuration
    (PlannersM.requirements self product_type) ∅.

(** ** LocalScheduler *)

(** The immutable part of a [LocalScheduler]: the BUILD graph, as its
    [resolve] method, and the planners. *)
Record LocalScheduler := mkLocalScheduler {
  _graph : string → obj;
  _planners : Planners
}.

Record BuildRequest := mkBuildRequest {
  goals : list string;
  addressable_roots : list string
}.

Record ExecutionGraph := mkExecutionGraph {
  root_promises : list Promise;
  graph_product_mapper : gmap promise_key Plan
}.

Definition planner_ref_is (p q : planner_ref) : bool := bool_decide (p = q).

(** The loop over [for_product_type_and_subject] in [promise]: the generator
    advances by one planner, and a yielded planner is asked for its plan
    before the generator is resumed. *)
Fixpoint request_plans (fuel : nat) (self : LocalScheduler)
    (promise : obj → pytype → option obj → M Promise)
    (product_type : pytype) (subject : obj) (configuration : option obj)
    (registered : list (TaskPlanner * DNF)) (candidates : partials)
    (plans : list (planner_ref * Plan)) : M (list (planner_ref * Plan)) :=
  match registered with
  | [] => M_ret plans
  | (planner, ored_clauses) :: rest =>
      match planner_applies fuel (_planners self) (Products_for_subject subject) configuration
              planner ored_clauses candidates with
      | None => λ _, None
      | Some (false, candidates') =>
          request_plans fuel self promise product_type subject configuration rest
            candidates' plans
      | Some (true, candidates') =>
          let! planned := plan planner promise product_type subject configuration in
          request_plans fuel self promise product_type subject configuration rest
            candidates'
            (match planned with
             | Some p => plans ++ [(Registered (planner_id planner), p)]
             | None => plans
             end)
      end
  end.

(** The plan that lifts a native product off its subject. *)
Definition lift_native_plan (product_type : pytype) (subject : obj) : option Plan :=
  PlanM.init (AFunction "lift_native_product") [inr subject]
    [("subject", VObj subject); ("product_type", VType product_type)].

(** The loop over [Products.for_subject(subject)] in [promise]. *)
Fixpoint lift_native_products (product_type : pytype) (subject : obj)
    (native_product_types : list pytype)
    (plans : list (planner_ref * Plan)) : M (list (planner_ref * Plan)) :=
  match native_product_types with
  | [] => M_ret plans
  | native_product_type :: rest =>
      if String.eqb native_product_type product_type then
        match lift_native_plan product_type subject with
        | Some p => lift_native_products product_type subject rest (plans ++ [(NoPlanner, p)])
        | None => M_raise ValueError
        end
      else lift_native_products product_type subject rest plans
  end.

(** The list [plans] of [promise] as it stands before [if len(plans) > 1]. *)
Definition candidate_plans (fuel : nat) (self : LocalScheduler)
    (promise : obj → pytype → option obj → M Promise)
    (product_type : pytype) (subject : obj) (configuration : option obj)
    : M (list (planner_ref * Plan)) :=
  let! plans :=
    request_plans fuel self promise product_type subject configuration
      (PlannersM.requirements (_planners self) product_type) ∅ [] in
  lift_native_products product_type subject (Products_for_subject subject) plans.

(** [self._plans_by_product_type_by_planner[planner][product_type].add(plan)] *)
Definition record_plan (planner : planner_ref) (product_type : pytype) (p : Plan)
    (index : list (planner_ref * list (pytype * list Plan)))
    : list (planner_ref * list (pytype * list Plan)) :=
  let by_product_type := default [] (get_by planner_ref_is planner index) in
  let plans := default [] (get_by String.eqb product_type by_product_type) in
  setitem_by planner_ref_is planner
    (setitem_by String.eqb product_type (add_by PlanM.eq p plans) by_product_type) index.

(** The end of [promise], from [if len(plans) > 1] on.  With a primary
    subject supplied [register_promises] returns a promise or raises, so the
    branch for a missing primary promise is the one of the error. *)
Definition settle_plans (product_type : pytype) (subject : obj)
    (configuration : option obj) (plans : list (planner_ref * Plan)) : M Promise := λ st,
  if 1 <? length plans then
    Some (Raise (ConflictingProducersError product_type subject ((λ pp, pp.1) <$> plans)), st)
  else
    match plans with
    | [] => Some (Raise (NoProducersError product_type subject), st)
    | (planner, p) :: _ =>
        match ProductMapper.register_promises (_product_mapper st) product_type p
                (Some subject) configuration with
        | (Ok (Some primary_promise), mapper) =>
            Some (Ok primary_promise,
                  mkState mapper
                    (record_plan planner product_type p (_plans_by_product_type_by_planner st)))
        | (Ok None, mapper) | (Raise (InvalidRegistrationError _ _), mapper) =>
            Some (Raise (SchedulingError subject planner p),
                  mkState mapper (_plans_by_product_type_by_planner st))
        | (Raise e, mapper) =>
            Some (Raise e, mkState mapper (_plans_by_product_type_by_planner st))
        end
    end.

(** [LocalScheduler.promise] *)
Fixpoint promise (fuel : nat) (self : LocalScheduler) (subject : obj)
    (product_type : pytype) (configuration : option obj) : M Promise :=
  match fuel with
  | 0 => λ _, None
  | S fuel' =>
      let subject :=
        match subject with Address spec => _graph self spec | _ => subject end in
      let promise_ := PromiseM.init product_type (inr subject) configuration in
      λ st,
        match ProductMapper.promised (_product_mapper st) promise_ with
        | Some _ => Some (Ok promise_, st)
        | None =>
            (let! plans :=
               candidate_plans fuel' self (promise fuel' self) product_type subject
                 configuration in
             settle_plans product_type subject configuration plans) st
        end
  end.

(** The loop over the producible product types of one subject in
    [execution_graph]. *)
Fixpoint promise_all (fuel : nat) (self : LocalScheduler) (subject : obj)
    (product_types : list pytype) (root_promises : list Promise) : M (list Promise) :=
  match product_types with
  | [] => M_ret root_promises
  | product_type :: rest =>
      let! p := promise fuel self subject product_type None in
      promise_all fuel self subject rest (root_promises ++ [p])
  end.

Definition lift_outcome {A} (r : option (outcome A)) : M A := λ st,
  match r with
  | None => None
  | Some o => Some (o, st)
  end.

Fixpoint promise_subjects (fuel : nat) (self : LocalScheduler) (subjects : list obj)
    (product_types : list pytype) (root_promises : list Promise) : M (list Promise) :=
  match subjects with
  | [] => M_ret root_promises
  | subject :: rest =>
      let! produced :=
        lift_outcome (produced_types_for_subject fuel (_planners self) subject product_types) in
      let! root_promises := promise_all fuel self subject produced root_promises in
      promise_subjects fuel self rest product_types root_promises
  end.

(** The product types of the planners of a goal, as an ordered set. *)
Definition goal_product_types (self : LocalScheduler) (goal : string) : list pytype :=
  fold_left (λ ordered planner,
               fold_left (λ ordered entry, add_by String.eqb entry.1 ordered)
                 (product_types planner) ordered)
    (PlannersM.for_goal (_planners self) goal) [].

Fixpoint promise_goals (fuel : nat) (self : LocalScheduler) (goals : list string)
    (subjects : list obj) (root_promises : list Promise) : M (list Promise) :=
  match goals with
  | [] => M_ret root_promises
  | goal :: rest =>
      let! root_promises :=
        promise_subjects fuel self subjects (goal_product_types self goal) root_promises in
      promise_goals fuel self rest subjects root_promises
  end.

(** The planner object behind a key of the plan index. *)
Definition planner_of (self : LocalScheduler) (id : nat) : option TaskPlanner :=
  head (filter (λ planner, planner_id planner = id)
          ((λ entry, entry.1) <$> concat ((λ entry, entry.2) <$>
             _product_requirements (_planners self)))).

(** [planner.finalize_plans(plans)]; [None] when the result is the very
    object it was given, as [NoPlanner.finalize_plans] answers. *)
Definition finalize (self : LocalScheduler) (planner : planner_ref) (plans : list Plan)
    : option (list Plan) :=
  match planner with
  | NoPlanner => None
  | Registered id =>
      match planner_of self id with
      | Some planner => finalize_plans planner plans
      | None => None
      end
  end.

(** [for finalized_plan in finalized_plans: register_promises(...)] *)
Definition register_finalized (product_type : pytype) (finalized_plans : list Plan)
    (mapper : gmap promise_key Plan) : gmap promise_key Plan :=
  fold_left (λ mapper finalized_plan,
               (ProductMapper.register_promises mapper product_type finalized_plan None None).2)
    finalized_plans mapper.

(** The finalization pass of [execution_graph]. *)
Definition finalization_pass (self : LocalScheduler)
    (index : list (planner_ref * list (pytype * list Plan)))
    (mapper : gmap promise_key Plan) : gmap promise_key Plan :=
  fold_left (λ mapper by_planner,
    fold_left (λ mapper by_product_type,
                 match finalize self by_planner.1 by_product_type.2 with
                 | Some finalized_plans =>
                     register_finalized by_product_type.1 finalized_plans mapper
                 | None => mapper
                 end)
      by_planner.2 mapper)
    index mapper.

(** [LocalScheduler.execution_graph] *)
Definition execution_graph (fuel : nat) (self : LocalScheduler) (build_request : BuildRequest)
    : M ExecutionGraph :=
  let subjects := _graph self <$> addressable_roots build_request in
  let! root_promises := promise_goals fuel self (goals build_request) subjects [] in
  λ st,
    let mapper := finalization_pass self (_plans_by_product_type_by_planner st)
                    (_product_mapper st) in
    Some (Ok (mkExecutionGraph root_promises mapper),
          mkState mapper (_plans_by_product_type_by_planner st)).

End subject_products.

(** ** ExecutionGraph *)

Module ExecutionGraphM.

Section walk.

Variable product_mapper : gmap promise_key Plan.

(** [for pr in plan.promises: for pl in self._walk_plan(pr, plans): yield pl] *)
Fixpoint walk_promises (walk_plan : Promise → list Plan → option (outcome (list (Promise * Plan)) * list Plan))
    (promises : list Promise) (plans : list Plan)
    : option (outcome (list (Promise * Plan)) * list Plan) :=
  match promises with
  | [] => Some (Ok [], plans)
  | pr :: rest =>
      match walk_plan pr plans with
      | None => None
      | Some (Raise e, plans') => Some (Raise e, plans')
      | Some (Ok yielded, plans') =>
          match walk_promises walk_plan rest plans' with
          | None => None
          | Some (Raise e, plans'') => Some (Raise e, plans'')
          | Some (Ok yielded', plans'') => Some (Ok (yielded ++ yielded'), plans'')
          end
      end
  end.

(** [ExecutionGraph._walk_plan]: what the generator yields when it runs to
    its end, and the set [plans] it leaves.  A promise without a plan makes
    [plan.promises] an attribute access on [None]. *)
Fixpoint _walk_plan (fuel : nat) (promise : Promise) (plans : list Plan)
    : option (outcome (list (Promise * Plan)) * list Plan) :=
  match fuel with
  | 0 => None
  | S fuel' =>
      match ProductMapper.promised product_mapper promise with
      | None => Some (Raise AttributeError, plans)
      | Some p =>
          if existsb (PlanM.eq p) plans then Some (Ok [], plans)
          else
            match walk_promises (_walk_plan fuel') (PlanM.promises p) (plans ++ [p]) with
            | None => None
            | Some (Raise e, plans') => Some (Raise e, plans')
            | Some (Ok yielded, plans') => Some (Ok (yielded ++ [(promise, p)]), plans')
            end
      end
  end.

End walk.

(** [ExecutionGraph.walk] *)
Definition walk (fuel : nat) (self : ExecutionGraph) : option (outcome (list (Promise * Plan))) :=
  match walk_promises (_walk_plan (graph_product_mapper self) fuel) (root_promises self) [] with
  | None => None
  | Some (r, _) => Some r
  end.

End ExecutionGraphM.

(** ** The planners asked by promise *)

Section asked.

Variables (promise : obj → pytype → option obj → M Promise)
          (product_type : pytype) (subject : obj) (configuration : option obj).

(** [asked planners st plans st']: starting in [st], each of [planners] in
    turn returns from [plan]; [plans] pairs the planners that returned a plan
    with it, and [st'] is the state after the last call. *)
Inductive asked : list TaskPlanner → SchedulerState → list (planner_ref * Plan) →
                  SchedulerState → Prop :=
| asked_nil st : asked [] st [] st
| asked_plan planner planners st st1 p plans st2 :
    plan planner promise product_type subject configuration st = Some (Ok (Some p), st1) →
    asked planners st1 plans st2 →
    asked (planner :: planners) st ((Registered (planner_id planner), p) :: plans) st2
| asked_no_plan planner planners st st1 plans st2 :
    plan planner promise product_type subject configuration st = Some (Ok None, st1) →
    asked planners st1 plans st2 →
    asked (planner :: planners) st plans st2.

End asked.

(** The plan [lift_native_plan] builds. *)
Definition native_plan (product_type : pytype) (subject : obj) : Plan :=
  mkPlan (TaskCategorizationM.of_func "lift_native_product") [mkSubject subject None]
    [("subject", VObj subject); ("product_type", VType product_type)].

(** ** The walkers over Python's iteration protocol *)

(** [iter_promises] transcribed test by test, with [for i in item] running
    over [py_iter item]; the recursion is bounded by [fuel]. *)
Fixpoint option_concat_map {A B} (f : A → option (list B)) (l : list A) : option (list B) :=
  match l with
  | [] => Some []
  | x :: rest =>
      match f x with
      | None => None
      | Some ys =>
          match option_concat_map f rest with
          | None => None
          | Some yss => Some (ys ++ yss)
          end
      end
  end.

Fixpoint iter_promises_by_tests (fuel : nat) (item : value) : option (list Promise) :=
  match fuel with
  | 0 => None
  | S fuel' =>
      if isinstance_Promise item then
        match item with VPromise p => Some [p] | _ => Some [] end
      else if PlanM._is_mapping item then
        option_concat_map (λ kv, iter_promises_by_tests fuel' kv.2) (items item)
      else if PlanM._is_iterable item then
        option_concat_map (iter_promises_by_tests fuel') (py_iter item)
      else Some []
  end.

(** The depth of an input tree. *)
Fixpoint height (v : value) : nat :=
  match v with
  | VMapping entries => S (foldr (λ kv h, Nat.max (height kv.2) h) 0 entries)
  | VSeq elems => S (foldr (λ i h, Nat.max (height i) h) 0 elems)
  | _ => 0
  end.

(** Replacing every string of an input tree. *)
Fixpoint map_strings (g : string → string) (v : value) : value :=
  match v with
  | VMapping entries => VMapping ((λ kv, (kv.1, map_strings g kv.2)) <$> entries)
  | VSeq elems => VSeq (map_strings g <$> elems)
  | VStr s => VStr (g s)
  | VPromise _ | VObj _ | VType _ => v
  end.

(** A position in an input tree: the key of a mapping entry or the index of
    a sequence element at each level. *)
Inductive step :=
| Key (k : string)
| Index (i : nat).

Fixpoint value_at (path : list step) (v : value) : option value :=
  match path with
  | [] => Some v
  | Key k :: rest =>
      match v with
      | VMapping entries => dict_get k entries ≫= value_at rest
      | _ => None
      end
  | Index i :: rest =>
      match v with
      | VSeq elems => elems !! i ≫= value_at rest
      | _ => None
      end
  end.

(** ** The verdict of the solver, without its accumulators *)

Section verdict.

Variable verdict : pytype → option bool.

Fixpoint clauses_verdict (ored_clauses : DNF) : option bool :=
  match ored_clauses with
  | [] => Some false
  | anded_clause :: rest =>
      matched ← mapM verdict anded_clause;
      if length (filter (λ m, m = true) matched) =? length anded_clause then Some true
      else clauses_verdict rest
  end.

Fixpoint planners_verdict (registered : list (TaskPlanner * DNF)) (matched : bool)
    : option bool :=
  match registered with
  | [] => Some matched
  | (_, ored_clauses) :: rest =>
      m ← clauses_verdict ored_clauses;
      planners_verdict rest (matched || m)
  end.

End verdict.

(** Whether [output_product_type] can be produced from [input_products]. *)
Fixpoint producible (fuel : nat) (self : Planners) (input_products : list pytype)
    (output_product_type : pytype) : option bool :=
  match fuel with
  | 0 => None
  | S fuel' =>
      if bool_decide (output_product_type ∈ input_products) then Some true
      else if bool_decide (output_product_type ∉ _output_products self) then Some false
      else planners_verdict (producible fuel' self input_products)
             (PlannersM.requirements self output_product_type) false
  end.

(** [requirement self input_products o r]: the solver, asked for [o], asks
    for [r]. *)
Definition requirement (self : Planners) (input_products : list pytype) (o r : pytype) : Prop :=
  (o ∉ input_products) ∧ o ∈ _output_products self ∧
  ∃ planner ored_clauses anded_clause,
    (planner, ored_clauses) ∈ PlannersM.requirements self o ∧
    anded_clause ∈ ored_clauses ∧ r ∈ anded_clause.

(** A registry is ranked for some native products when requirements go down
    along a rank: its requirement graph has no cycle through product types
    the solver has to expand. *)
Definition ranked (self : Planners) (input_products : list pytype) (rank : pytype → nat) : Prop :=
  ∀ o r, requirement self input_products o r → rank r < rank o.

(** [missing_for fuel self input_products planner consumed unconsumed]: some
    clause registered for [planner] requires both product types, and of the
    two only [consumed] is producible. *)
Definition missing_for (fuel : nat) (self : Planners) (input_products : list pytype)
    (planner : nat) (consumed unconsumed : pytype) : Prop :=
  ∃ o registered ored_clauses anded_clause,
    (registered, ored_clauses) ∈ PlannersM.requirements self o ∧
    planner_id registered = planner ∧
    anded_clause ∈ ored_clauses ∧
    consumed ∈ anded_clause ∧ unconsumed ∈ anded_clause ∧
    producible fuel self input_products consumed = Some true ∧
    producible fuel self input_products unconsumed = Some false.

(** Every entry of a partial-consumption map is accounted for. *)
Definition partials_justified (fuel : nat) (self : Planners) (input_products : list pytype)
    (candidates : partials) : Prop :=
  ∀ consumed by_planner planner missing unconsumed,
    candidates !! consumed = Some by_planner →
    by_planner !! planner = Some missing →
    unconsumed ∈ missing →
    missing_for fuel self input_products planner consumed unconsumed.

(** The recursive call comes back on [r], whatever the accumulators. *)
Definition returns (apply_product_requirements : pytype → list pytype → solver bool)
    (input_products : list pytype) (r : pytype) : Prop :=
  ∀ acc, is_Some (apply_product_requirements r input_products acc).

(** The order on verdicts: not producible below producible. *)
Definition below (b b' : bool) : Prop := b = true → b' = true.

(** [anded_clause] is a clause of a formula registered for [planner]. *)
Definition registered_clause (self : Planners) (planner : TaskPlanner)
    (anded_clause : list pytype) : Prop :=
  ∃ o registered ored_clauses,
    (registered, ored_clauses) ∈ PlannersM.requirements self o ∧
    planner_id registered = planner_id planner ∧
    anded_clause ∈ ored_clauses.

(** The key under which [register_promises] stores the plan for a subject. *)
Definition key_for (product_type : pytype) (configuration : option obj) (s : Subject)
    : promise_key :=
  PromiseM._key (PromiseM.init product_type (inl s) configuration).

(** [ranked], checked entry by entry. *)
Definition rankedb (self : Planners) (input_products : list pytype) (rank : pytype → nat) : bool :=
  forallb (λ o,
    bool_decide (o ∈ input_products) ||
    forallb (λ entry : TaskPlanner * DNF,
               forallb (λ clause, forallb (λ r, rank r <? rank o) clause) entry.2)
      (PlannersM.requirements self o))
    (_output_products self).

(** ** Sample registries *)

(** A planner that declares its products and never plans. *)
Definition declares (id : nat) (goal : string) (products : list (pytype * DNF)) : TaskPlanner :=
  mkTaskPlanner id goal products (λ _ _ _ _, M_ret None) (λ _, None).

(** Two planners whose requirements refer to each other. *)
Definition mutual_planners : Planners :=
  PlannersM.init [declares 1 "compile" [("Classes", [["Stubs"]])];
                  declares 2 "gen" [("Stubs", [["Classes"]])]].

(** [Classes] from [Sources] and [Flags], or from [PrecompiledClasses]. *)
Definition classes_planners : Planners :=
  PlannersM.init [declares 1 "compile"
                    [("Classes", [["Sources"; "Flags"]; ["PrecompiledClasses"]])]].

(** ** The graph an execution graph walks *)

(** The promises inside a hashable form. *)
Fixpoint hkey_promises (h : hkey) : list promise_key :=
  match h with
  | HPromise k => [k]
  | HTuple l => flat_map hkey_promises l
  | HStr _ | HObj _ | HType _ => []
  end.

Section plan_graph.

Variable product_mapper : gmap promise_key Plan.

(** [depends p q]: a promise of [p] is fulfilled by a plan equal to [q]. *)
Definition depends (p q : Plan) : Prop :=
  ∃ pr q', pr ∈ PlanM.promises p ∧
           ProductMapper.promised product_mapper pr = Some q' ∧
           PlanM._key q' = PlanM._key q.

(** No plan depends on itself, directly or through other plans. *)
Definition acyclic : Prop := ∀ p, ¬ tc depends p p.

Variable roots : list Promise.

(** The promises a walk from [roots] may look up. *)
Inductive reachable_promise : Promise → Prop :=
| reachable_root pr : pr ∈ roots → reachable_promise pr
| reachable_input pr p pr' :
    reachable_promise pr →
    ProductMapper.promised product_mapper pr = Some p →
    pr' ∈ PlanM.promises p →
    reachable_promise pr'.

Definition reachable_plan (p : Plan) : Prop :=
  ∃ pr, reachable_promise pr ∧ ProductMapper.promised product_mapper pr = Some p.

(** Every promise a walk may look up has a plan. *)
Definition resolves : Prop :=
  ∀ pr, reachable_promise pr → is_Some (ProductMapper.promised product_mapper pr).

End plan_graph.

(** The keys of the plans in a list. *)
Definition keys_of (plans : list Plan) : list PlanM.plan_key := PlanM._key <$> plans.

(** The plans of the mapper, by key, that are not in the set [plans]. *)
Definition unseen (product_mapper : gmap promise_key Plan) (plans : list Plan) : list PlanM.plan_key :=
  filter (λ k, k ∉ keys_of plans) (keys_of (map_to_list product_mapper).*2).

(** [walked m roots plans yielded plans']: what a walk that found the set
    [plans], yielded [yielded] and left the set [plans'] has done. *)
Record walked (product_mapper : gmap promise_key Plan) (roots : list Promise)
    (plans : list Plan) (yielded : list (Promise * Plan)) (plans' : list Plan) : Prop :=
  mkWalked {
    walked_seen : ∀ k, k ∈ keys_of plans' ↔ k ∈ keys_of plans ∨ k ∈ keys_of yielded.*2;
    walked_once : NoDup (keys_of yielded.*2);
    walked_new : ∀ k, k ∈ keys_of yielded.*2 → k ∉ keys_of plans;
    walked_promised : ∀ pr p, (pr, p) ∈ yielded →
      ProductMapper.promised product_mapper pr = Some p ∧
      reachable_promise product_mapper roots pr;
    walked_closed : ∀ pr p input q, (pr, p) ∈ yielded → input ∈ PlanM.promises p →
      ProductMapper.promised product_mapper input = Some q →
      PlanM._key q ∈ keys_of plans';
    walked_order : acyclic product_mapper →
      ∀ i pr p input q, yielded !! i = Some (pr, p) → input ∈ PlanM.promises p →
        ProductMapper.promised product_mapper input = Some q →
        PlanM._key q ∈ keys_of plans ∨
        ∃ j e, j < i ∧ yielded !! j = Some e ∧ PlanM._key e.2 = PlanM._key q
  }.

(** [resolves], checked on the roots and on the promises of every
    registered plan. *)
Definition resolvesb (product_mapper : gmap promise_key Plan) (roots : list Promise) : bool :=
  forallb (λ pr, bool_decide (is_Some (ProductMapper.promised product_mapper pr))) roots &&
  forallb (λ p, forallb (λ pr, bool_decide (is_Some (ProductMapper.promised product_mapper pr)))
                  (PlanM.promises p))
    (map_to_list product_mapper).*2.

(** A rank on plan keys that goes down from every registered plan to the
    plans that fulfil its promises. *)
Definition rank_decreases (product_mapper : gmap promise_key Plan)
    (rank : PlanM.plan_key → nat) : bool :=
  forallb (λ p, forallb (λ pr, match ProductMapper.promised product_mapper pr with
                               | Some q => rank (PlanM._key q) <? rank (PlanM._key p)
                               | None => true
                               end)
                  (PlanM.promises p))
    (map_to_list product_mapper).*2.

(** ** Sample subjects and plans *)

Definition java_library : obj := Instance "JavaLibrary" 1.

Definition thrift_library : obj := Instance "ThriftLibrary" 2.

(** The promise of the generated sources the compilation below waits for. *)
Definition gen_promise : Promise := PromiseM.init "Sources" (inr thrift_library) None.

(** A compilation whose inputs hold strings next to a promise. *)
Definition javac_plan : Plan :=
  mkPlan (TaskCategorizationM.of_func "javac") [mkSubject java_library None]
    [("sources", VSeq [VStr "A.java"; VPromise gen_promise]);
     ("options", VMapping [("encoding", VStr "utf8")])].

(** A per-subject report and the plan that aggregates the reports of both
    subjects. *)
Definition report_plan : Plan :=
  mkPlan (TaskCategorizationM.of_func "report") [mkSubject java_library None] [].

Definition aggregated_report_plan : Plan :=
  mkPlan (TaskCategorizationM.of_func "report_all")
    [mkSubject java_library None; mkSubject thrift_library None] [].

(** ** Sample schedulers *)

(** Every subject carries [Sources] natively. *)
Definition sources_for_subject : obj → list pytype := λ _, ["Sources"].

(** A compiler planner: [Classes] from [Sources]; its plan is for the subject
    it is asked about and takes the promised sources as input. *)
Definition javac_planner : TaskPlanner :=
  mkTaskPlanner 1 "compile" [("Classes", [["Sources"]])]
    (λ promise product_type subject configuration,
       let! sources := promise subject "Sources" None in
       M_ret (Some (mkPlan (TaskCategorizationM.of_func "javac") [mkSubject subject None]
                      [("sources", VPromise sources)])))
    (λ _, None).

Definition javac_scheduler : LocalScheduler :=
  mkLocalScheduler (λ _, java_library) (PlannersM.init [javac_planner]).

(** A planner that answers with a plan made for another subject. *)
Definition stray_plan : Plan :=
  mkPlan (TaskCategorizationM.of_func "javac") [mkSubject thrift_library None] [].

Definition stray_planner : TaskPlanner :=
  mkTaskPlanner 1 "compile" [("Classes", [["Sources"]])]
    (λ _ _ _ _, M_ret (Some stray_plan)) (λ _, None).

Definition stray_scheduler : LocalScheduler :=
  mkLocalScheduler (λ _, java_library) (PlannersM.init [stray_planner]).

Definition initial_state : SchedulerState := mkState ∅ [].

(** What [javac_planner] plans for [java_library], and the state in which it
    does: the native sources have been promised. *)
Definition javac_classes_plan : Plan :=
  mkPlan (TaskCategorizationM.of_func "javac") [mkSubject java_library None]
    [("sources", VPromise (PromiseM.init "Sources" (inr java_library) None))].

Definition sources_promised : SchedulerState :=
  mkState {[ ("Sources", java_library, None) := native_plan "Sources" java_library ]}
    [(NoPlanner, [("Sources", [native_plan "Sources" java_library])])].

(** A reporting planner.  The report of [java_library] takes the report of
    [thrift_library] as input; finalization merges the reports planned in a
    session into one plan for all their subjects. *)
Definition report_for (subject : obj) (deps : list Promise) : Plan :=
  mkPlan (TaskCategorizationM.of_func "report") [mkSubject subject None]
    [("deps", VSeq (VPromise <$> deps))].

Definition merged_report (plans : list Plan) : Plan :=
  mkPlan (TaskCategorizationM.of_func "report_all")
    (frozenset_subjects [] (flat_map _subjects plans))
    [("deps", VSeq (VPromise <$> flat_map PlanM.promises plans))].

Definition report_planner : TaskPlanner :=
  mkTaskPlanner 1 "report" [("Reports", [["Sources"]])]
    (λ promise product_type subject configuration,
       if decide (subject = java_library) then
         let! dep := promise thrift_library "Reports" None in
         M_ret (Some (report_for subject [dep]))
       else M_ret (Some (report_for subject [])))
    (λ plans, Some [merged_report plans]).

Definition report_scheduler : LocalScheduler :=
  mkLocalScheduler (λ _, java_library) (PlannersM.init [report_planner]).

Definition reports_of (subject : obj) : Promise := PromiseM.init "Reports" (inr subject) None.

(** The plan finalization leaves for both libraries, and the execution graph
    of the request for the reports of [java_library]. *)
Definition merged_plan : Plan :=
  merged_report [report_for thrift_library [];
                 report_for java_library [reports_of thrift_library]].

Definition report_graph : ExecutionGraph :=
  mkExecutionGraph [reports_of java_library]
    {[ ("Reports", java_library, None) := merged_plan;
       ("Reports", thrift_library, None) := merged_plan ]}.

(** The execution graph of the compilation of [java_library]. *)
Definition javac_graph : ExecutionGraph :=
  mkExecutionGraph [PromiseM.init "Classes" (inr java_library) None]
    {[ ("Classes", java_library, None) := javac_classes_plan;
       ("Sources", java_library, None) := native_plan "Sources" java_library ]}.

(** ** What the solver decides *)

(** [derivable self input_products o]: [o] is among the input products, or it
    is an output product with a registered clause whose requirements are all
    derivable. *)
Inductive derivable (self : Planners) (input_products : list pytype) : pytype → Prop :=
| derivable_input o :
    o ∈ input_products → derivable self input_products o
| derivable_output o planner ored_clauses anded_clause :
    o ∈ _output_products self →
    (planner, ored_clauses) ∈ PlannersM.requirements self o →
    anded_clause ∈ ored_clauses →
    (∀ r, r ∈ anded_clause → derivable self input_products r) →
    derivable self input_products o.

(** Every product type of [consumed] is a requirement of a registered clause
    whose requirements are all producible. *)
Definition consumed_justified (fuel : nat) (self : Planners) (input_products : list pytype)
    (consumed : gset pytype) : Prop :=
  ∀ c, c ∈ consumed →
    ∃ planner anded_clause,
      registered_clause self planner anded_clause ∧ c ∈ anded_clause ∧
      ∀ r, r ∈ anded_clause → producible fuel self input_products r = Some true.

(** A leaf of an input tree: anything but a mapping or a sequence. *)
Definition is_leaf (v : value) : bool :=
  match v with VMapping _ | VSeq _ => false | _ => true end.

(** A root promise without a plan. *)
Definition dangling_graph : ExecutionGraph := mkExecutionGraph [gen_promise] ∅.

(** ** What planners may do to the product mapper *)

(** [steps R c]: whenever the computation [c] comes back, returning or
    raising, the product mappers before and after are related by [R]. *)
Definition steps {A : Type} (R : relation (gmap promise_key Plan)) (c : M A) : Prop :=
  ∀ st r st', c st = Some (r, st') → R (_product_mapper st) (_product_mapper st').

(** A planner respects [R] when its [plan] method steps along [R] provided
    the [promise] method of the scheduler it is handed does. *)
Definition planner_respects (R : relation (gmap promise_key Plan)) (planner : TaskPlanner)
    : Prop :=
  ∀ promise, (∀ subject product_type configuration,
                steps R (promise subject product_type configuration)) →
    ∀ product_type subject configuration,
      steps R (plan planner promise product_type subject configuration).

(** Promises are kept: what has a plan still has one. *)
Definition keeps_promises (m m' : gmap promise_key Plan) : Prop :=
  ∀ k, is_Some (m !! k) → is_Some (m' !! k).

(** Every plan of the mapper is registered for one of its own subjects. *)
Definition covers (m : gmap promise_key Plan) : Prop :=
  ∀ product_type subject configuration p,
    m !! (product_type, subject, configuration) = Some p →
    subject ∈ SubjectM.primary <$> PlanM.subjects p.

Definition stays_covered (m m' : gmap promise_key Plan) : Prop := covers m → covers m'.

(** The scheduler after the compilation of [java_library] has been planned. *)
Definition javac_session : SchedulerState :=
  mkState (graph_product_mapper javac_graph)
    [(NoPlanner, [("Sources", [native_plan "Sources" java_library])]);
     (Registered 1, [("Classes", [javac_classes_plan])])].

(** Two plans that differ in the order of their subjects and inputs and in
    the alternates of their subjects. *)
Definition javac_both_plan : Plan :=
  mkPlan (TaskCategorizationM.of_func "javac")
    [mkSubject java_library None; mkSubject thrift_library None]
    [("sources", VSeq [VStr "A.java"; VPromise gen_promise]);
     ("options", VMapping [("encoding", VStr "utf8")])].

Definition javac_both_plan_reordered : Plan :=
  mkPlan (TaskCategorizationM.of_func "javac")
    [mkSubject thrift_library (Some java_library); mkSubject java_library None]
    [("options", VMapping [("encoding", VStr "utf8")]);
     ("sources", VSeq [VStr "A.java"; VPromise gen_promise])].

(** The planners of a list that declare [product_type], each with the
    formula it declares for it. *)
Definition declared_for (product_type : pytype) (planners : list TaskPlanner)
    : list (TaskPlanner * DNF) :=
  omap (λ planner, (λ ored_clauses, (planner, ored_clauses)) <$>
                     dict_get product_type (product_types planner)) planners.

(** A compiler and a generator of sources. *)
Definition thrift_planner : TaskPlanner :=
  declares 2 "gen" [("Sources", [["ThriftSources"]]); ("Stubs", [["ThriftSources"]])].

Definition two_planners : list TaskPlanner := [javac_planner; thrift_planner].

(** ** The registrations of the finalization pass *)

(** The (product type, finalized plan) pairs the finalization pass of
    [execution_graph] registers, in the order it registers them. *)
Definition registrations (self : LocalScheduler)
    (index : list (planner_ref * list (pytype * list Plan))) : list (pytype * Plan) :=
  flat_map (λ by_planner,
    flat_map (λ by_product_type : pytype * list Plan,
                match finalize self by_planner.1 by_product_type.2 with
                | Some finalized_plans =>
                    (λ finalized_plan, (by_product_type.1, finalized_plan)) <$> finalized_plans
                | None => []
                end)
      by_planner.2)
    index.

(** The registration stores its plan under the key [k]. *)
Definition registers (k : promise_key) (registration : pytype * Plan) : Prop :=
  k ∈ key_for registration.1 None <$> PlanM.subjects registration.2.

#[global] Instance registers_dec (k : promise_key) (registration : pytype * Plan) :
  Decision (registers k registration).
Proof. unfold registers. apply _. Defined.

(** The products at hand when [javac_plan] is bound, and its binding. *)
Definition generated_sources : gmap promise_key value :=
  {[ PromiseM._key gen_promise := VSeq [VStr "Gen.java"] ]}.

Definition javac_binding : Binding :=
  mkBinding (TaskCategorizationM.of_func "javac")
    [("sources", VSeq [VStr "A.java"; VSeq [VStr "Gen.java"]]);
     ("options", VMapping [("encoding", VStr "utf8")])].

(** ** What the solver leaves in its accumulators *)

(** A clause all of whose requirements are derivable. *)
Definition satisfied (self : Planners) (input_products : list pytype)
    (anded_clause : list pytype) : Prop :=
  ∀ r, r ∈ anded_clause → derivable self input_products r.

(** [evaluated self input_products o planner anded_clause]: asked for [o], the
    solver evaluates the clause [anded_clause] of [planner].  The solver
    expands [o] when it is neither an input product nor unknown; it then goes
    through the formula of every planner registered for [o] up to the first
    satisfied clause, and asks for every requirement of each clause it goes
    through. *)
Inductive evaluated (self : Planners) (input_products : list pytype)
    : pytype → TaskPlanner → list pytype → Prop :=
| evaluated_clause o planner before anded_clause after :
    (o ∉ input_products) →
    o ∈ _output_products self →
    (planner, before ++ anded_clause :: after) ∈ PlannersM.requirements self o →
    (∀ c, c ∈ before → ¬ satisfied self input_products c) →
    evaluated self input_products o planner anded_clause
| evaluated_requirement o registered before anded_clause after r planner clause :
    (o ∉ input_products) →
    o ∈ _output_products self →
    (registered, before ++ anded_clause :: after) ∈ PlannersM.requirements self o →
    (∀ c, c ∈ before → ¬ satisfied self input_products c) →
    r ∈ anded_clause →
    evaluated self input_products r planner clause →
    evaluated self input_products o planner clause.

(** [recorded candidates consumed planner unconsumed]: the entry
    [candidates[consumed][planner]] holds [unconsumed]. *)
Definition recorded (candidates : partials) (consumed : pytype) (planner : nat)
    (unconsumed : pytype) : Prop :=
  ∃ by_planner missing,
    candidates !! consumed = Some by_planner ∧
    by_planner !! planner = Some missing ∧
    unconsumed ∈ missing.

(** Every product of the map has a planner, and every planner a missing
    requirement. *)
Definition no_empty_entry (candidates : partials) : Prop :=
  ∀ consumed by_planner,
    candidates !! consumed = Some by_planner →
    (∃ planner missing, by_planner !! planner = Some missing) ∧
    ∀ planner missing, by_planner !! planner = Some missing → ∃ unconsumed, unconsumed ∈ missing.

(** [consumes self input_products E c planner u]: a clause of [planner] among
    the clauses [E] requires [c], which is derivable, next to [u], which is
    not. *)
Definition consumes (self : Planners) (input_products : list pytype)
    (E : TaskPlanner → list pytype → Prop) (c : pytype) (planner : nat) (u : pytype) : Prop :=
  ∃ registered anded_clause,
    E registered anded_clause ∧ planner_id registered = planner ∧
    c ∈ anded_clause ∧ u ∈ anded_clause ∧
    derivable self input_products c ∧ ¬ derivable self input_products u.

(** [consumes_fully self input_products E c]: a satisfied clause among the
    clauses [E] requires [c]. *)
Definition consumes_fully (self : Planners) (input_products : list pytype)
    (E : TaskPlanner → list pytype → Prop) (c : pytype) : Prop :=
  ∃ registered anded_clause,
    E registered anded_clause ∧ satisfied self input_products anded_clause ∧ c ∈ anded_clause.

(** What a run of the solver that evaluates the clauses [E] adds to the
    accumulators. *)
Definition adds (self : Planners) (input_products : list pytype)
    (E : TaskPlanner → list pytype → Prop) (acc acc' : accumulators) : Prop :=
  (∀ c, c ∈ fully_consumed acc' ↔
        c ∈ fully_consumed acc ∨ consumes_fully self input_products E c) ∧
  (∀ c planner u,
     recorded (partially_consumed_candidates acc') c planner u ↔
     recorded (partially_consumed_candidates acc) c planner u ∨
     consumes self input_products E c planner u) ∧
  (no_empty_entry (partially_consumed_candidates acc) →
   no_empty_entry (partially_consumed_candidates acc')).

(** [evaluated_in self input_products planner ored_clauses p clause]: going
    through the formula [ored_clauses] of [planner], the solver evaluates the
    clause [clause] of [p]. *)
Definition evaluated_in (self : Planners) (input_products : list pytype)
    (planner : TaskPlanner) (ored_clauses : DNF) (p : TaskPlanner) (clause : list pytype)
    : Prop :=
  ∃ before anded_clause after,
    ored_clauses = before ++ anded_clause :: after ∧
    (∀ c, c ∈ before → ¬ satisfied self input_products c) ∧
    ((p = planner ∧ clause = anded_clause) ∨
     ∃ r, r ∈ anded_clause ∧ evaluated self input_products r p clause).

(** * Properties *)

(** ** Promise identity *)

(** C5. The key of a promise is the triple (product type, primary of the
    subject, configuration); hence two promises that differ only in the
    alternate of their subject are equal and have the same hash, whatever the
    hash function on keys. *)
Theorem promise_identity_ignores_alternate :
  ∀ (P : pytype) (x : obj) (a b c : option obj),
    let p := PromiseM.init P (inl (mkSubject x a)) c in
    let q := PromiseM.init P (inl (mkSubject x b)) c in
    PromiseM._key p = (P, x, c) ∧
    PromiseM._key q = (P, x, c) ∧
    PromiseM.eq p q = true ∧
    (∀ (H : Type) (py_hash : promise_key → H), PromiseM.hash py_hash p = PromiseM.hash py_hash q) ∧
    SubjectM.eq (mkSubject x a) (mkSubject x b) = true.
Proof.
  intros P x a b c p q. unfold PromiseM.eq, PromiseM.hash, SubjectM.eq.
  repeat split; try reflexivity; by apply bool_decide_eq_true.
Qed.

(** ** ProductMapper.register_promises *)

Section register_promises.

Variables (product_type : pytype) (p : Plan) (primary_subject configuration : option obj).

Local Abbreviation register_step :=
  (ProductMapper.register_subject product_type p primary_subject configuration).

Lemma register_fold_lookup (l : list Subject) (st : option Promise * gmap promise_key Plan)
    (k : promise_key) :
  (fold_left register_step l st).2 !! k =
    if bool_decide (k ∈ key_for product_type configuration <$> l) then Some p else st.2 !! k.
Proof.
  revert st. induction l as [|s l IH]; intros st.
  - rewrite bool_decide_eq_false_2; [done|]. apply not_elem_of_nil.
  - cbn [fold_left]. rewrite IH. cbn [ProductMapper.register_subject snd].
    rewrite fmap_cons. case_bool_decide as Hl.
    + rewrite bool_decide_eq_true_2; [done|]. by right.
    + case_bool_decide as Hsl.
      * apply elem_of_cons in Hsl as [->|Hsl]; [|done]. apply lookup_insert_eq.
      * rewrite lookup_insert_ne; [done|]. intros Hk. apply Hsl, elem_of_cons. left. symmetry. exact Hk.
Qed.

Lemma register_fold_primary (l : list Subject) (st : option Promise * gmap promise_key Plan) :
  (fold_left register_step l st).1 =
    match last (filter (λ s, primary_subject = Some (SubjectM.primary s)) l) with
    | Some s => Some (PromiseM.init product_type (inl s) configuration)
    | None => st.1
    end.
Proof.
  revert st. induction l as [|s l IH]; intros st; simpl; [done|].
  rewrite IH. rewrite filter_cons. simpl. case_bool_decide as Hs.
  - rewrite decide_True by done.
    destruct (filter _ l) as [|s' l'] eqn:Hf; [done|].
    rewrite last_cons_cons. destruct (last (s' :: l')) eqn:E; [done|]. by apply last_None in E.
  - by rewrite decide_False.
Qed.

Lemma last_filter_elem {A} (P : A → Prop) `{∀ x, Decision (P x)} (l : list A) (x : A) :
  last (filter P l) = Some x → x ∈ l ∧ P x.
Proof.
  intros Hl. assert (x ∈ filter P l) as Hx.
  { apply last_Some in Hl as [l' ->]. apply elem_of_app. right. by left. }
  by apply list_elem_of_filter in Hx as [? ?].
Qed.

Lemma last_filter_none {A} (P : A → Prop) `{∀ x, Decision (P x)} (l : list A) :
  last (filter P l) = None → ∀ x, x ∈ l → ¬ P x.
Proof.
  intros Hl x Hx HP. apply last_None in Hl.
  assert (x ∈ filter P l) as Hin by (apply list_elem_of_filter; done).
  rewrite Hl in Hin. by apply elem_of_nil in Hin.
Qed.

End register_promises.

(** C8. [register_promises] maps the promise of every subject of the plan to
    the plan and leaves every other entry alone; it raises
    [InvalidRegistrationError] exactly when a primary subject is supplied that
    is the primary of no subject of the plan; otherwise it returns the promise
    of a subject of the plan with that primary when one is supplied, and
    [None] when none is. *)
Theorem register_promises_spec :
  ∀ (self : gmap promise_key Plan) (product_type : pytype) (p : Plan)
    (primary_subject configuration : option obj),
    let r := ProductMapper.register_promises self product_type p primary_subject configuration in
    let promise_for s := PromiseM.init product_type (inl s) configuration in
    (∀ s, s ∈ PlanM.subjects p → ProductMapper.promised r.2 (promise_for s) = Some p) ∧
    (∀ k, (∀ s, s ∈ PlanM.subjects p → PromiseM._key (promise_for s) ≠ k) → r.2 !! k = self !! k) ∧
    ((∃ e, r.1 = Raise e) ↔
       ∃ subject, primary_subject = Some subject ∧
                  ∀ s, s ∈ PlanM.subjects p → SubjectM.primary s ≠ subject) ∧
    (∀ e, r.1 = Raise e →
       ∃ subject, primary_subject = Some subject ∧ e = InvalidRegistrationError subject p) ∧
    (∀ subject, primary_subject = Some subject →
       (∃ s, s ∈ PlanM.subjects p ∧ SubjectM.primary s = subject) →
       ∃ s, s ∈ PlanM.subjects p ∧ SubjectM.primary s = subject ∧
            r.1 = Ok (Some (promise_for s))) ∧
    (primary_subject = None → r.1 = Ok None).
Proof.
  intros self product_type p primary_subject configuration r promise_for.
  subst r. unfold ProductMapper.register_promises, ProductMapper.promised.
  set (st := fold_left _ _ _).
  assert (Hst1 : st.1 = match last (filter (λ s, primary_subject = Some (SubjectM.primary s))
                                     (PlanM.subjects p)) with
                        | Some s => Some (promise_for s) | None => None end)
    by apply register_fold_primary.
  assert (Hst2 : ∀ k, st.2 !! k =
            if bool_decide (k ∈ key_for product_type configuration <$> PlanM.subjects p)
            then Some p else self !! k)
    by (intros k; apply register_fold_lookup).
  assert (Hcov : ∀ s, s ∈ PlanM.subjects p → st.2 !! PromiseM._key (promise_for s) = Some p).
  { intros s Hs. rewrite Hst2, bool_decide_eq_true_2; [done|].
    apply list_elem_of_fmap. by exists s. }
  assert (Hrest : ∀ k, (∀ s, s ∈ PlanM.subjects p → PromiseM._key (promise_for s) ≠ k) →
                       st.2 !! k = self !! k).
  { intros k Hk. rewrite Hst2, bool_decide_eq_false_2; [done|].
    intros (s & Heq & Hs)%list_elem_of_fmap. by eapply Hk. }
  rewrite Hst1. clearbody st. clear Hst1 Hst2.
  destruct primary_subject as [subject|].
  - destruct (last _) as [s'|] eqn:Hlast; simpl.
    + apply last_filter_elem in Hlast as [Hs' Heq].
      repeat split; try done.
      * intros [e He]. done.
      * intros (subject' & [= <-] & Hnone). exfalso. eapply Hnone; [done|]. congruence.
      * intros subject' [= <-] _. exists s'. split; [done|]. split; [congruence|done].
    + pose proof (last_filter_none _ _ Hlast) as Hnone.
      repeat split; try done.
      * intros _. exists subject. split; [done|]. intros s Hs Hprim.
        apply (Hnone s Hs). by rewrite Hprim.
      * intros _. eauto.
      * intros e [= <-]. eauto.
      * intros subject' [= <-] (s & Hs & Hprim). exfalso.
        apply (Hnone s Hs). by rewrite Hprim.
  - destruct (last _) as [s'|] eqn:Hlast; simpl.
    { by apply last_filter_elem in Hlast as [_ ?]. }
    repeat split; try done.
    + intros [e He]. done.
    + intros (subject & ? & _). done.
Qed.

Lemma register_promises_lookup (self : gmap promise_key Plan) (product_type : pytype) (p : Plan)
    (primary_subject configuration : option obj) (k : promise_key) :
  (ProductMapper.register_promises self product_type p primary_subject configuration).2 !! k =
    if bool_decide (k ∈ key_for product_type configuration <$> PlanM.subjects p)
    then Some p else self !! k.
Proof.
  unfold ProductMapper.register_promises.
  pose proof (register_fold_lookup product_type p primary_subject configuration
                (PlanM.subjects p) (None, self) k) as H.
  simpl in H. rewrite <- H.
  by destruct primary_subject, (fold_left _ _ _).1.
Qed.

Lemma register_promises_outcome (self : gmap promise_key Plan) (product_type : pytype) (p : Plan)
    (primary_subject configuration : option obj) :
  (ProductMapper.register_promises self product_type p primary_subject configuration).1 =
    match primary_subject,
          last (filter (λ s, primary_subject = Some (SubjectM.primary s)) (PlanM.subjects p)) with
    | Some subject, None => Raise (InvalidRegistrationError subject p)
    | _, Some s => Ok (Some (PromiseM.init product_type (inl s) configuration))
    | None, None => Ok None
    end.
Proof.
  unfold ProductMapper.register_promises.
  rewrite (register_fold_primary product_type p primary_subject configuration
             (PlanM.subjects p) (None, self)).
  by destruct primary_subject, (last _).
Qed.

Lemma register_promises_covered (self : gmap promise_key Plan) (product_type : pytype) (p : Plan)
    (primary_subject configuration : option obj) (s : Subject) :
  s ∈ PlanM.subjects p →
  ProductMapper.promised
    (ProductMapper.register_promises self product_type p primary_subject configuration).2
    (PromiseM.init product_type (inl s) configuration) = Some p.
Proof.
  intros Hs. unfold ProductMapper.promised.
  rewrite register_promises_lookup, bool_decide_eq_true_2; [done|].
  apply list_elem_of_fmap. by exists s.
Qed.

(** C10. Registration is last-wins.  When a plan covering a subject is
    registered over a mapping that already maps the promise of that subject
    to another plan, the entry is overwritten: the outcome of the call is the
    one it has on an empty mapping (so no error stems from the collision, and
    without a primary subject there is none at all), and [promised] then
    answers the newly registered plan, also for every promise equal to the
    stored one.  The finalization pass inherits this: after re-registering a
    list of finalized plans, a promise covered by the last of them resolves
    to it. *)
Theorem registration_last_wins :
  ∀ (self : gmap promise_key Plan) (product_type : pytype) (old p : Plan)
    (primary_subject configuration : option obj) (s : Subject),
    s ∈ PlanM.subjects p →
    ProductMapper.promised self (PromiseM.init product_type (inl s) configuration) = Some old →
    let r := ProductMapper.register_promises self product_type p primary_subject configuration in
    r.1 = (ProductMapper.register_promises ∅ product_type p primary_subject configuration).1 ∧
    (primary_subject = None → r.1 = Ok None) ∧
    ProductMapper.promised r.2 (PromiseM.init product_type (inl s) configuration) = Some p ∧
    (∀ q, PromiseM.eq q (PromiseM.init product_type (inl s) configuration) = true →
          ProductMapper.promised r.2 q = Some p) ∧
    (configuration = None →
     ∀ finalized_plans,
       ProductMapper.promised (register_finalized product_type (finalized_plans ++ [p]) self)
         (PromiseM.init product_type (inl s) None) = Some p).
Proof.
  intros self product_type old p primary_subject configuration s Hs Hold r. subst r.
  split; [by rewrite !register_promises_outcome|].
  split.
  { intros ->. rewrite register_promises_outcome.
    destruct (last _) as [s'|] eqn:Hlast; [|done].
    by apply last_filter_elem in Hlast as [_ ?]. }
  split; [by apply register_promises_covered|].
  split.
  { intros q Hq. apply bool_decide_eq_true in Hq. unfold ProductMapper.promised. rewrite Hq.
    by apply register_promises_covered. }
  intros -> finalized_plans. unfold register_finalized. rewrite fold_left_app.
  cbn [fold_left]. by apply register_promises_covered.
Qed.

Lemma registration_last_wins_witness :
  mkSubject java_library None ∈ PlanM.subjects aggregated_report_plan ∧
  ProductMapper.promised {[ ("Reports", java_library, None) := report_plan ]}
    (PromiseM.init "Reports" (inl (mkSubject java_library None)) None) = Some report_plan ∧
  ProductMapper.promised
    (ProductMapper.register_promises {[ ("Reports", java_library, None) := report_plan ]}
       "Reports" aggregated_report_plan None None).2
    (PromiseM.init "Reports" (inl (mkSubject java_library None)) None)
  = Some aggregated_report_plan.
Proof.
  assert (H1 : mkSubject java_library None ∈ PlanM.subjects aggregated_report_plan)
    by (apply elem_of_cons; left; reflexivity).
  assert (H2 : ProductMapper.promised {[ ("Reports", java_library, None) := report_plan ]}
                 (PromiseM.init "Reports" (inl (mkSubject java_library None)) None)
               = Some report_plan)
    by (vm_compute; reflexivity).
  split; [exact H1|]. split; [exact H2|].
  exact (proj1 (proj2 (proj2
    (registration_last_wins _ "Reports" report_plan aggregated_report_plan None None
       (mkSubject java_library None) H1 H2)))).
Defined.

(** ** Strings are leaves of the input tree *)

Lemma value_ind_nested (P : value → Prop) :
  (∀ p, P (VPromise p)) →
  (∀ entries, Forall (λ kv, P kv.2) entries → P (VMapping entries)) →
  (∀ elems, Forall P elems → P (VSeq elems)) →
  (∀ s, P (VStr s)) → (∀ o, P (VObj o)) → (∀ t, P (VType t)) →
  ∀ v, P v.
Proof.
  intros Hp Hm Hs Hstr Ho Ht. fix IH 1.
  intros [p|entries|elems|s|o|t]; [apply Hp| | |apply Hstr|apply Ho|apply Ht].
  - apply Hm. induction entries as [|kv entries IHe]; constructor; [apply IH|apply IHe].
  - apply Hs. induction elems as [|i elems IHe]; constructor; [apply IH|apply IHe].
Qed.

Lemma iter_promises_by_tests_total (item : value) (fuel : nat) :
  height item < fuel → iter_promises_by_tests fuel item = Some (PlanM.iter_promises item).
Proof.
  revert fuel. induction item as [p|entries IH|elems IH|s|o|t] using value_ind_nested;
    intros [|fuel] Hfuel; try lia; try reflexivity.
  - cbn [iter_promises_by_tests isinstance_Promise PlanM._is_mapping isinstance_Mapping items
         PlanM.iter_promises].
    cbn [height] in Hfuel. apply Nat.succ_lt_mono in Hfuel.
    induction IH as [|kv entries Hkv _ IHentries]; [done|].
    cbn [option_concat_map flat_map foldr] in *.
    rewrite Hkv by lia. rewrite IHentries by lia. done.
  - cbn [iter_promises_by_tests isinstance_Promise PlanM._is_mapping isinstance_Mapping
         PlanM._is_iterable isinstance_Iterable isinstance_string_types py_iter
         PlanM.iter_promises negb andb].
    cbn [height] in Hfuel. apply Nat.succ_lt_mono in Hfuel.
    induction IH as [|i elems Hi _ IHelems]; [done|].
    cbn [option_concat_map flat_map foldr] in *.
    rewrite Hi by lia. rewrite IHelems by lia. done.
Qed.

Lemma iter_promises_map_strings (g : string → string) (item : value) :
  PlanM.iter_promises (map_strings g item) = PlanM.iter_promises item.
Proof.
  induction item as [p|entries IH|elems IH|s|o|t] using value_ind_nested; try reflexivity.
  - cbn [map_strings PlanM.iter_promises].
    induction IH as [|kv entries Hkv _ IHentries]; [done|].
    rewrite fmap_cons. cbn [flat_map snd]. by rewrite Hkv, IHentries.
  - cbn [map_strings PlanM.iter_promises].
    induction IH as [|i elems Hi _ IHelems]; [done|].
    rewrite fmap_cons. cbn [flat_map]. by rewrite Hi, IHelems.
Qed.

Lemma promises_map_strings (g : string → string) (p : Plan) :
  PlanM.promises (mkPlan (_func_or_task_type p) (_subjects p)
                    ((λ kv, (kv.1, map_strings g kv.2)) <$> _inputs p)) = PlanM.promises p.
Proof.
  unfold PlanM.promises. cbn [_inputs]. generalize (@nil Promise).
  induction (_inputs p) as [|kv inputs IH]; intros acc; [done|].
  rewrite fmap_cons. cbn [fold_left snd]. by rewrite iter_promises_map_strings, IH.
Qed.

Lemma dict_get_setitem_eq {V} (k : string) (v : V) (d : list (string * V)) :
  dict_get k (dict_setitem k v d) = Some v.
Proof.
  induction d as [|[k' v'] d IH]; simpl.
  - by rewrite decide_True.
  - destruct (decide (k = k')) as [->|Hne]; simpl.
    + by rewrite decide_True.
    + by rewrite decide_False.
Qed.

Lemma dict_get_setitem_ne {V} (k k' : string) (v : V) (d : list (string * V)) :
  k ≠ k' → dict_get k (dict_setitem k' v d) = dict_get k d.
Proof.
  intros Hne. induction d as [|[k'' v''] d IH]; simpl.
  - by rewrite decide_False.
  - destruct (decide (k' = k'')) as [->|Hne']; simpl.
    + by rewrite !decide_False.
    + destruct (decide (k = k'')); [done|]. apply IH.
Qed.

Lemma dict_get_key {V} (k : string) (v : V) (d : list (string * V)) :
  dict_get k d = Some v → k ∈ (λ kv, kv.1) <$> d.
Proof.
  induction d as [|[k' v'] d IH]; simpl; [done|].
  destruct (decide (k = k')) as [->|Hne]; intros H; apply elem_of_cons; [by left|right; auto].
Qed.

Section bind_products.

Variable products_by_promise : gmap promise_key value.

Local Abbreviation bind_products := (PlanBinding.bind_products products_by_promise).

Lemma outcome_map_entry (entries bound : list (string * value)) (k : string) (v : value) :
  outcome_map (λ kv, match bind_products kv.2 with
                     | Raise e => Raise e
                     | Ok v => Ok (kv.1, v)
                     end) entries = Ok bound →
  dict_get k entries = Some v →
  ∃ v', dict_get k bound = Some v' ∧ bind_products v = Ok v'.
Proof.
  revert bound. induction entries as [|[k' x] entries IH]; intros bound Hmap Hget; [done|].
  cbn [outcome_map snd fst] in Hmap.
  destruct (bind_products x) as [x'|e] eqn:Hx; [|done].
  destruct (outcome_map _ entries) as [bound'|e] eqn:Hrest; [|done].
  injection Hmap as <-. simpl in Hget |- *.
  destruct (decide (k = k')) as [->|Hne].
  - injection Hget as <-. eauto.
  - by apply IH.
Qed.

Lemma outcome_map_elem (elems bound : list value) (i : nat) (v : value) :
  outcome_map bind_products elems = Ok bound →
  elems !! i = Some v →
  ∃ v', bound !! i = Some v' ∧ bind_products v = Ok v'.
Proof.
  revert bound i. induction elems as [|x elems IH]; intros bound i Hmap Hget; [done|].
  cbn [outcome_map] in Hmap.
  destruct (bind_products x) as [x'|e] eqn:Hx; [|done].
  destruct (outcome_map _ elems) as [bound'|e] eqn:Hrest; [|done].
  injection Hmap as <-. destruct i as [|i]; simpl in Hget |- *.
  - injection Hget as <-. eauto.
  - by apply IH.
Qed.

Lemma bind_products_value_at (path : list step) (item item' : value) (s : string) :
  value_at path item = Some (VStr s) →
  bind_products item = Ok item' →
  value_at path item' = Some (VStr s).
Proof.
  revert item item'. induction path as [|[k|i] path IH]; intros item item' Hat Hbind.
  - simpl in Hat. injection Hat as ->. simpl in Hbind. by injection Hbind as <-.
  - destruct item as [|entries| | | |]; try done. cbn [value_at] in Hat.
    destruct (dict_get k entries) as [v|] eqn:Hget; [|done]. simpl in Hat.
    cbn [PlanBinding.bind_products] in Hbind.
    destruct (outcome_map _ entries) as [bound|e] eqn:Hmap; [|done].
    injection Hbind as <-.
    destruct (outcome_map_entry _ _ _ _ Hmap Hget) as (v' & Hget' & Hv').
    cbn [value_at]. rewrite Hget'. simpl. by eapply IH.
  - destruct item as [| |elems| | |]; try done. cbn [value_at] in Hat.
    destruct (elems !! i) as [v|] eqn:Hget; [|done]. simpl in Hat.
    cbn [PlanBinding.bind_products] in Hbind.
    destruct (outcome_map _ elems) as [bound|e] eqn:Hmap; [|done].
    injection Hbind as <-.
    destruct (outcome_map_elem _ _ _ _ Hmap Hget) as (v' & Hget' & Hv').
    cbn [value_at]. rewrite Hget'. simpl. by eapply IH.
Qed.

Lemma bind_inputs_other (inputs bound res : list (string * value)) (name : string) :
  name ∉ (λ kv, kv.1) <$> inputs →
  PlanBinding.bind_inputs products_by_promise inputs bound = Ok res →
  dict_get name res = dict_get name bound.
Proof.
  revert bound. induction inputs as [|[k x] inputs IH]; intros bound Hnot Hbind.
  - simpl in Hbind. by injection Hbind as <-.
  - cbn [PlanBinding.bind_inputs snd fst] in Hbind.
    destruct (bind_products x) as [x'|e]; [|done].
    rewrite fmap_cons in Hnot. apply not_elem_of_cons in Hnot as [Hne Hnot].
    rewrite (IH _ Hnot Hbind). by apply dict_get_setitem_ne.
Qed.

Lemma bind_inputs_entry (inputs bound res : list (string * value)) (name : string) (v : value) :
  NoDup ((λ kv, kv.1) <$> inputs) →
  PlanBinding.bind_inputs products_by_promise inputs bound = Ok res →
  dict_get name inputs = Some v →
  ∃ v', dict_get name res = Some v' ∧ bind_products v = Ok v'.
Proof.
  revert bound. induction inputs as [|[k x] inputs IH]; intros bound Hnodup Hbind Hget; [done|].
  cbn [PlanBinding.bind_inputs snd fst] in Hbind.
  destruct (bind_products x) as [x'|e] eqn:Hx; [|done].
  rewrite fmap_cons in Hnodup. apply NoDup_cons in Hnodup as [Hk Hnodup].
  simpl in Hget, Hk. destruct (decide (name = k)) as [->|Hne].
  - injection Hget as <-. exists x'. split; [|done].
    rewrite (bind_inputs_other _ _ _ _ Hk Hbind). apply dict_get_setitem_eq.
  - by eapply IH.
Qed.

End bind_products.

(** C9. Strings are leaves of the input tree.  A string is an instance of
    [Iterable], yet [_is_iterable] rejects it; the walker of [Plan.promises]
    is done with a string in one step whatever its length, without a
    recursive call on its characters; the promises of a plan do not depend on
    the strings in its inputs; and [Plan.bind] leaves every string where it
    was, unchanged. *)
Theorem strings_are_leaves :
  ∀ (p : Plan) (name : string) (v : value) (path : list step) (s : string),
    NoDup ((λ kv, kv.1) <$> _inputs p) →
    dict_get name (_inputs p) = Some v →
    value_at path v = Some (VStr s) →
    (isinstance_Iterable (VStr s) = true ∧ PlanM._is_iterable (VStr s) = false) ∧
    (∀ fuel, iter_promises_by_tests (S fuel) (VStr s) = Some []) ∧
    (∀ fuel, height v < fuel → iter_promises_by_tests fuel v = Some (PlanM.iter_promises v)) ∧
    (∀ g, PlanM.promises (mkPlan (_func_or_task_type p) (_subjects p)
                            ((λ kv, (kv.1, map_strings g kv.2)) <$> _inputs p))
          = PlanM.promises p) ∧
    (∀ products_by_promise,
       PlanBinding.bind_products products_by_promise (VStr s) = Ok (VStr s)) ∧
    (∀ products_by_promise b,
       PlanBinding.bind products_by_promise p = Ok b →
       ∃ v', dict_get name (kwargs b) = Some v' ∧ value_at path v' = Some (VStr s)).
Proof.
  intros p name v path s Hnodup Hget Hat.
  split; [done|]. split; [done|].
  split; [intros fuel; apply iter_promises_by_tests_total|].
  split; [intros g; apply promises_map_strings|].
  split; [done|].
  intros pbp b Hbind. unfold PlanBinding.bind in Hbind.
  destruct (PlanBinding.bind_inputs pbp (_inputs p) []) as [res|e] eqn:Hres; [|done].
  injection Hbind as <-. cbn [kwargs].
  destruct (bind_inputs_entry pbp _ _ _ _ _ Hnodup Hres Hget) as (v' & Hget' & Hv').
  exists v'. split; [done|]. by eapply bind_products_value_at.
Qed.

Lemma strings_are_leaves_witness :
  NoDup ((λ kv, kv.1) <$> _inputs javac_plan) ∧
  dict_get "sources" (_inputs javac_plan) = Some (VSeq [VStr "A.java"; VPromise gen_promise]) ∧
  value_at [Index 0] (VSeq [VStr "A.java"; VPromise gen_promise]) = Some (VStr "A.java") ∧
  (∀ fuel, iter_promises_by_tests (S fuel) (VStr "A.java") = Some []) ∧
  (∀ products_by_promise b,
     PlanBinding.bind products_by_promise javac_plan = Ok b →
     ∃ v', dict_get "sources" (kwargs b) = Some v' ∧
           value_at [Index 0] v' = Some (VStr "A.java")).
Proof.
  assert (H1 : NoDup ((λ kv, kv.1) <$> _inputs javac_plan))
    by (apply (bool_decide_unpack _); vm_compute; exact I).
  assert (H2 : dict_get "sources" (_inputs javac_plan)
               = Some (VSeq [VStr "A.java"; VPromise gen_promise])) by reflexivity.
  assert (H3 : value_at [Index 0] (VSeq [VStr "A.java"; VPromise gen_promise])
               = Some (VStr "A.java")) by reflexivity.
  split; [exact H1|]. split; [exact H2|]. split; [exact H3|].
  pose proof (strings_are_leaves javac_plan "sources" _ [Index 0] "A.java" H1 H2 H3) as H.
  split; [exact (proj1 (proj2 H))|exact (proj2 (proj2 (proj2 (proj2 (proj2 H)))))].
Defined.

(** ** The requirement solver *)

Section solver_steps.

Variables (apply_product_requirements : pytype → list pytype → solver bool)
          (verdict : pytype → option bool)
          (input_products : list pytype).

Hypothesis apply_verdict : ∀ r acc,
  (λ res, res.1) <$> apply_product_requirements r input_products acc = verdict r.

Lemma solver_map_verdict (l : list pytype) (acc : accumulators) :
  (λ res, res.1) <$>
    solver_map (λ r, apply_product_requirements r input_products) l acc = mapM verdict l.
Proof.
  revert acc. induction l as [|r l IH]; intros acc; [done|].
  cbn [solver_map mapM]. unfold solver_bind at 1.
  rewrite <- (apply_verdict r acc).
  destruct (apply_product_requirements r input_products acc) as [[b acc']|]; [|done].
  simpl. unfold solver_bind at 1. rewrite <- (IH acc').
  by destruct (solver_map _ l acc') as [[bs acc'']|].
Qed.

Lemma clauses_verdict_sound (planner : TaskPlanner) (ored_clauses : DNF) (acc : accumulators) :
  (λ res, res.1) <$>
    _apply_product_requirement_clauses apply_product_requirements input_products planner
      ored_clauses acc = clauses_verdict verdict ored_clauses.
Proof.
  revert acc. induction ored_clauses as [|clause rest IH]; intros acc; [done|].
  cbn [_apply_product_requirement_clauses clauses_verdict]. unfold solver_bind at 1.
  rewrite <- (solver_map_verdict clause acc).
  destruct (solver_map _ clause acc) as [[matched acc']|]; [|done].
  simpl. destruct (_ =? _); [done|].
  destruct (0 <? _); [|apply IH].
  unfold solver_bind. apply IH.
Qed.

Lemma any_planner_verdict (registered : list (TaskPlanner * DNF)) (matched : bool)
    (acc : accumulators) :
  (λ res, res.1) <$>
    any_planner apply_product_requirements input_products registered matched acc
  = planners_verdict verdict registered matched.
Proof.
  revert matched acc. induction registered as [|[planner clauses] rest IH]; intros matched acc;
    [done|].
  cbn [any_planner planners_verdict]. unfold solver_bind at 1.
  rewrite <- (clauses_verdict_sound planner clauses acc).
  destruct (_apply_product_requirement_clauses _ _ _ clauses acc) as [[m acc']|]; [|done].
  simpl. apply IH.
Qed.

End solver_steps.

Lemma solver_verdict (fuel : nat) (self : Planners) (o : pytype) (input_products : list pytype)
    (acc : accumulators) :
  (λ res, res.1) <$> _apply_product_requirements fuel self o input_products acc
  = producible fuel self input_products o.
Proof.
  revert o acc. induction fuel as [|fuel IH]; intros o acc; [done|].
  cbn [_apply_product_requirements producible].
  case_bool_decide; [done|]. case_bool_decide; [done|].
  apply any_planner_verdict. intros r acc'. apply IH.
Qed.

Section solver_returns.

Variables (apply_product_requirements : pytype → list pytype → solver bool)
          (input_products : list pytype).

Lemma solver_map_returns (l : list pytype) :
  Forall (returns apply_product_requirements input_products) l →
  ∀ acc, is_Some (solver_map (λ r, apply_product_requirements r input_products) l acc).
Proof.
  induction 1 as [|r l Hr _ IH]; intros acc; [by eexists|].
  cbn [solver_map]. unfold solver_bind at 1.
  destruct (Hr acc) as [[b acc'] ->]. unfold solver_bind at 1.
  destruct (IH acc') as [[bs acc''] ->]. by eexists.
Qed.

Lemma clauses_return (planner : TaskPlanner) (ored_clauses : DNF) :
  Forall (Forall (returns apply_product_requirements input_products)) ored_clauses →
  ∀ acc, is_Some (_apply_product_requirement_clauses apply_product_requirements
                    input_products planner ored_clauses acc).
Proof.
  induction 1 as [|clause rest Hclause _ IH]; intros acc; [by eexists|].
  cbn [_apply_product_requirement_clauses]. unfold solver_bind at 1.
  destruct (solver_map_returns clause Hclause acc) as [[matched acc'] ->].
  destruct (_ =? _); [by eexists|].
  destruct (0 <? _); [|apply IH].
  unfold solver_bind. apply IH.
Qed.

Lemma any_planner_returns (registered : list (TaskPlanner * DNF)) :
  Forall (λ entry, Forall (Forall (returns apply_product_requirements input_products)) entry.2) registered →
  ∀ matched acc, is_Some (any_planner apply_product_requirements input_products registered
                            matched acc).
Proof.
  induction 1 as [|[planner clauses] rest Hclauses _ IH]; intros matched acc; [by eexists|].
  cbn [any_planner]. unfold solver_bind at 1.
  destruct (clauses_return planner clauses Hclauses acc) as [[m acc'] ->]. apply IH.
Qed.

End solver_returns.

Lemma ranked_solver_returns (self : Planners) (input_products : list pytype)
    (rank : pytype → nat) :
  ranked self input_products rank →
  ∀ fuel o, rank o < fuel →
    returns (_apply_product_requirements fuel self) input_products o.
Proof.
  intros Hranked. induction fuel as [|fuel IH]; intros o Ho acc; [lia|].
  cbn [_apply_product_requirements].
  case_bool_decide as Hin; [by eexists|]. case_bool_decide as Hout; [by eexists|].
  apply any_planner_returns.
  apply Forall_forall. intros [planner clauses] Hreg.
  apply Forall_forall. intros clause Hclause.
  apply Forall_forall. intros r Hr. apply IH.
  assert (rank r < rank o); [|lia].
  apply Hranked. split; [done|]. split; [done|].
  by exists planner, clauses, clause.
Qed.

Lemma mutual_requirements :
  PlannersM.requirements mutual_planners "Classes"
    = [(declares 1 "compile" [("Classes", [["Stubs"]])], [["Stubs"]])] ∧
  PlannersM.requirements mutual_planners "Stubs"
    = [(declares 2 "gen" [("Stubs", [["Classes"]])], [["Classes"]])] ∧
  _output_products mutual_planners = ["Classes"; "Stubs"].
Proof. by vm_compute. Qed.

Lemma mutual_planners_never_return (fuel : nat) :
  ∀ acc, _apply_product_requirements fuel mutual_planners "Classes" [] acc = None ∧
         _apply_product_requirements fuel mutual_planners "Stubs" [] acc = None.
Proof.
  destruct mutual_requirements as (Hc & Hs & Hout).
  induction fuel as [|fuel IH]; intros acc; [done|].
  cbn [_apply_product_requirements]. rewrite Hc, Hs, Hout.
  rewrite !(bool_decide_eq_false_2 (_ ∈ [])) by apply not_elem_of_nil.
  rewrite !bool_decide_eq_false_2 by (intros H; apply H; repeat constructor).
  cbn [any_planner _apply_product_requirement_clauses solver_map]. unfold solver_bind.
  destruct (IH acc) as [-> ->]. done.
Qed.

Lemma rankedb_ranked (self : Planners) (input_products : list pytype) (rank : pytype → nat) :
  rankedb self input_products rank = true → ranked self input_products rank.
Proof.
  unfold rankedb. rewrite forallb_forall.
  intros Hall o r (Hin & Hout & planner & clauses & clause & Hreg & Hclause & Hr).
  apply list_elem_of_In in Hout. specialize (Hall o Hout).
  apply orb_true_iff in Hall as [Hnat|Hall].
  { by apply bool_decide_eq_true in Hnat. }
  rewrite forallb_forall in Hall. apply list_elem_of_In in Hreg.
  specialize (Hall _ Hreg). rewrite forallb_forall in Hall.
  apply list_elem_of_In in Hclause. specialize (Hall _ Hclause).
  rewrite forallb_forall in Hall. apply list_elem_of_In in Hr.
  by apply Nat.ltb_lt, Hall.
Qed.

Section solver_fuel.

Variables (apply_less apply_more : pytype → list pytype → solver bool)
          (input_products : list pytype).

Hypothesis more_fuel : ∀ r acc res,
  apply_less r input_products acc = Some res → apply_more r input_products acc = Some res.

Lemma solver_map_more (l : list pytype) (acc : accumulators) res :
  solver_map (λ r, apply_less r input_products) l acc = Some res →
  solver_map (λ r, apply_more r input_products) l acc = Some res.
Proof.
  revert acc res. induction l as [|r l IH]; intros acc res; [done|].
  cbn [solver_map]. unfold solver_bind at 1 3.
  destruct (apply_less r input_products acc) as [[b acc']|] eqn:Hr; [|done].
  rewrite (more_fuel _ _ _ Hr). unfold solver_bind at 1 2.
  destruct (solver_map _ l acc') as [[bs acc'']|] eqn:Hl; [|done].
  by rewrite (IH _ _ Hl).
Qed.

Lemma clauses_more (planner : TaskPlanner) (ored_clauses : DNF) (acc : accumulators) res :
  _apply_product_requirement_clauses apply_less input_products planner ored_clauses acc
    = Some res →
  _apply_product_requirement_clauses apply_more input_products planner ored_clauses acc
    = Some res.
Proof.
  revert acc res. induction ored_clauses as [|clause rest IH]; intros acc res; [done|].
  cbn [_apply_product_requirement_clauses]. unfold solver_bind at 1 3.
  destruct (solver_map _ clause acc) as [[matched acc']|] eqn:Hm; [|done].
  rewrite (solver_map_more _ _ _ Hm).
  destruct (_ =? _); [done|].
  destruct (0 <? _); [|apply IH].
  unfold solver_bind. apply IH.
Qed.

Lemma any_planner_more (registered : list (TaskPlanner * DNF)) (matched : bool)
    (acc : accumulators) res :
  any_planner apply_less input_products registered matched acc = Some res →
  any_planner apply_more input_products registered matched acc = Some res.
Proof.
  revert matched acc res.
  induction registered as [|[planner clauses] rest IH]; intros matched acc res; [done|].
  cbn [any_planner]. unfold solver_bind at 1 2.
  destruct (_apply_product_requirement_clauses apply_less _ _ clauses acc) as [[m acc']|] eqn:Hc;
    [|done].
  rewrite (clauses_more _ _ _ _ Hc). apply IH.
Qed.

End solver_fuel.

Lemma solver_more_fuel (self : Planners) (input_products : list pytype) (fuel fuel' : nat) :
  fuel ≤ fuel' →
  ∀ o acc res,
    _apply_product_requirements fuel self o input_products acc = Some res →
    _apply_product_requirements fuel' self o input_products acc = Some res.
Proof.
  revert fuel'. induction fuel as [|fuel IH]; intros fuel' Hle o acc res; [done|].
  destruct fuel' as [|fuel']; [lia|].
  cbn [_apply_product_requirements].
  case_bool_decide; [done|]. case_bool_decide; [done|].
  apply any_planner_more. intros r acc' res'. apply IH. lia.
Qed.

(** C2, counterexample.  On two planners whose requirements refer to each
    other, and a subject without native products, the producibility check
    does not return, whatever the fuel. *)
Lemma solver_loops_on_mutual_requirements :
  ¬ ∃ fuel acc res,
      _apply_product_requirements fuel mutual_planners "Classes" [] acc = Some res.
Proof.
  intros (fuel & acc & res & Hres).
  destruct (mutual_planners_never_return fuel acc) as [Hnone _]. congruence.
Qed.

(** C2, amended.  The producibility check returns on every registry and
    every list of native products for which requirements go down along a
    rank: the result does not depend on the fuel once it exceeds the rank of
    the product type asked for. *)
Theorem solver_returns_when_ranked :
  ∀ (self : Planners) (input_products : list pytype) (rank : pytype → nat),
    ranked self input_products rank →
    ∀ (o : pytype) (acc : accumulators),
      ∃ (verdict : bool) (acc' : accumulators),
        ∀ fuel, rank o < fuel →
          _apply_product_requirements fuel self o input_products acc = Some (verdict, acc').
Proof.
  intros self input_products rank Hranked o acc.
  destruct (ranked_solver_returns self input_products rank Hranked (S (rank o)) o
              (Nat.lt_succ_diag_r _) acc) as [[verdict acc'] Hres].
  exists verdict, acc'. intros fuel Hfuel.
  eapply solver_more_fuel; [|exact Hres]. lia.
Qed.

Lemma solver_returns_when_ranked_witness :
  ranked classes_planners ["PrecompiledClasses"]
    (λ o, if String.eqb o "Classes" then 1 else 0) ∧
  ∃ (verdict : bool) (acc' : accumulators),
    ∀ fuel, 1 < fuel →
      _apply_product_requirements fuel classes_planners "Classes" ["PrecompiledClasses"]
        (mkAcc ∅ ∅) = Some (verdict, acc').
Proof.
  assert (Hr : ranked classes_planners ["PrecompiledClasses"]
                 (λ o, if String.eqb o "Classes" then 1 else 0))
    by (apply rankedb_ranked; vm_compute; reflexivity).
  split; [exact Hr|].
  exact (solver_returns_when_ranked classes_planners ["PrecompiledClasses"]
           (λ o, if String.eqb o "Classes" then 1 else 0) Hr "Classes" (mkAcc ∅ ∅)).
Defined.

(** ** Producibility and native products *)

Lemma all_matched (matched : list bool) :
  length (filter (λ m, m = true) matched) = length matched ↔ Forall (λ m, m = true) matched.
Proof.
  induction matched as [|m matched IH]; [by split|].
  rewrite filter_cons. pose proof (length_filter (λ m, m = true) matched) as Hle.
  destruct (decide (m = true)) as [->|Hm]; simpl.
  - rewrite Forall_cons. split.
    + intros [= Heq]. split; [done|]. by apply IH.
    + intros [_ Hall]. f_equal. by apply IH.
  - split; [lia|]. intros Hall. by apply Forall_cons in Hall as [? _].
Qed.

Section verdict_grows.

Variables verdict verdict' : pytype → option bool.

Hypothesis grows : ∀ r b, verdict r = Some b → ∃ b', verdict' r = Some b' ∧ below b b'.

Lemma mapM_grows (l : list pytype) (bs : list bool) :
  mapM verdict l = Some bs →
  ∃ bs', mapM verdict' l = Some bs' ∧ Forall2 below bs bs'.
Proof.
  revert bs. induction l as [|r l IH]; intros bs Hbs.
  - injection Hbs as <-. by exists [].
  - cbn [mapM] in Hbs |- *.
    destruct (verdict r) as [b|] eqn:Hr; [|done]. simpl in Hbs.
    destruct (mapM verdict l) as [bs0|] eqn:Hl; [|done]. injection Hbs as <-.
    destruct (grows _ _ Hr) as (b' & -> & Hb).
    destruct (IH _ eq_refl) as (bs' & -> & Hall).
    exists (b' :: bs'). split; [done|]. by constructor.
Qed.

Lemma clauses_verdict_grows (ored_clauses : DNF) (b : bool) :
  clauses_verdict verdict ored_clauses = Some b →
  ∃ b', clauses_verdict verdict' ored_clauses = Some b' ∧ below b b'.
Proof.
  revert b. induction ored_clauses as [|clause rest IH]; intros b Hb.
  - injection Hb as <-. by exists false.
  - cbn [clauses_verdict] in Hb |- *.
    destruct (mapM verdict clause) as [bs|] eqn:Hbs; [|done]. simpl in Hb.
    destruct (mapM_grows _ _ Hbs) as (bs' & Hbs' & Hall). rewrite Hbs'. simpl.
    apply length_mapM in Hbs, Hbs'.
    destruct (length (filter _ bs') =? length clause) eqn:Hall'.
    { exists true. by split. }
    destruct (length (filter _ bs) =? length clause) eqn:Hall0; [|by apply IH].
    exfalso. apply Nat.eqb_neq in Hall'. apply Hall'.
    apply Nat.eqb_eq in Hall0. rewrite Hbs in Hall0. apply all_matched in Hall0.
    rewrite Hbs'. apply all_matched.
    clear -Hall Hall0. induction Hall as [|b0 b0' bs bs' Hb _ IHall]; [done|].
    apply Forall_cons in Hall0 as [Hb0 Hall0]. constructor; [by apply Hb|by apply IHall].
Qed.

Lemma planners_verdict_grows (registered : list (TaskPlanner * DNF)) (matched matched' b : bool) :
  below matched matched' →
  planners_verdict verdict registered matched = Some b →
  ∃ b', planners_verdict verdict' registered matched' = Some b' ∧ below b b'.
Proof.
  revert matched matched' b.
  induction registered as [|[planner clauses] rest IH]; intros matched matched' b Hm Hb.
  - injection Hb as <-. by exists matched'.
  - cbn [planners_verdict] in Hb |- *.
    destruct (clauses_verdict verdict clauses) as [m|] eqn:Hc; [|done]. simpl in Hb.
    destruct (clauses_verdict_grows _ _ Hc) as (m' & -> & Hmm). simpl.
    eapply IH; [|exact Hb]. unfold below in *.
    intros [?|?]%orb_true_iff; apply orb_true_iff; auto.
Qed.

End verdict_grows.

Lemma producible_grows (self : Planners) (input_products input_products' : list pytype)
    (fuel : nat) :
  input_products ⊆ input_products' →
  ∀ o b, producible fuel self input_products o = Some b →
         ∃ b', producible fuel self input_products' o = Some b' ∧ below b b'.
Proof.
  intros Hsub. induction fuel as [|fuel IH]; intros o b Hb; [done|].
  cbn [producible] in Hb |- *.
  destruct (bool_decide (o ∈ input_products')) eqn:Hin'.
  { exists true. by split. }
  rewrite bool_decide_eq_false_2 in Hb.
  2:{ intros Hin. apply bool_decide_eq_false in Hin'. by apply Hin', Hsub. }
  destruct (bool_decide (o ∉ _output_products self)).
  { injection Hb as <-. by exists false. }
  eapply planners_verdict_grows; [exact IH|by unfold below|exact Hb].
Qed.

Lemma producible_outputs_verdicts (fuel : nat) (self : Planners) (input_products : list pytype)
    (outs : list pytype) (acc : accumulators) :
  (λ res, res.1) <$> producible_outputs fuel self input_products outs acc
  = (λ verdicts, (λ ov, ov.1) <$> filter (λ ov, ov.2 = true) (zip outs verdicts)) <$>
      mapM (producible fuel self input_products) outs.
Proof.
  revert acc. induction outs as [|o outs IH]; intros acc; [done|].
  cbn [producible_outputs mapM]. unfold solver_bind at 1.
  rewrite <- (solver_verdict fuel self o input_products acc).
  destruct (_apply_product_requirements fuel self o input_products acc) as [[b acc']|]; [|done].
  simpl. unfold solver_bind at 1. specialize (IH acc').
  destruct (producible_outputs fuel self input_products outs acc') as [[l acc'']|];
    destruct (mapM _ outs) as [verdicts|]; try done.
  simpl in IH |- *. injection IH as ->. rewrite filter_cons. simpl.
  by destruct b.
Qed.

Lemma producible_filter_sublist (outs : list pytype) (bs bs' : list bool) :
  Forall2 below bs bs' →
  ((λ ov : pytype * bool, ov.1) <$> filter (λ ov, ov.2 = true) (zip outs bs))
    `sublist_of`
  ((λ ov : pytype * bool, ov.1) <$> filter (λ ov, ov.2 = true) (zip outs bs')).
Proof.
  intros Hall. revert outs. induction Hall as [|b b' bs bs' Hb _ IH]; intros outs.
  - by destruct outs.
  - destruct outs as [|o outs]; [done|]. cbn [zip zip_with]. rewrite !filter_cons. simpl.
    destruct b; simpl.
    + rewrite (Hb eq_refl). simpl. by apply sublist_skip.
    + destruct b'; simpl; [by apply sublist_cons|apply IH].
Qed.

(** C7. Producibility is monotone in the native products.  With more native
    products, an output type the solver judges producible is still judged
    producible, whatever the accumulators; and over a list of candidate
    outputs the solver comes back again and keeps every output type it kept
    before, in order. *)
Theorem producibility_monotone :
  ∀ (self : Planners) (input_products input_products' : list pytype) (fuel : nat),
    input_products ⊆ input_products' →
    (∀ o acc acc1,
       _apply_product_requirements fuel self o input_products acc = Some (true, acc1) →
       ∀ acc', ∃ acc1',
         _apply_product_requirements fuel self o input_products' acc' = Some (true, acc1')) ∧
    (∀ output_product_types producible_output_types acc,
       producible_outputs fuel self input_products output_product_types (mkAcc ∅ ∅)
         = Some (producible_output_types, acc) →
       ∃ producible_output_types' acc',
         producible_outputs fuel self input_products' output_product_types (mkAcc ∅ ∅)
           = Some (producible_output_types', acc') ∧
         producible_output_types `sublist_of` producible_output_types').
Proof.
  intros self input_products input_products' fuel Hsub. split.
  - intros o acc acc1 Hres acc'.
    pose proof (solver_verdict fuel self o input_products acc) as Hv.
    rewrite Hres in Hv. simpl in Hv. symmetry in Hv.
    destruct (producible_grows self _ _ fuel Hsub o true Hv) as (b' & Hv' & Hb).
    rewrite (Hb eq_refl) in Hv'.
    pose proof (solver_verdict fuel self o input_products' acc') as Hv''.
    rewrite Hv' in Hv''.
    destruct (_apply_product_requirements fuel self o input_products' acc') as [[b acc1']|];
      [|done].
    injection Hv'' as ->. by exists acc1'.
  - intros outs l acc Hres.
    pose proof (producible_outputs_verdicts fuel self input_products outs (mkAcc ∅ ∅)) as Hv.
    rewrite Hres in Hv. simpl in Hv.
    destruct (mapM (producible fuel self input_products) outs) as [bs|] eqn:Hbs; [|done].
    injection Hv as ->.
    destruct (mapM_grows _ _ (producible_grows self _ _ fuel Hsub) _ _ Hbs)
      as (bs' & Hbs' & Hall).
    pose proof (producible_outputs_verdicts fuel self input_products' outs (mkAcc ∅ ∅)) as Hv'.
    rewrite Hbs' in Hv'.
    destruct (producible_outputs fuel self input_products' outs (mkAcc ∅ ∅)) as [[l' acc']|];
      [|done].
    injection Hv' as ->. do 2 eexists. split; [done|].
    by apply producible_filter_sublist.
Qed.

Lemma producibility_monotone_witness :
  ["PrecompiledClasses"] ⊆ ["PrecompiledClasses"; "Sources"] ∧
  ∃ producible_output_types' acc',
    producible_outputs 2 classes_planners ["PrecompiledClasses"; "Sources"] ["Classes"]
      (mkAcc ∅ ∅) = Some (producible_output_types', acc') ∧
    ["Classes"] `sublist_of` producible_output_types'.
Proof.
  assert (Hsub : ["PrecompiledClasses"] ⊆ ["PrecompiledClasses"; "Sources"])
    by (intros x Hx; apply elem_of_cons; left; by apply list_elem_of_singleton in Hx).
  assert (Hrun : ∃ acc, producible_outputs 2 classes_planners ["PrecompiledClasses"] ["Classes"]
                          (mkAcc ∅ ∅) = Some (["Classes"], acc))
    by (eexists; vm_compute; reflexivity).
  destruct Hrun as [acc Hrun].
  split; [exact Hsub|].
  exact (proj2 (producibility_monotone classes_planners _ _ 2 Hsub) _ _ _ Hrun).
Defined.

(** The verdicts are monotone, not the outcome of
    [produced_types_for_subject]: the added native product may be consumed
    only in part, and the call then raises instead of returning the list. *)
Remark produced_types_may_raise_with_more_products :
  produced_types_for_subject (λ _, ["PrecompiledClasses"]) 2 classes_planners java_library
    ["Classes"] = Some (Ok ["Classes"]) ∧
  produced_types_for_subject (λ _, ["PrecompiledClasses"; "Sources"]) 2 classes_planners
    java_library ["Classes"]
  = Some (Raise (PartiallyConsumedInputsError "Classes" java_library
                   {[ "Sources" := {[ 1 := {[ "Flags" ]} ]} ]})).
Proof. split; vm_compute; reflexivity. Qed.

(** ** Partially consumed inputs *)

Lemma update_partial_inv (planner : nat) (unconsumed : gset pytype) (consumed : list pytype)
    (candidates : partials) (c : pytype) (by_planner : gmap nat (gset pytype)) (pl : nat)
    (missing : gset pytype) (u : pytype) :
  fold_left (update_partial planner unconsumed) consumed candidates !! c = Some by_planner →
  by_planner !! pl = Some missing →
  u ∈ missing →
  (∃ by_planner0 missing0,
     candidates !! c = Some by_planner0 ∧ by_planner0 !! pl = Some missing0 ∧ u ∈ missing0) ∨
  (c ∈ consumed ∧ pl = planner ∧ u ∈ unconsumed).
Proof.
  revert candidates by_planner missing.
  induction consumed as [|c0 consumed IH]; intros candidates by_planner missing Hc Hpl Hu.
  { left. eauto. }
  cbn [fold_left] in Hc.
  destruct (IH _ _ _ Hc Hpl Hu) as [(bp0 & m0 & Hc0 & Hpl0 & Hu0)|(Hin & -> & Hu')].
  - unfold update_partial in Hc0.
    destruct (decide (c0 = c)) as [->|Hne].
    + rewrite lookup_insert_eq in Hc0. injection Hc0 as <-.
      destruct (decide (planner = pl)) as [->|Hnepl].
      * rewrite lookup_insert_eq in Hpl0. injection Hpl0 as <-.
        apply elem_of_union in Hu0 as [Hold|Hnew].
        -- left. destruct (candidates !! c) as [bp|] eqn:Hbp; simpl in Hold.
           ++ destruct (bp !! pl) as [m|] eqn:Hm; simpl in Hold; [eauto 6|].
              by apply not_elem_of_empty in Hold.
           ++ rewrite lookup_empty in Hold. simpl in Hold.
              by apply not_elem_of_empty in Hold.
        -- right. split; [apply elem_of_cons; by left|done].
      * rewrite lookup_insert_ne in Hpl0 by done. left.
        destruct (candidates !! c) as [bp|] eqn:Hbp; simpl in Hpl0; [eauto 6|].
        by rewrite lookup_empty in Hpl0.
    + rewrite lookup_insert_ne in Hc0 by done. left. eauto 6.
  - right. split; [apply elem_of_cons; by right|done].
Qed.

Lemma requirements_where_spec (flag : bool) (clause : list pytype) (matched : list bool)
    (r : pytype) :
  r ∈ requirements_where flag clause matched → (r, flag) ∈ zip clause matched.
Proof.
  unfold requirements_where. intros ([r' m] & -> & Hin)%list_elem_of_fmap.
  apply list_elem_of_filter in Hin as [Hflag Hin]. simpl in *. by subst.
Qed.

Lemma zip_elem_Forall2 {A B} (P : A → B → Prop) (l : list A) (k : list B) (x : A) (y : B) :
  Forall2 P l k → (x, y) ∈ zip l k → x ∈ l ∧ P x y.
Proof.
  induction 1 as [|a b l k Hab _ IH]; intros Hin; [by apply elem_of_nil in Hin|].
  cbn [zip zip_with] in Hin. apply elem_of_cons in Hin as [[= -> ->]|Hin].
  - split; [apply elem_of_cons; by left|done].
  - destruct (IH Hin) as [? ?]. split; [apply elem_of_cons; by right|done].
Qed.

Lemma producible_more_fuel (self : Planners) (input_products : list pytype) (fuel fuel' : nat)
    (o : pytype) (b : bool) :
  fuel ≤ fuel' →
  producible fuel self input_products o = Some b →
  producible fuel' self input_products o = Some b.
Proof.
  intros Hle Hb. rewrite <- (solver_verdict fuel self o input_products (mkAcc ∅ ∅)) in Hb.
  destruct (_apply_product_requirements fuel self o input_products (mkAcc ∅ ∅))
    as [[b0 acc']|] eqn:Hres; [|done].
  injection Hb as ->.
  rewrite <- (solver_verdict fuel' self o input_products (mkAcc ∅ ∅)).
  by rewrite (solver_more_fuel self input_products fuel fuel' Hle _ _ _ Hres).
Qed.

Section solver_justified.

Variables (fuel : nat) (self : Planners) (input_products : list pytype)
          (apply_product_requirements : pytype → list pytype → solver bool).

Local Abbreviation justified := (partials_justified fuel self input_products).

Hypothesis apply_producible : ∀ r acc b acc',
  apply_product_requirements r input_products acc = Some (b, acc') →
  producible fuel self input_products r = Some b.

Hypothesis apply_justified : ∀ r acc b acc',
  apply_product_requirements r input_products acc = Some (b, acc') →
  justified (partially_consumed_candidates acc) →
  justified (partially_consumed_candidates acc').

Lemma solver_map_justified (l : list pytype) (acc acc' : accumulators) (matched : list bool) :
  solver_map (λ r, apply_product_requirements r input_products) l acc = Some (matched, acc') →
  Forall2 (λ r m, producible fuel self input_products r = Some m) l matched ∧
  (justified (partially_consumed_candidates acc) →
   justified (partially_consumed_candidates acc')).
Proof.
  revert acc acc' matched. induction l as [|r l IH]; intros acc acc' matched Hres.
  - injection Hres as <- <-. by split.
  - cbn [solver_map] in Hres. unfold solver_bind at 1 in Hres.
    destruct (apply_product_requirements r input_products acc) as [[b acc1]|] eqn:Hr; [|done].
    unfold solver_bind at 1 in Hres.
    destruct (solver_map _ l acc1) as [[bs acc2]|] eqn:Hl; [|done].
    injection Hres as <- <-. destruct (IH _ _ _ Hl) as [Hall Hj]. split.
    + constructor; [by eapply apply_producible|done].
    + intros Hacc. by eapply Hj, apply_justified.
Qed.

Lemma clauses_justified (planner : TaskPlanner) (ored_clauses : DNF)
    (acc acc' : accumulators) (b : bool) :
  (∀ clause, clause ∈ ored_clauses → registered_clause self planner clause) →
  _apply_product_requirement_clauses apply_product_requirements input_products planner
    ored_clauses acc = Some (b, acc') →
  justified (partially_consumed_candidates acc) →
  justified (partially_consumed_candidates acc').
Proof.
  revert acc acc' b. induction ored_clauses as [|clause rest IH]; intros acc acc' b Hreg Hres Hacc.
  { by injection Hres as <- <-. }
  cbn [_apply_product_requirement_clauses] in Hres. unfold solver_bind at 1 in Hres.
  destruct (solver_map _ clause acc) as [[matched acc1]|] eqn:Hm; [|done].
  destruct (solver_map_justified _ _ _ _ Hm) as [Hall Hj]. specialize (Hj Hacc).
  assert (Hrest : ∀ c, c ∈ rest → registered_clause self planner c)
    by (intros c Hc; apply Hreg, elem_of_cons; by right).
  destruct (_ =? _).
  { injection Hres as <- <-. done. }
  destruct (0 <? _); [|by eapply IH].
  unfold solver_bind in Hres. eapply IH; [done|exact Hres|]. cbn [partially_consumed_candidates].
  intros c by_planner pl missing u Hc Hpl Hu.
  destruct (update_partial_inv _ _ _ _ _ _ _ _ _ Hc Hpl Hu)
    as [(bp0 & m0 & Hc0 & Hpl0 & Hu0)|(Hcin & -> & Hu')].
  { by eapply Hj. }
  apply elem_of_list_to_set in Hu'.
  apply requirements_where_spec in Hcin, Hu'.
  destruct (zip_elem_Forall2 _ _ _ _ _ Hall Hcin) as [Hc_in Hc_true].
  destruct (zip_elem_Forall2 _ _ _ _ _ Hall Hu') as [Hu_in Hu_false].
  destruct (Hreg clause) as (o & registered & cls & Hreq & Hid & Hcl);
    [apply elem_of_cons; by left|].
  by exists o, registered, cls, clause.
Qed.

Lemma any_planner_justified (registered : list (TaskPlanner * DNF)) (matched : bool)
    (acc acc' : accumulators) (b : bool) :
  (∀ planner clauses clause,
     (planner, clauses) ∈ registered → clause ∈ clauses → registered_clause self planner clause) →
  any_planner apply_product_requirements input_products registered matched acc
    = Some (b, acc') →
  justified (partially_consumed_candidates acc) →
  justified (partially_consumed_candidates acc').
Proof.
  revert matched acc acc' b.
  induction registered as [|[planner clauses] rest IH]; intros matched acc acc' b Hreg Hres Hacc.
  { by injection Hres as <- <-. }
  cbn [any_planner] in Hres. unfold solver_bind at 1 in Hres.
  destruct (_apply_product_requirement_clauses _ _ _ clauses acc) as [[m acc1]|] eqn:Hc; [|done].
  eapply IH; [|exact Hres|].
  - intros p cls cl Hp Hcl. eapply Hreg; [apply elem_of_cons; right; exact Hp|done].
  - eapply clauses_justified; [|exact Hc|exact Hacc].
    intros cl Hcl. eapply Hreg; [apply elem_of_cons; by left|done].
Qed.

End solver_justified.

Lemma solver_justified (fuel : nat) (self : Planners) (input_products : list pytype) (f : nat) :
  f ≤ fuel →
  ∀ o acc b acc',
    _apply_product_requirements f self o input_products acc = Some (b, acc') →
    partials_justified fuel self input_products (partially_consumed_candidates acc) →
    partials_justified fuel self input_products (partially_consumed_candidates acc').
Proof.
  induction f as [|f IH]; intros Hle o acc b acc' Hres Hacc; [done|].
  cbn [_apply_product_requirements] in Hres.
  case_bool_decide; [by injection Hres as <- <-|].
  case_bool_decide; [by injection Hres as <- <-|].
  eapply (any_planner_justified fuel self input_products
            (_apply_product_requirements f self)); [| | |exact Hres|exact Hacc].
  - intros r acc0 b0 acc0' Hr.
    apply (producible_more_fuel self input_products f fuel); [lia|].
    rewrite <- (solver_verdict f self r input_products acc0). by rewrite Hr.
  - intros r acc0 b0 acc0' Hr. eapply IH; [lia|exact Hr].
  - intros planner clauses clause Hp Hcl. by exists o, planner, clauses.
Qed.

Lemma producible_outputs_justified (fuel : nat) (self : Planners) (input_products : list pytype)
    (outs l : list pytype) (acc acc' : accumulators) :
  producible_outputs fuel self input_products outs acc = Some (l, acc') →
  partials_justified fuel self input_products (partially_consumed_candidates acc) →
  partials_justified fuel self input_products (partially_consumed_candidates acc').
Proof.
  revert l acc acc'. induction outs as [|o outs IH]; intros l acc acc' Hres Hacc.
  { by injection Hres as <- <-. }
  cbn [producible_outputs] in Hres. unfold solver_bind at 1 in Hres.
  destruct (_apply_product_requirements fuel self o input_products acc) as [[b acc1]|] eqn:Ho;
    [|done].
  unfold solver_bind at 1 in Hres.
  destruct (producible_outputs fuel self input_products outs acc1) as [[l1 acc2]|] eqn:Hl;
    [|done].
  injection Hres as <- <-. eapply IH; [exact Hl|].
  by eapply (solver_justified fuel self input_products fuel).
Qed.

Lemma producible_outputs_return (fuel : nat) (self : Planners) (input_products : list pytype)
    (rank : pytype → nat) (outs : list pytype) :
  ranked self input_products rank →
  Forall (λ o, rank o < fuel) outs →
  ∀ acc, is_Some (producible_outputs fuel self input_products outs acc).
Proof.
  intros Hranked. induction 1 as [|o outs Ho _ IH]; intros acc; [by eexists|].
  cbn [producible_outputs]. unfold solver_bind at 1.
  destruct (ranked_solver_returns self input_products rank Hranked fuel o Ho acc)
    as [[b acc1] ->].
  unfold solver_bind at 1. destruct (IH acc1) as [[l acc2] ->]. by eexists.
Qed.

Lemma kept_outputs (verdict : pytype → option bool) (outs : list pytype) (bs : list bool) :
  Forall2 (λ o b, verdict o = Some b) outs bs →
  (λ ov : pytype * bool, ov.1) <$> filter (λ ov, ov.2 = true) (zip outs bs)
  = filter (λ o, verdict o = Some true) outs.
Proof.
  induction 1 as [|o b outs bs Ho _ IH]; [done|].
  cbn [zip zip_with]. rewrite !filter_cons. simpl. rewrite Ho.
  destruct b; simpl; [f_equal|]; exact IH.
Qed.

(** ** LocalScheduler.promise *)

Lemma lift_native_products_all (product_type : pytype) (subject : obj)
    (native_product_types : list pytype) (plans : list (planner_ref * Plan))
    (st : SchedulerState) :
  lift_native_products product_type subject native_product_types plans st
  = Some (Ok (plans ++ replicate (length (filter (λ n, n = product_type) native_product_types))
                         (NoPlanner, native_plan product_type subject)), st).
Proof.
  revert plans. induction native_product_types as [|n natives IH]; intros plans.
  - simpl. by rewrite app_nil_r.
  - cbn [lift_native_products]. rewrite filter_cons.
    destruct (String.eqb_spec n product_type) as [->|Hne].
    + rewrite decide_True by done. change (lift_native_plan product_type subject)
        with (Some (native_plan product_type subject)).
      cbv iota beta. rewrite IH. cbn [length replicate]. by rewrite <- app_assoc.
    + rewrite decide_False by done. apply IH.
Qed.

Section request_plans.

Variables (Products_for_subject : obj → list pytype) (fuel : nat) (self : LocalScheduler)
          (promise : obj → pytype → option obj → M Promise)
          (product_type : pytype) (subject : obj) (configuration : option obj).

Lemma request_plans_asked (registered : list (TaskPlanner * DNF))
    (candidates : gmap pytype (gmap nat (gset pytype)))
    (plans0 plans : list (planner_ref * Plan)) (st st1 : SchedulerState) :
  request_plans Products_for_subject fuel self promise product_type subject configuration
    registered candidates plans0 st = Some (Ok plans, st1) →
  ∃ selected planned,
    yield_planners fuel (_planners self) (Products_for_subject subject) configuration
      registered candidates = Some selected ∧
    asked promise product_type subject configuration selected st planned st1 ∧
    plans = plans0 ++ planned.
Proof.
  revert candidates plans0 st.
  induction registered as [|[planner clauses] rest IH]; intros candidates plans0 st Hres.
  - injection Hres as <- <-. exists [], []. split; [done|]. split; [constructor|].
    by rewrite app_nil_r.
  - cbn [request_plans yield_planners] in Hres |- *.
    destruct (planner_applies fuel (_planners self) (Products_for_subject subject)
                configuration planner clauses candidates) as [[[|] candidates']|]; [| |done].
    + unfold M_bind in Hres.
      destruct (plan planner promise product_type subject configuration st)
        as [[[planned|e] st']|] eqn:Hplan; [|done|done].
      destruct (IH _ _ _ Hres) as (selected & more & -> & Hasked & ->).
      exists (planner :: selected). destruct planned as [p|].
      * exists ((Registered (planner_id planner), p) :: more).
        split; [done|]. split; [by econstructor|]. by rewrite <- app_assoc.
      * exists more. split; [done|]. split; [by eapply asked_no_plan|done].
    + destruct (IH _ _ _ Hres) as (selected & more & -> & Hasked & ->).
      by exists selected, more.
Qed.

End request_plans.

Section promise.

Variable Products_for_subject : obj → list pytype.

Local Abbreviation promise_with := (promise Products_for_subject).

Lemma promise_slow_path (fuel : nat) (self : LocalScheduler) (subject : obj)
    (product_type : pytype) (configuration : option obj) (st st1 : SchedulerState)
    (plans : list (planner_ref * Plan)) :
  let subject' := match subject with Address spec => _graph self spec | _ => subject end in
  ProductMapper.promised (_product_mapper st)
    (PromiseM.init product_type (inr subject') configuration) = None →
  candidate_plans Products_for_subject fuel self (promise_with fuel self) product_type
    subject' configuration st = Some (Ok plans, st1) →
  promise_with (S fuel) self subject product_type configuration st
  = settle_plans product_type subject' configuration plans st1.
Proof.
  intros subject' Hmiss Hplans. cbn [promise]. fold subject'. rewrite Hmiss.
  unfold M_bind at 1. by rewrite Hplans.
Qed.

Lemma settle_one_plan (product_type : pytype) (subject : obj) (configuration : option obj)
    (planner : planner_ref) (p : Plan) (st : SchedulerState) :
  let registered := ProductMapper.register_promises (_product_mapper st) product_type p
                      (Some subject) configuration in
  settle_plans product_type subject configuration [(planner, p)] st
  = match last (filter (λ s, Some subject = Some (SubjectM.primary s)) (PlanM.subjects p)) with
    | Some s =>
        Some (Ok (PromiseM.init product_type (inl s) configuration),
              mkState registered.2
                (record_plan planner product_type p (_plans_by_product_type_by_planner st)))
    | None =>
        Some (Raise (SchedulingError subject planner p),
              mkState registered.2 (_plans_by_product_type_by_planner st))
    end.
Proof.
  intros registered. unfold settle_plans. cbn [length Nat.ltb Nat.leb].
  pose proof (register_promises_outcome (_product_mapper st) product_type p (Some subject)
                configuration) as Hout.
  fold registered in Hout |- *. destruct registered as [o mapper]. simpl in Hout. subst o.
  by destruct (last _).
Qed.

End promise.

(** C1, counterexample.  The planner selected for [Classes] answers with a
    plan for another subject: the candidate list has exactly one entry, and
    [promise] raises [SchedulingError] instead of returning the primary
    promise. *)
Lemma promise_single_candidate_may_raise :
  candidate_plans sources_for_subject 2 stray_scheduler
    (promise sources_for_subject 2 stray_scheduler) "Classes" java_library None initial_state
  = Some (Ok [(Registered 1, stray_plan)], initial_state) ∧
  promise sources_for_subject 3 stray_scheduler java_library "Classes" None initial_state
  = Some (Raise (SchedulingError java_library (Registered 1) stray_plan),
          mkState {[ ("Classes", thrift_library, None) := stray_plan ]} []).
Proof. split; vm_compute; reflexivity. Qed.

(** C1, amended.  When [promise] is not answered by the fast path and its
    candidate list gets built, the list holds, in order, a pair for each
    planner yielded by [for_product_type_and_subject] whose [plan] returned a
    plan, then one [NoPlanner] pair lifting the native product for each
    occurrence of the product type among the native products of the subject.
    [promise] raises [NoProducersError] exactly when the list is empty and
    [ConflictingProducersError], with the planners of the list, exactly when
    it has two entries or more.  With exactly one entry the plan is
    registered with the subject as primary subject: when a subject of the
    plan has that primary, the plan is recorded for its planner and the
    promise for that subject is returned; otherwise [SchedulingError] is
    raised. *)
Theorem promise_settles_candidates :
  ∀ (Products_for_subject : obj → list pytype) (fuel : nat) (self : LocalScheduler)
    (subject : obj) (product_type : pytype) (configuration : option obj)
    (st st1 : SchedulerState) (plans : list (planner_ref * Plan)),
    let subject' := match subject with Address spec => _graph self spec | _ => subject end in
    let ask := promise Products_for_subject fuel self in
    ProductMapper.promised (_product_mapper st)
      (PromiseM.init product_type (inr subject') configuration) = None →
    candidate_plans Products_for_subject fuel self ask product_type subject' configuration st
      = Some (Ok plans, st1) →
    let result := promise Products_for_subject (S fuel) self subject product_type configuration st in
    let registered p :=
      (ProductMapper.register_promises (_product_mapper st1) product_type p (Some subject')
         configuration).2 in
    (∃ selected planned,
       for_product_type_and_subject Products_for_subject fuel (_planners self) product_type
         subject' configuration = Some selected ∧
       asked ask product_type subject' configuration selected st planned st1 ∧
       plans = planned ++
               replicate (length (filter (λ n, n = product_type) (Products_for_subject subject')))
                 (NoPlanner, native_plan product_type subject')) ∧
    ((∃ st', result = Some (Raise (NoProducersError product_type subject'), st')) ↔ plans = []) ∧
    ((∃ st', result = Some (Raise (ConflictingProducersError product_type subject'
                                     ((λ pp, pp.1) <$> plans)), st')) ↔ 2 ≤ length plans) ∧
    (∀ planner p, plans = [(planner, p)] →
       ((∃ s, s ∈ PlanM.subjects p ∧ SubjectM.primary s = subject') →
        ∃ s, s ∈ PlanM.subjects p ∧ SubjectM.primary s = subject' ∧
             result = Some (Ok (PromiseM.init product_type (inl s) configuration),
                            mkState (registered p)
                              (record_plan planner product_type p
                                 (_plans_by_product_type_by_planner st1)))) ∧
       ((∀ s, s ∈ PlanM.subjects p → SubjectM.primary s ≠ subject') →
        result = Some (Raise (SchedulingError subject' planner p),
                       mkState (registered p) (_plans_by_product_type_by_planner st1)))).
Proof.
  intros Products_for_subject fuel self subject product_type configuration st st1 plans
    subject' ask Hmiss Hplans result registered.
  assert (Hresult : result = settle_plans product_type subject' configuration plans st1)
    by (by apply promise_slow_path).
  split.
  { unfold candidate_plans in Hplans. unfold M_bind in Hplans.
    destruct (request_plans _ _ _ _ _ _ _ _ _ _ st) as [[[planned|e] st0]|] eqn:Hreq;
      [|done|done].
    rewrite lift_native_products_all in Hplans. injection Hplans as <- <-.
    destruct (request_plans_asked _ _ _ _ _ _ _ _ _ _ _ _ _ Hreq)
      as (selected & more & Hsel & Hasked & ->).
    exists selected, more. by split. }
  rewrite Hresult. clear Hresult result Hplans Hmiss.
  destruct plans as [|[planner p] [|second plans]].
  - split; [|split].
    + split; [done|]. intros _. by eexists.
    + split; [by intros [st' [=]]|]. simpl. lia.
    + intros planner p [=].
  - rewrite settle_one_plan. fold (registered p). split; [|split].
    + split; [|done]. intros [st' Hr]. by destruct (last _).
    + split; [|simpl; lia]. intros [st' Hr]. by destruct (last _).
    + intros planner' p' [= <- <-]. split.
      * intros (s & Hs & Hprim).
        destruct (last _) as [s'|] eqn:Hlast.
        -- apply last_filter_elem in Hlast as [Hs' Heq]. exists s'.
           split; [done|]. split; [congruence|done].
        -- exfalso. eapply last_filter_none in Hlast; [|exact Hs].
           apply Hlast. by rewrite Hprim.
      * intros Hnone. destruct (last _) as [s'|] eqn:Hlast; [|done].
        apply last_filter_elem in Hlast as [Hs' Heq]. exfalso.
        eapply Hnone; [exact Hs'|]. congruence.
  - unfold settle_plans. cbn [length Nat.ltb Nat.leb]. split; [|split].
    + split; [by intros [st' [=]]|done].
    + split; [intros _; simpl; lia|]. intros _. by eexists.
    + intros planner' p' [=].
Qed.

Lemma promise_settles_candidates_witness :
  ProductMapper.promised (_product_mapper initial_state)
    (PromiseM.init "Classes" (inr java_library) None) = None ∧
  candidate_plans sources_for_subject 2 javac_scheduler
    (promise sources_for_subject 2 javac_scheduler) "Classes" java_library None initial_state
  = Some (Ok [(Registered 1, javac_classes_plan)], sources_promised) ∧
  ∃ s, s ∈ PlanM.subjects javac_classes_plan ∧ SubjectM.primary s = java_library ∧
       promise sources_for_subject 3 javac_scheduler java_library "Classes" None initial_state
       = Some (Ok (PromiseM.init "Classes" (inl s) None),
               mkState
                 (ProductMapper.register_promises (_product_mapper sources_promised) "Classes"
                    javac_classes_plan (Some java_library) None).2
                 (record_plan (Registered 1) "Classes" javac_classes_plan
                    (_plans_by_product_type_by_planner sources_promised))).
Proof.
  assert (H1 : ProductMapper.promised (_product_mapper initial_state)
                 (PromiseM.init "Classes" (inr java_library) None) = None) by reflexivity.
  assert (H2 : candidate_plans sources_for_subject 2 javac_scheduler
                 (promise sources_for_subject 2 javac_scheduler) "Classes" java_library None
                 initial_state
               = Some (Ok [(Registered 1, javac_classes_plan)], sources_promised))
    by (vm_compute; reflexivity).
  split; [exact H1|]. split; [exact H2|].
  refine (proj1 (proj2 (proj2 (proj2
    (promise_settles_candidates sources_for_subject 2 javac_scheduler java_library "Classes"
       None initial_state sources_promised _ H1 H2))) (Registered 1) javac_classes_plan
    eq_refl) _).
  exists (mkSubject java_library None). split; [|reflexivity].
  apply elem_of_cons. left. reflexivity.
Defined.

(** ** Promising twice *)

Lemma promise_registered (Products_for_subject : obj → list pytype) (fuel : nat)
    (self : LocalScheduler) (subject : obj) (product_type : pytype)
    (configuration : option obj) (st st1 : SchedulerState) (p : Promise) :
  let subject' := match subject with Address spec => _graph self spec | _ => subject end in
  promise Products_for_subject fuel self subject product_type configuration st
    = Some (Ok p, st1) →
  PromiseM._key p = (product_type, subject', configuration) ∧
  is_Some (_product_mapper st1 !! (product_type, subject', configuration)).
Proof.
  intros subject' Hres. destruct fuel as [|fuel]; [done|].
  cbn [promise] in Hres. fold subject' in Hres.
  destruct (ProductMapper.promised (_product_mapper st)
              (PromiseM.init product_type (inr subject') configuration)) as [known|] eqn:Hknown.
  { injection Hres as <- <-. split; [done|]. by exists known. }
  unfold M_bind in Hres.
  destruct (candidate_plans _ _ _ _ _ _ _ st) as [[[plans|e] st0]|]; [|done|done].
  destruct plans as [|[planner pl] [|second plans]]; [done| |done].
  rewrite settle_one_plan in Hres.
  destruct (last _) as [s|] eqn:Hlast; [|done].
  apply last_filter_elem in Hlast as [Hs [= Hprim]].
  injection Hres as <- <-. split.
  - unfold PromiseM._key. simpl. by rewrite Hprim.
  - cbn [_product_mapper]. exists pl. rewrite Hprim.
    exact (register_promises_covered (_product_mapper st0) product_type pl
             (Some (SubjectM.primary s)) configuration s Hs).
Qed.

Lemma promise_fast_path (Products_for_subject : obj → list pytype) (fuel : nat)
    (self : LocalScheduler) (subject : obj) (product_type : pytype)
    (configuration : option obj) (st : SchedulerState) (known : Plan) :
  let subject' := match subject with Address spec => _graph self spec | _ => subject end in
  _product_mapper st !! (product_type, subject', configuration) = Some known →
  promise Products_for_subject (S fuel) self subject product_type configuration st
  = Some (Ok (PromiseM.init product_type (inr subject') configuration), st).
Proof.
  intros subject' Hknown. cbn [promise]. fold subject'.
  change (ProductMapper.promised (_product_mapper st)
            (PromiseM.init product_type (inr subject') configuration))
    with (_product_mapper st !! (product_type, subject', configuration)).
  by rewrite Hknown.
Qed.

Lemma register_promises_keeps (self : gmap promise_key Plan) (product_type : pytype) (p : Plan)
    (primary_subject configuration : option obj) (k : promise_key) :
  is_Some (self !! k) →
  is_Some ((ProductMapper.register_promises self product_type p primary_subject
              configuration).2 !! k).
Proof.
  intros Hk. rewrite register_promises_lookup. by case_bool_decide.
Qed.

(** C4. Promising is idempotent.  After a call of [promise] that returned a
    promise [p], the mapper maps [p] to a plan; and in the state the call
    left, as in every later state whose mapper still maps [p], the same call
    returns a promise equal to [p] and leaves the state as it is, mapper and
    plan index included.  It does so through the fast path: with one unit of
    fuel and whatever planners and native products the scheduler has, so that
    no planner is asked. *)
Theorem promising_is_idempotent :
  ∀ (Products_for_subject : obj → list pytype) (fuel : nat) (self : LocalScheduler)
    (subject : obj) (product_type : pytype) (configuration : option obj)
    (st st1 : SchedulerState) (p : Promise),
    promise Products_for_subject fuel self subject product_type configuration st
      = Some (Ok p, st1) →
    is_Some (ProductMapper.promised (_product_mapper st1) p) ∧
    ∀ (st2 : SchedulerState),
      is_Some (ProductMapper.promised (_product_mapper st2) p) →
      ∀ (Products_for_subject' : obj → list pytype) (planners : Planners) (fuel' : nat),
        ∃ p',
          promise Products_for_subject' (S fuel') (mkLocalScheduler (_graph self) planners)
            subject product_type configuration st2 = Some (Ok p', st2) ∧
          PromiseM.eq p' p = true.
Proof.
  intros Products_for_subject fuel self subject product_type configuration st st1 p Hres.
  destruct (promise_registered _ _ _ _ _ _ _ _ _ Hres) as [Hkey [known Hknown]].
  split.
  { exists known. unfold ProductMapper.promised. by rewrite Hkey. }
  intros st2 [known2 Hknown2] Products_for_subject' planners fuel'.
  unfold ProductMapper.promised in Hknown2. rewrite Hkey in Hknown2.
  eexists. split.
  - apply (promise_fast_path Products_for_subject' fuel'
             (mkLocalScheduler (_graph self) planners) subject product_type configuration
             st2 known2). exact Hknown2.
  - unfold PromiseM.eq. apply bool_decide_eq_true. by rewrite Hkey.
Qed.

Lemma promising_is_idempotent_witness :
  promise sources_for_subject 3 javac_scheduler java_library "Classes" None initial_state
  = Some (Ok (PromiseM.init "Classes" (inr java_library) None),
          mkState
            (ProductMapper.register_promises (_product_mapper sources_promised) "Classes"
               javac_classes_plan (Some java_library) None).2
            (record_plan (Registered 1) "Classes" javac_classes_plan
               (_plans_by_product_type_by_planner sources_promised))) ∧
  is_Some (ProductMapper.promised
             (ProductMapper.register_promises (_product_mapper sources_promised) "Classes"
                javac_classes_plan (Some java_library) None).2
             (PromiseM.init "Classes" (inr java_library) None)).
Proof.
  assert (H : promise sources_for_subject 3 javac_scheduler java_library "Classes" None
                initial_state
              = Some (Ok (PromiseM.init "Classes" (inr java_library) None),
                      mkState
                        (ProductMapper.register_promises (_product_mapper sources_promised)
                           "Classes" javac_classes_plan (Some java_library) None).2
                        (record_plan (Registered 1) "Classes" javac_classes_plan
                           (_plans_by_product_type_by_planner sources_promised))))
    by (vm_compute; reflexivity).
  split; [exact H|].
  exact (proj1 (promising_is_idempotent _ _ _ _ _ _ _ _ _ H)).
Defined.

(** ** Equal plans have the same promises *)

Lemma sorted_insert_perm (kv : string * hkey) (l : list (string * hkey)) :
  sorted_insert kv l ≡ₚ kv :: l.
Proof.
  induction l as [|kv' l IH]; [done|]. simpl.
  destruct (String.leb kv.1 kv'.1); [done|].
  rewrite IH. apply Permutation_swap.
Qed.

Lemma sorted_perm (l : list (string * hkey)) : sorted l ≡ₚ l.
Proof.
  induction l as [|kv l IH]; [done|]. simpl.
  rewrite sorted_insert_perm. by rewrite IH.
Qed.

Lemma flat_map_perm {A B} (f : A → list B) (l k : list A) :
  l ≡ₚ k → flat_map f l ≡ₚ flat_map f k.
Proof.
  induction 1 as [|x l k _ IH|x y l|l k j _ IH1 _ IH2]; simpl.
  - done.
  - by rewrite IH.
  - rewrite !app_assoc. f_equiv. apply Permutation_app_comm.
  - by rewrite IH1.
Qed.

Lemma hashable_promises (v : value) :
  hkey_promises (PlanM.hashable v) ≡ₚ PromiseM._key <$> PlanM.iter_promises v.
Proof.
  induction v as [p|entries IH|elems IH|s|o|t] using value_ind_nested; try reflexivity.
  - cbn [PlanM.hashable hkey_promises PlanM.iter_promises].
    transitivity (flat_map (λ kh : string * hkey, hkey_promises kh.2)
                    (sorted ((λ kv, (kv.1, PlanM.hashable kv.2)) <$> entries))).
    { generalize (sorted ((λ kv : string * value, (kv.1, PlanM.hashable kv.2)) <$> entries)).
      intros l. induction l as [|kh l IHl]; [done|].
      rewrite fmap_cons. cbn [flat_map hkey_promises]. rewrite app_nil_r. by rewrite <- IHl. }
    rewrite (flat_map_perm _ _ _ (sorted_perm _)).
    induction IH as [|kv entries Hkv _ IHentries]; [done|].
    rewrite fmap_cons. cbn [flat_map snd]. rewrite fmap_app. by rewrite Hkv, IHentries.
  - cbn [PlanM.hashable hkey_promises PlanM.iter_promises].
    induction IH as [|i elems Hi _ IHelems]; [done|].
    rewrite fmap_cons. cbn [flat_map]. rewrite fmap_app. by rewrite Hi, IHelems.
Qed.

Lemma promise_seen (p : Promise) (seen : list Promise) :
  existsb (PromiseM.eq p) seen = true ↔ PromiseM._key p ∈ PromiseM._key <$> seen.
Proof.
  rewrite existsb_exists. split.
  - intros (q & Hq%list_elem_of_In & Heq%bool_decide_eq_true).
    apply list_elem_of_fmap. by exists q.
  - intros (q & Heq & Hq)%list_elem_of_fmap. exists q.
    split; [by apply list_elem_of_In|by apply bool_decide_eq_true].
Qed.

Lemma set_update_keys (seen l : list Promise) (k : promise_key) :
  k ∈ PromiseM._key <$> PlanM.set_update seen l ↔
  k ∈ PromiseM._key <$> seen ∨ k ∈ PromiseM._key <$> l.
Proof.
  revert seen. induction l as [|p l IH]; intros seen.
  - simpl. split; [by left|]. intros [?|H]; [done|]. by apply elem_of_nil in H.
  - cbn [PlanM.set_update]. rewrite fmap_cons, elem_of_cons.
    destruct (existsb (PromiseM.eq p) seen) eqn:Hseen.
    + apply promise_seen in Hseen. rewrite IH. split; [tauto|].
      intros [?|[->|?]]; tauto.
    + rewrite IH. rewrite fmap_app, elem_of_app. simpl. rewrite list_elem_of_singleton. tauto.
Qed.

Lemma promises_keys (p : Plan) (k : promise_key) :
  k ∈ PromiseM._key <$> PlanM.promises p ↔ k ∈ hkey_promises (PlanM._key p).2.
Proof.
  unfold PlanM._key. cbn [snd]. rewrite (hashable_promises (VMapping (_inputs p))).
  cbn [PlanM.iter_promises]. unfold PlanM.promises.
  assert (H : ∀ acc, k ∈ PromiseM._key <$>
                fold_left (λ promises kv, PlanM.set_update promises (PlanM.iter_promises kv.2))
                  (_inputs p) acc ↔
              k ∈ PromiseM._key <$> acc ∨
              k ∈ PromiseM._key <$> flat_map (λ kv, PlanM.iter_promises kv.2) (_inputs p)).
  { induction (_inputs p) as [|kv inputs IH]; intros acc.
    - simpl. split; [by left|]. intros [?|H]; [done|]. by apply elem_of_nil in H.
    - cbn [fold_left flat_map]. rewrite IH, set_update_keys, fmap_app, elem_of_app. tauto. }
  rewrite H. simpl. split; [|by right]. intros [Hnil|?]; [|done]. by apply elem_of_nil in Hnil.
Qed.

Lemma promises_proper (p p' : Plan) (pr : Promise) :
  PlanM._key p = PlanM._key p' →
  pr ∈ PlanM.promises p →
  ∃ pr', pr' ∈ PlanM.promises p' ∧ PromiseM._key pr' = PromiseM._key pr.
Proof.
  intros Hkey Hpr.
  assert (PromiseM._key pr ∈ PromiseM._key <$> PlanM.promises p') as Hin.
  { apply promises_keys. rewrite <- Hkey. apply promises_keys.
    apply list_elem_of_fmap. by exists pr. }
  apply list_elem_of_fmap in Hin as (pr' & Heq & Hpr'). by exists pr'.
Qed.

(** ** ExecutionGraph.walk *)

Lemma plan_seen (p : Plan) (plans : list Plan) :
  existsb (PlanM.eq p) plans = true ↔ PlanM._key p ∈ keys_of plans.
Proof.
  rewrite existsb_exists. split.
  - intros (q & Hq%list_elem_of_In & Heq%bool_decide_eq_true).
    apply list_elem_of_fmap. by exists q.
  - intros (q & Heq & Hq)%list_elem_of_fmap. exists q.
    split; [by apply list_elem_of_In|by apply bool_decide_eq_true].
Qed.

Lemma filter_length_le {A} (P Q : A → Prop) `{∀ x, Decision (P x)} `{∀ x, Decision (Q x)}
    (l : list A) :
  (∀ x, P x → Q x) → length (filter P l) ≤ length (filter Q l).
Proof.
  intros HPQ. induction l as [|x l IH]; [done|]. rewrite !filter_cons.
  destruct (decide (P x)) as [HP|HP].
  - rewrite decide_True by auto. simpl. lia.
  - destruct (decide (Q x)); simpl; lia.
Qed.

Lemma filter_length_lt {A} (P Q : A → Prop) `{∀ x, Decision (P x)} `{∀ x, Decision (Q x)}
    (l : list A) (x : A) :
  (∀ y, P y → Q y) → x ∈ l → Q x → ¬ P x → length (filter P l) < length (filter Q l).
Proof.
  intros HPQ Hx HQ HP. induction l as [|y l IH]; [by apply elem_of_nil in Hx|].
  rewrite !filter_cons. apply elem_of_cons in Hx as [<-|Hx].
  - rewrite decide_False by done. rewrite decide_True by done. simpl.
    pose proof (filter_length_le P Q l HPQ). lia.
  - specialize (IH Hx). destruct (decide (P y)) as [HPy|HPy].
    + rewrite decide_True by auto. simpl. lia.
    + destruct (decide (Q y)); simpl; lia.
Qed.

Section walked.

Variables (product_mapper : gmap promise_key Plan) (roots : list Promise).

Local Abbreviation promised := (ProductMapper.promised product_mapper).

Lemma unseen_mono (plans plans' : list Plan) :
  (∀ k, k ∈ keys_of plans → k ∈ keys_of plans') →
  length (unseen product_mapper plans') ≤ length (unseen product_mapper plans).
Proof. intros Hsub. apply filter_length_le. intros k Hk Hin. by apply Hk, Hsub. Qed.

Lemma unseen_add (plans : list Plan) (pr : Promise) (p : Plan) :
  promised pr = Some p →
  PlanM._key p ∉ keys_of plans →
  length (unseen product_mapper (plans ++ [p])) < length (unseen product_mapper plans).
Proof.
  intros Hp Hnew. apply (filter_length_lt _ _ _ (PlanM._key p)); [| |done|].
  - intros k Hk Hin. apply Hk. unfold keys_of. rewrite fmap_app. apply elem_of_app. by left.
  - apply list_elem_of_fmap. exists p. split; [done|].
    apply list_elem_of_fmap. exists (PromiseM._key pr, p). split; [done|].
    by apply elem_of_map_to_list.
  - intros Hk. apply Hk. unfold keys_of. rewrite fmap_app. apply elem_of_app. right.
    apply list_elem_of_singleton. done.
Qed.

Lemma unseen_size (plans : list Plan) : length (unseen product_mapper plans) ≤ size product_mapper.
Proof.
  unfold unseen. etransitivity; [apply length_filter|].
  unfold keys_of. by rewrite !length_fmap, length_map_to_list.
Qed.

Lemma walked_nil (plans : list Plan) : walked product_mapper roots plans [] plans.
Proof.
  split.
  - intros k. split; [by left|]. intros [?|H]; [done|]. by apply elem_of_nil in H.
  - constructor.
  - intros k H. by apply elem_of_nil in H.
  - intros pr p H. by apply elem_of_nil in H.
  - intros pr p input q H. by apply elem_of_nil in H.
  - intros _ i pr p input q H. by rewrite lookup_nil in H.
Qed.

Lemma keys_of_yielded_app (out1 out2 : list (Promise * Plan)) :
  keys_of (out1 ++ out2).*2 = keys_of out1.*2 ++ keys_of out2.*2.
Proof. unfold keys_of. by rewrite !fmap_app. Qed.

Lemma keys_of_yielded_lookup (out : list (Promise * Plan)) (k : PlanM.plan_key) :
  k ∈ keys_of out.*2 → ∃ j e, out !! j = Some e ∧ PlanM._key e.2 = k.
Proof.
  intros (p & -> & (e & -> & He)%list_elem_of_fmap)%list_elem_of_fmap.
  apply list_elem_of_lookup in He as [j Hj]. by exists j, e.
Qed.

Lemma keys_of_yielded_elem (out : list (Promise * Plan)) (pr : Promise) (p : Plan) :
  (pr, p) ∈ out → PlanM._key p ∈ keys_of out.*2.
Proof.
  intros H. apply list_elem_of_fmap. exists p. split; [done|].
  apply list_elem_of_fmap. by exists (pr, p).
Qed.

Lemma walked_app (plans plans1 plans2 : list Plan) (out1 out2 : list (Promise * Plan)) :
  walked product_mapper roots plans out1 plans1 →
  walked product_mapper roots plans1 out2 plans2 →
  walked product_mapper roots plans (out1 ++ out2) plans2.
Proof.
  intros [Hs1 Ho1 Hn1 Hp1 Hc1 Hord1] [Hs2 Ho2 Hn2 Hp2 Hc2 Hord2]. split.
  - intros k. rewrite Hs2, Hs1, keys_of_yielded_app, elem_of_app. tauto.
  - rewrite keys_of_yielded_app. apply NoDup_app. split; [done|]. split; [|done].
    intros k Hk1 Hk2. apply (Hn2 k Hk2). apply Hs1. by right.
  - intros k. rewrite keys_of_yielded_app, elem_of_app. intros [Hk|Hk]; [by apply Hn1|].
    intros Hin. apply (Hn2 k Hk). apply Hs1. by left.
  - intros pr p [H|H]%elem_of_app; [by apply Hp1|by apply Hp2].
  - intros pr p input q [H|H]%elem_of_app Hin Hq.
    + apply Hs2. left. by eapply Hc1.
    + by eapply Hc2.
  - intros Hacyclic i pr p input q Hi Hin Hq.
    destruct (decide (i < length out1)) as [Hlt|Hge].
    + rewrite lookup_app_l in Hi by done.
      destruct (Hord1 Hacyclic i pr p input q Hi Hin Hq) as [?|(j & e & Hj & He & Hk)];
        [by left|].
      right. exists j, e. split; [done|]. split; [|done].
      rewrite lookup_app_l; [done|lia].
    + rewrite lookup_app_r in Hi by lia.
      destruct (Hord2 Hacyclic _ pr p input q Hi Hin Hq) as [Hk|(j & e & Hj & He & Hk)].
      * apply Hs1 in Hk as [Hk|Hk]; [by left|]. right.
        apply keys_of_yielded_lookup in Hk as (j & e & Hj & Hk).
        exists j, e. pose proof (lookup_lt_Some _ _ _ Hj).
        split; [lia|]. split; [|done]. by rewrite lookup_app_l.
      * right. exists (length out1 + j), e. split; [lia|]. split; [|done].
        rewrite lookup_app_r by lia. by replace (length out1 + j - length out1) with j by lia.
Qed.

Lemma walked_node (plans plans' : list Plan) (out : list (Promise * Plan))
    (pr : Promise) (p : Plan) :
  promised pr = Some p →
  reachable_promise product_mapper roots pr →
  PlanM._key p ∉ keys_of plans →
  walked product_mapper roots (plans ++ [p]) out plans' →
  (∀ input q, input ∈ PlanM.promises p → promised input = Some q →
              PlanM._key q ∈ keys_of plans') →
  (∀ pr' q, (pr', q) ∈ out → tc (depends product_mapper) p q) →
  walked product_mapper roots plans (out ++ [(pr, p)]) plans'.
Proof.
  intros Hp Hreach Hnew [Hs Ho Hn Hpr Hc Hord] Hinputs Hbelow.
  assert (Hkeys : ∀ k, k ∈ keys_of (plans ++ [p]) ↔ k ∈ keys_of plans ∨ k = PlanM._key p).
  { intros k. unfold keys_of. rewrite fmap_app, elem_of_app. simpl.
    by rewrite list_elem_of_singleton. }
  assert (Hlast : keys_of (out ++ [(pr, p)]).*2 = keys_of out.*2 ++ [PlanM._key p])
    by apply keys_of_yielded_app.
  split.
  - intros k. rewrite Hs, Hkeys, Hlast, elem_of_app, list_elem_of_singleton. tauto.
  - rewrite Hlast. apply NoDup_app. split; [done|]. split; [|apply NoDup_singleton].
    intros k Hk ->%list_elem_of_singleton. apply (Hn _ Hk). apply Hkeys. by right.
  - intros k. rewrite Hlast, elem_of_app, list_elem_of_singleton. intros [Hk| ->]; [|done].
    intros Hin. apply (Hn _ Hk). apply Hkeys. by left.
  - intros pr' q [H|H]%elem_of_app; [by apply Hpr|].
    apply list_elem_of_singleton in H as [= -> ->]. by split.
  - intros pr' q input r [H|H]%elem_of_app Hin Hr; [by eapply Hc|].
    apply list_elem_of_singleton in H as [= -> ->]. by eapply Hinputs.
  - intros Hacyclic i pr' q input r Hi Hin Hr.
    destruct (decide (i < length out)) as [Hlt|Hge].
    + rewrite lookup_app_l in Hi by done.
      destruct (Hord Hacyclic i pr' q input r Hi Hin Hr) as [Hk|(j & e & Hj & He & Hk)].
      * apply Hkeys in Hk as [Hk|Hk]; [by left|]. exfalso.
        apply (Hacyclic p). eapply tc_r; [eapply Hbelow, list_elem_of_lookup_2, Hi|].
        by exists input, r.
      * right. exists j, e. split; [done|]. split; [|done]. rewrite lookup_app_l; [done|lia].
    + rewrite lookup_app_r in Hi by lia.
      destruct (i - length out) as [|n] eqn:Hn'; [|by destruct n].
      injection Hi as <- <-.
      pose proof (Hinputs input r Hin Hr) as Hk.
      apply Hs in Hk as [Hk|Hk].
      * apply Hkeys in Hk as [Hk|Hk]; [by left|]. exfalso.
        apply (Hacyclic p). apply tc_once. by exists input, r.
      * right. apply keys_of_yielded_lookup in Hk as (j & e & Hj & Hk).
        exists j, e. pose proof (lookup_lt_Some _ _ _ Hj).
        split; [lia|]. split; [|done]. by rewrite lookup_app_l.
Qed.

End walked.

Section walk_runs.

Variables (product_mapper : gmap promise_key Plan) (roots : list Promise).

Hypothesis all_resolve : resolves product_mapper roots.

Local Abbreviation promised := (ProductMapper.promised product_mapper).
Local Abbreviation walk_plan := (ExecutionGraphM._walk_plan product_mapper).

Lemma walk_promises_ok (fuel : nat) :
  (∀ pr plans,
     length (unseen product_mapper plans) < fuel →
     reachable_promise product_mapper roots pr →
     ∃ out plans' p,
       walk_plan fuel pr plans = Some (Ok out, plans') ∧
       walked product_mapper roots plans out plans' ∧
       promised pr = Some p ∧ PlanM._key p ∈ keys_of plans' ∧
       ∀ pr' q, (pr', q) ∈ out → rtc (depends product_mapper) p q) →
  ∀ inputs plans,
    length (unseen product_mapper plans) < fuel →
    (∀ input, input ∈ inputs → reachable_promise product_mapper roots input) →
    ∃ out plans',
      ExecutionGraphM.walk_promises (walk_plan fuel) inputs plans = Some (Ok out, plans') ∧
      walked product_mapper roots plans out plans' ∧
      (∀ input, input ∈ inputs →
         ∃ q, promised input = Some q ∧ PlanM._key q ∈ keys_of plans') ∧
      (∀ pr' q, (pr', q) ∈ out →
         ∃ input r, input ∈ inputs ∧ promised input = Some r ∧
                    rtc (depends product_mapper) r q).
Proof.
  intros Hplan. induction inputs as [|input inputs IH]; intros plans Hfuel Hreach.
  { exists [], plans. split; [done|]. split; [apply walked_nil|]. split.
    - intros input H. by apply elem_of_nil in H.
    - intros pr' q H. by apply elem_of_nil in H. }
  destruct (Hplan input plans Hfuel) as (out1 & plans1 & p & Hrun1 & Hw1 & Hp & Hkp & Hbelow1).
  { apply Hreach, elem_of_cons. by left. }
  destruct (IH plans1) as (out2 & plans2 & Hrun2 & Hw2 & Hin2 & Hbelow2).
  { eapply Nat.le_lt_trans; [|exact Hfuel]. apply unseen_mono.
    intros k Hk. apply (walked_seen _ _ _ _ _ Hw1). by left. }
  { intros c Hc. apply Hreach, elem_of_cons. by right. }
  exists (out1 ++ out2), plans2. split.
  { cbn [ExecutionGraphM.walk_promises]. by rewrite Hrun1, Hrun2. }
  split; [by eapply walked_app|]. split.
  - intros c [->|Hc]%elem_of_cons; [|by apply Hin2].
    exists p. split; [done|]. apply (walked_seen _ _ _ _ _ Hw2). by left.
  - intros pr' q [H|H]%elem_of_app.
    + exists input, p. split; [apply elem_of_cons; by left|]. split; [done|by eapply Hbelow1].
    + destruct (Hbelow2 _ _ H) as (c & r & Hc & Hr & Hrtc).
      exists c, r. split; [apply elem_of_cons; by right|done].
Qed.

Lemma walk_plan_ok (fuel : nat) :
  ∀ pr plans,
    length (unseen product_mapper plans) < fuel →
    reachable_promise product_mapper roots pr →
    ∃ out plans' p,
      walk_plan fuel pr plans = Some (Ok out, plans') ∧
      walked product_mapper roots plans out plans' ∧
      promised pr = Some p ∧ PlanM._key p ∈ keys_of plans' ∧
      ∀ pr' q, (pr', q) ∈ out → rtc (depends product_mapper) p q.
Proof.
  induction fuel as [|fuel IH]; intros pr plans Hfuel Hreach; [lia|].
  destruct (all_resolve pr Hreach) as [p Hp].
  cbn [ExecutionGraphM._walk_plan]. rewrite Hp.
  destruct (existsb (PlanM.eq p) plans) eqn:Hseen.
  { apply plan_seen in Hseen. exists [], plans, p.
    split; [done|]. split; [apply walked_nil|]. split; [done|]. split; [done|].
    intros pr' q H. by apply elem_of_nil in H. }
  assert (Hnew : PlanM._key p ∉ keys_of plans).
  { intros Hin. apply plan_seen in Hin. congruence. }
  destruct (walk_promises_ok fuel IH (PlanM.promises p) (plans ++ [p]))
    as (out & plans' & Hrun & Hw & Hinputs & Hbelow).
  { pose proof (unseen_add product_mapper plans pr p Hp Hnew). lia. }
  { intros input Hinput. by eapply reachable_input. }
  assert (Hdesc : ∀ pr' q, (pr', q) ∈ out → tc (depends product_mapper) p q).
  { intros pr' q Hq. destruct (Hbelow _ _ Hq) as (input & r & Hinput & Hr & Hrtc).
    eapply tc_rtc_r; [|exact Hrtc]. apply tc_once. by exists input, r. }
  exists (out ++ [(pr, p)]), plans', p. split; [by rewrite Hrun|]. split.
  { apply walked_node; try done. intros input q Hinput Hq.
    destruct (Hinputs input Hinput) as (q' & Hq' & Hk). congruence. }
  split; [done|]. split.
  { apply (walked_seen _ _ _ _ _ Hw). left. unfold keys_of. rewrite fmap_app.
    apply elem_of_app. right. by apply list_elem_of_singleton. }
  intros pr' q [H|H]%elem_of_app.
  - apply tc_rtc. by eapply Hdesc.
  - apply list_elem_of_singleton in H as [= -> ->]. done.
Qed.

End walk_runs.

Lemma walk_reaches (product_mapper : gmap promise_key Plan) (roots : list Promise)
    (out : list (Promise * Plan)) (plans' : list Plan) :
  walked product_mapper roots [] out plans' →
  (∀ root, root ∈ roots →
     ∃ q, ProductMapper.promised product_mapper root = Some q ∧ PlanM._key q ∈ keys_of plans') →
  ∀ pr, reachable_promise product_mapper roots pr →
    ∀ p, ProductMapper.promised product_mapper pr = Some p → PlanM._key p ∈ keys_of out.*2.
Proof.
  intros Hw Hroots.
  assert (Hall : ∀ k, k ∈ keys_of plans' → k ∈ keys_of out.*2).
  { intros k Hk. apply (walked_seen _ _ _ _ _ Hw) in Hk as [Hk|Hk]; [|done].
    by apply elem_of_nil in Hk. }
  induction 1 as [pr Hroot|pr p0 pr' _ IH Hp0 Hpr']; intros p Hp.
  - destruct (Hroots pr Hroot) as (q & Hq & Hk). apply Hall. congruence.
  - specialize (IH p0 Hp0).
    apply list_elem_of_fmap in IH as (p1 & Hkey & (e & -> & He)%list_elem_of_fmap).
    destruct e as [pr1 p1]. simpl in Hkey.
    destruct (promises_proper p0 p1 pr' Hkey Hpr') as (input & Hinput & Hsame).
    apply Hall. eapply (walked_closed _ _ _ _ _ Hw); [exact He|exact Hinput|].
    unfold ProductMapper.promised in *. by rewrite Hsame.
Qed.

(** C6. [ExecutionGraph.walk] is a depth-first post-order traversal.  On an
    execution graph whose reachable promises all have a plan, the walk comes
    back as soon as the fuel exceeds the number of registered promises, and
    what it yields holds no two equal plans, holds only plans promised to a
    reachable promise, each next to such a promise, and holds a plan equal to
    every reachable plan; when no plan depends on itself (the graph is a
    DAG), every plan is yielded after plans equal to those that fulfil its
    promises. *)
Theorem walk_is_post_order :
  ∀ (self : ExecutionGraph) (fuel : nat),
    resolves (graph_product_mapper self) (root_promises self) →
    size (graph_product_mapper self) < fuel →
    ∃ yielded,
      ExecutionGraphM.walk fuel self = Some (Ok yielded) ∧
      NoDup (keys_of yielded.*2) ∧
      (∀ pr p, (pr, p) ∈ yielded →
         ProductMapper.promised (graph_product_mapper self) pr = Some p ∧
         reachable_promise (graph_product_mapper self) (root_promises self) pr) ∧
      (∀ p, reachable_plan (graph_product_mapper self) (root_promises self) p →
         ∃ pr p', (pr, p') ∈ yielded ∧ PlanM.eq p p' = true) ∧
      (acyclic (graph_product_mapper self) →
       ∀ i pr p input q,
         yielded !! i = Some (pr, p) →
         input ∈ PlanM.promises p →
         ProductMapper.promised (graph_product_mapper self) input = Some q →
         ∃ j pr' q', j < i ∧ yielded !! j = Some (pr', q') ∧ PlanM.eq q q' = true).
Proof.
  intros [roots m] fuel Hres Hfuel. cbn [graph_product_mapper root_promises] in *.
  destruct (walk_promises_ok m roots fuel (walk_plan_ok m roots Hres fuel) roots [])
    as (out & plans' & Hrun & Hw & Hroots & _).
  { pose proof (unseen_size m []). lia. }
  { intros root Hroot. by constructor. }
  exists out. split.
  { unfold ExecutionGraphM.walk. cbn [graph_product_mapper root_promises]. by rewrite Hrun. }
  split; [apply (walked_once _ _ _ _ _ Hw)|].
  split; [apply (walked_promised _ _ _ _ _ Hw)|].
  split.
  - intros p (pr & Hreach & Hp).
    pose proof (walk_reaches m roots out plans' Hw Hroots pr Hreach p Hp) as Hk.
    apply list_elem_of_fmap in Hk as (p' & Hkey & (e & -> & He)%list_elem_of_fmap).
    destruct e as [pr' p']. exists pr', p'. split; [done|]. by apply bool_decide_eq_true.
  - intros Hacyclic i pr p input q Hi Hinput Hq.
    destruct (walked_order _ _ _ _ _ Hw Hacyclic i pr p input q Hi Hinput Hq)
      as [Hk|(j & [pr' q'] & Hj & He & Hk)]; [by apply elem_of_nil in Hk|].
    exists j, pr', q'. split; [done|]. split; [done|]. by apply bool_decide_eq_true.
Qed.

Lemma promised_registered (product_mapper : gmap promise_key Plan) (pr : Promise) (p : Plan) :
  ProductMapper.promised product_mapper pr = Some p → p ∈ (map_to_list product_mapper).*2.
Proof.
  intros Hp. apply list_elem_of_fmap. exists (PromiseM._key pr, p). split; [done|].
  by apply elem_of_map_to_list.
Qed.

Lemma resolvesb_resolves (product_mapper : gmap promise_key Plan) (roots : list Promise) :
  resolvesb product_mapper roots = true → resolves product_mapper roots.
Proof.
  unfold resolvesb. intros [Hroots Hplans]%andb_true_iff.
  rewrite forallb_forall in Hroots. rewrite forallb_forall in Hplans.
  intros pr Hreach. destruct Hreach as [pr Hroot|pr p pr' _ Hp Hpr'].
  - apply list_elem_of_In in Hroot. exact (bool_decide_eq_true_1 _ (Hroots pr Hroot)).
  - apply promised_registered, list_elem_of_In in Hp. specialize (Hplans p Hp).
    rewrite forallb_forall in Hplans. apply list_elem_of_In in Hpr'.
    exact (bool_decide_eq_true_1 _ (Hplans pr' Hpr')).
Qed.

Lemma tc_last_step {A} (R : relation A) (x y : A) : tc R x y → ∃ z, R z y.
Proof. induction 1 as [x y Hxy|x z y _ _ IH]; [by exists x|exact IH]. Qed.

Lemma rank_decreases_acyclic (product_mapper : gmap promise_key Plan)
    (rank : PlanM.plan_key → nat) :
  rank_decreases product_mapper rank = true → acyclic product_mapper.
Proof.
  unfold rank_decreases. rewrite forallb_forall. intros Hrank.
  assert (Hstep : ∀ a a' b, a' ∈ (map_to_list product_mapper).*2 →
                            PlanM._key a' = PlanM._key a →
                            depends product_mapper a b →
                            rank (PlanM._key b) < rank (PlanM._key a)).
  { intros a a' b Ha' Hkey (pr & q & Hpr & Hq & Hqb).
    destruct (promises_proper a a' pr (eq_sym Hkey) Hpr) as (pr' & Hpr' & Hsame).
    apply list_elem_of_In in Ha'. specialize (Hrank a' Ha').
    rewrite forallb_forall in Hrank. apply list_elem_of_In in Hpr'.
    specialize (Hrank pr' Hpr'). unfold ProductMapper.promised in *.
    rewrite Hsame, Hq in Hrank. apply Nat.ltb_lt in Hrank. by rewrite <- Hqb, <- Hkey. }
  assert (Htc : ∀ a b, tc (depends product_mapper) a b →
                       ∀ a', a' ∈ (map_to_list product_mapper).*2 →
                             PlanM._key a' = PlanM._key a →
                             rank (PlanM._key b) < rank (PlanM._key a)).
  { induction 1 as [a b Hab|a c b Hac _ IH]; intros a' Ha' Hkey; [by eapply Hstep|].
    pose proof (Hstep a a' c Ha' Hkey Hac) as Hlt.
    destruct Hac as (pr & q & Hpr & Hq & Hqc).
    specialize (IH q (promised_registered _ _ _ Hq) Hqc). lia. }
  intros p Hcycle.
  assert (∃ p', p' ∈ (map_to_list product_mapper).*2 ∧ PlanM._key p' = PlanM._key p)
    as (p' & Hp' & Hkey).
  { destruct (tc_last_step _ _ _ Hcycle) as (z & pr & q & Hpr & Hq & Hqp).
    exists q. split; [by eapply promised_registered|done]. }
  pose proof (Htc p p Hcycle p' Hp' Hkey). lia.
Qed.

Lemma walk_is_post_order_witness :
  resolves (graph_product_mapper javac_graph) (root_promises javac_graph) ∧
  size (graph_product_mapper javac_graph) < 3 ∧
  acyclic (graph_product_mapper javac_graph) ∧
  ((λ r, r.1) <$> execution_graph sources_for_subject 4 javac_scheduler
                    (mkBuildRequest ["compile"] ["lib"]) initial_state)
    = Some (Ok javac_graph) ∧
  ∃ yielded,
    ExecutionGraphM.walk 3 javac_graph = Some (Ok yielded) ∧
    NoDup (keys_of yielded.*2) ∧
    (∀ p, reachable_plan (graph_product_mapper javac_graph) (root_promises javac_graph) p →
       ∃ pr p', (pr, p') ∈ yielded ∧ PlanM.eq p p' = true).
Proof.
  assert (H1 : resolves (graph_product_mapper javac_graph) (root_promises javac_graph))
    by (apply resolvesb_resolves; vm_compute; reflexivity).
  assert (H2 : size (graph_product_mapper javac_graph) < 3)
    by (apply Nat.ltb_lt; vm_compute; reflexivity).
  split; [exact H1|]. split; [exact H2|]. split.
  { apply (rank_decreases_acyclic _
             (λ k, if decide (k = PlanM._key javac_classes_plan) then 1 else 0)).
    vm_compute. reflexivity. }
  split; [vm_compute; reflexivity|].
  destruct (walk_is_post_order javac_graph 3 H1 H2) as (yielded & Hrun & Honce & _ & Hall & _).
  exists yielded. by split.
Defined.

(** C6, counterexample.  The reporting planner merges its plans at
    finalization; the merged plan holds the promise of the report of
    [thrift_library], which finalization has mapped to the merged plan
    itself.  Every reachable promise has a plan, and the walk yields the
    merged plan with nothing before it: a plan that fulfils one of its
    promises is not yielded before it. *)
Lemma walk_yields_self_dependent_plan :
  ((λ r, r.1) <$> execution_graph sources_for_subject 4 report_scheduler
                    (mkBuildRequest ["report"] ["lib"]) initial_state)
    = Some (Ok report_graph) ∧
  resolves (graph_product_mapper report_graph) (root_promises report_graph) ∧
  ExecutionGraphM.walk 3 report_graph = Some (Ok [(reports_of java_library, merged_plan)]) ∧
  reports_of thrift_library ∈ PlanM.promises merged_plan ∧
  ProductMapper.promised (graph_product_mapper report_graph) (reports_of thrift_library)
    = Some merged_plan ∧
  ¬ (∀ i pr p input q,
       [(reports_of java_library, merged_plan)] !! i = Some (pr, p) →
       input ∈ PlanM.promises p →
       ProductMapper.promised (graph_product_mapper report_graph) input = Some q →
       ∃ j pr' q', j < i ∧
                   [(reports_of java_library, merged_plan)] !! j = Some (pr', q') ∧
                   PlanM.eq q q' = true).
Proof.
  assert (Hin : reports_of thrift_library ∈ PlanM.promises merged_plan)
    by (apply elem_of_cons; left; reflexivity).
  assert (Hp : ProductMapper.promised (graph_product_mapper report_graph)
                 (reports_of thrift_library) = Some merged_plan)
    by (vm_compute; reflexivity).
  split; [vm_compute; reflexivity|].
  split; [apply resolvesb_resolves; vm_compute; reflexivity|].
  split; [vm_compute; reflexivity|].
  split; [exact Hin|]. split; [exact Hp|].
  intros Hall.
  destruct (Hall 0 (reports_of java_library) merged_plan (reports_of thrift_library)
              merged_plan eq_refl Hin Hp) as (j & _ & _ & Hj & _).
  lia.
Qed.

(** ** The solver decides derivability *)

Section verdict_clauses.

Variable verdict : pytype → option bool.

Lemma mapM_verdict_all (anded_clause : list pytype) (matched : list bool) :
  mapM verdict anded_clause = Some matched →
  (length (filter (λ m, m = true) matched) = length anded_clause ↔
   ∀ r, r ∈ anded_clause → verdict r = Some true).
Proof.
  intros Hm. rewrite (length_mapM _ _ _ Hm), all_matched.
  apply mapM_Some_1 in Hm. split.
  - intros Hall r Hr.
    destruct (proj1 (list_elem_of_lookup _ _) Hr) as [i Hi].
    destruct (Forall2_lookup_l _ _ _ _ _ Hm Hi) as (m & Hmi & Hv).
    rewrite Hv. f_equal. exact (proj1 (Forall_lookup _ _) Hall _ _ Hmi).
  - intros Hall. apply Forall_lookup. intros i m Hmi.
    destruct (Forall2_lookup_r _ _ _ _ _ Hm Hmi) as (r & Hi & Hv).
    specialize (Hall r (list_elem_of_lookup_2 _ _ _ Hi)). congruence.
Qed.

Lemma clauses_verdict_true (ored_clauses : DNF) :
  clauses_verdict verdict ored_clauses = Some true →
  ∃ anded_clause, anded_clause ∈ ored_clauses ∧
                  ∀ r, r ∈ anded_clause → verdict r = Some true.
Proof.
  induction ored_clauses as [|clause rest IH]; [done|]. cbn.
  destruct (mapM verdict clause) as [matched|] eqn:Hm; [cbn|done].
  destruct (_ =? _) eqn:Hall.
  - intros _. exists clause. split; [apply elem_of_cons; by left|].
    apply (mapM_verdict_all _ _ Hm). by apply Nat.eqb_eq.
  - intros (c & Hc & Hr)%IH. exists c. split; [apply elem_of_cons; by right|done].
Qed.

Lemma clauses_verdict_complete (ored_clauses : DNF) (anded_clause : list pytype) (b : bool) :
  clauses_verdict verdict ored_clauses = Some b →
  anded_clause ∈ ored_clauses →
  (∀ r m, r ∈ anded_clause → verdict r = Some m → m = true) →
  b = true.
Proof.
  induction ored_clauses as [|clause rest IH]; [by intros _ ?%elem_of_nil|]. cbn.
  destruct (mapM verdict clause) as [matched|] eqn:Hm; [cbn|done].
  destruct (_ =? _) eqn:Hall; [congruence|].
  intros Hb [->|Hin]%elem_of_cons Hreq; [|by apply IH].
  apply Nat.eqb_neq in Hall. destruct Hall.
  apply (mapM_verdict_all _ _ Hm). intros r Hr.
  pose proof (mapM_Some_1 _ _ _ Hm) as H2.
  destruct (proj1 (list_elem_of_lookup _ _) Hr) as [i Hi].
  destruct (Forall2_lookup_l _ _ _ _ _ H2 Hi) as (m & Hmi & Hv).
  by rewrite Hv, (Hreq r m Hr Hv).
Qed.

Lemma planners_verdict_true (registered : list (TaskPlanner * DNF)) (matched : bool) :
  planners_verdict verdict registered matched = Some true →
  matched = true ∨
  ∃ planner ored_clauses, (planner, ored_clauses) ∈ registered ∧
                          clauses_verdict verdict ored_clauses = Some true.
Proof.
  revert matched. induction registered as [|[planner clauses] rest IH]; intros matched; cbn.
  - intros [= ->]. by left.
  - destruct (clauses_verdict verdict clauses) as [m|] eqn:Hm; [cbn|done].
    intros [Hor|(p & c & Hin & Hc)]%IH.
    + apply orb_true_iff in Hor as [->| ->]; [by left|].
      right. exists planner, clauses. split; [apply elem_of_cons; by left|done].
    + right. exists p, c. split; [apply elem_of_cons; by right|done].
Qed.

Lemma planners_verdict_complete (registered : list (TaskPlanner * DNF)) (matched b : bool)
    (planner : TaskPlanner) (ored_clauses : DNF) :
  planners_verdict verdict registered matched = Some b →
  (planner, ored_clauses) ∈ registered →
  ∃ m, clauses_verdict verdict ored_clauses = Some m ∧ (m = true → b = true).
Proof.
  assert (Hkeep : ∀ registered b, planners_verdict verdict registered true = Some b → b = true).
  { clear. induction registered as [|[p c] rest IH]; intros b; cbn; [congruence|].
    destruct (clauses_verdict verdict c); [cbn|done]. apply IH. }
  revert matched. induction registered as [|[p c] rest IH]; intros matched; cbn.
  - by intros _ ?%elem_of_nil.
  - destruct (clauses_verdict verdict c) as [m|] eqn:Hm; [cbn|done].
    intros Hb [[= -> ->]|Hin]%elem_of_cons.
    + exists m. split; [done|]. intros ->. rewrite orb_true_r in Hb. by apply (Hkeep rest).
    + by apply (IH (matched || m)).
Qed.

End verdict_clauses.

Lemma producible_derivable (self : Planners) (input_products : list pytype) (fuel : nat)
    (o : pytype) :
  producible fuel self input_products o = Some true → derivable self input_products o.
Proof.
  revert o. induction fuel as [|fuel IH]; intros o; [done|]. cbn.
  case_bool_decide as Hin; [intros _; by apply derivable_input|].
  case_bool_decide as Hout; [done|].
  intros [?|(planner & clauses & Hreg & Hc)]%planners_verdict_true; [done|].
  apply clauses_verdict_true in Hc as (clause & Hclause & Hall).
  apply (derivable_output _ _ o planner clauses clause); auto.
Qed.

Lemma derivable_producible (self : Planners) (input_products : list pytype) (o : pytype) :
  derivable self input_products o →
  ∀ fuel b, producible fuel self input_products o = Some b → b = true.
Proof.
  induction 1 as [o Hin|o planner clauses clause Hout Hreg Hclause _ IH];
    intros [|fuel] b; try done; cbn.
  - rewrite bool_decide_eq_true_2 by done. congruence.
  - case_bool_decide; [congruence|].
    rewrite bool_decide_eq_false_2 by (intros ?; done).
    intros Hb.
    destruct (planners_verdict_complete _ _ _ _ _ _ Hb Hreg) as (m & Hm & Himp).
    apply Himp. apply (clauses_verdict_complete _ _ _ _ Hm Hclause).
    intros r m' Hr. apply IH, Hr.
Qed.

(** X1. Whenever the requirement solver returns, its verdict is [True] exactly
    when the output product type is derivable: it is one of the input
    products, or some planner registered for it has a clause whose
    requirements are all derivable in turn. *)
Theorem solver_decides_derivability :
  ∀ (self : Planners) (input_products : list pytype) (fuel : nat) (o : pytype)
    (acc acc' : accumulators) (verdict : bool),
    _apply_product_requirements fuel self o input_products acc = Some (verdict, acc') →
    (verdict = true ↔ derivable self input_products o).
Proof.
  intros self input_products fuel o acc acc' verdict Hrun.
  pose proof (solver_verdict fuel self o input_products acc) as Hv.
  rewrite Hrun in Hv. cbn in Hv. symmetry in Hv. split.
  - intros ->. by apply (producible_derivable _ _ fuel).
  - intros Hd. by apply (derivable_producible _ _ _ Hd fuel).
Qed.

Lemma solver_decides_derivability_witness :
  _apply_product_requirements 2 classes_planners "Classes" ["PrecompiledClasses"] (mkAcc ∅ ∅)
    = Some (true, mkAcc {[ "PrecompiledClasses" ]} ∅) ∧
  derivable classes_planners ["PrecompiledClasses"] "Classes".
Proof.
  assert (Hrun : _apply_product_requirements 2 classes_planners "Classes" ["PrecompiledClasses"]
                   (mkAcc ∅ ∅) = Some (true, mkAcc {[ "PrecompiledClasses" ]} ∅)).
  { cbn. do 2 f_equal. }
  split; [exact Hrun|].
  exact (proj1 (solver_decides_derivability _ _ _ _ _ _ _ Hrun) eq_refl).
Defined.

(** ** Fully consumed products *)

Section solver_consumed.

Variables (fuel : nat) (self : Planners) (input_products : list pytype)
          (apply_product_requirements : pytype → list pytype → solver bool).

Local Abbreviation consumed := (consumed_justified fuel self input_products).

Hypothesis apply_producible : ∀ r acc b acc',
  apply_product_requirements r input_products acc = Some (b, acc') →
  producible fuel self input_products r = Some b.

Hypothesis apply_consumed : ∀ r acc b acc',
  apply_product_requirements r input_products acc = Some (b, acc') →
  consumed (fully_consumed acc) → consumed (fully_consumed acc').

Lemma solver_map_consumed (l : list pytype) (acc acc' : accumulators) (matched : list bool) :
  solver_map (λ r, apply_product_requirements r input_products) l acc = Some (matched, acc') →
  Forall2 (λ r m, producible fuel self input_products r = Some m) l matched ∧
  (consumed (fully_consumed acc) → consumed (fully_consumed acc')).
Proof.
  revert acc acc' matched. induction l as [|r l IH]; intros acc acc' matched Hres.
  - injection Hres as <- <-. by split.
  - cbn [solver_map] in Hres. unfold solver_bind at 1 in Hres.
    destruct (apply_product_requirements r input_products acc) as [[b acc1]|] eqn:Hr; [|done].
    unfold solver_bind at 1 in Hres.
    destruct (solver_map _ l acc1) as [[bs acc2]|] eqn:Hl; [|done].
    injection Hres as <- <-. destruct (IH _ _ _ Hl) as [Hall Hj]. split.
    + constructor; [by eapply apply_producible|done].
    + intros Hacc. by eapply Hj, apply_consumed.
Qed.

Lemma clauses_consumed (planner : TaskPlanner) (ored_clauses : DNF)
    (acc acc' : accumulators) (b : bool) :
  (∀ clause, clause ∈ ored_clauses → registered_clause self planner clause) →
  _apply_product_requirement_clauses apply_product_requirements input_products planner
    ored_clauses acc = Some (b, acc') →
  consumed (fully_consumed acc) → consumed (fully_consumed acc').
Proof.
  revert acc acc' b. induction ored_clauses as [|clause rest IH]; intros acc acc' b Hreg Hres Hacc.
  { by injection Hres as <- <-. }
  cbn [_apply_product_requirement_clauses] in Hres. unfold solver_bind at 1 in Hres.
  destruct (solver_map _ clause acc) as [[matched acc1]|] eqn:Hm; [|done].
  destruct (solver_map_consumed _ _ _ _ Hm) as [Hall Hj]. specialize (Hj Hacc).
  assert (Hrest : ∀ c, c ∈ rest → registered_clause self planner c)
    by (intros c Hc; apply Hreg, elem_of_cons; by right).
  destruct (_ =? _) eqn:Hcount.
  { injection Hres as <- <-. cbn [fully_consumed].
    intros c [Hc|Hc]%elem_of_union; [by apply Hj|].
    apply elem_of_list_to_set in Hc. exists planner, clause.
    split; [apply Hreg, elem_of_cons; by left|]. split; [done|].
    apply Nat.eqb_eq in Hcount. rewrite (Forall2_length _ _ _ Hall) in Hcount.
    apply all_matched in Hcount. intros r Hr.
    destruct (proj1 (list_elem_of_lookup _ _) Hr) as [i Hi].
    destruct (Forall2_lookup_l _ _ _ _ _ Hall Hi) as (m & Hmi & Hv).
    rewrite Hv. f_equal. exact (proj1 (Forall_lookup _ _) Hcount _ _ Hmi). }
  destruct (0 <? _); [|by eapply IH].
  unfold solver_bind in Hres. by eapply IH.
Qed.

End solver_consumed.

Lemma any_planner_consumed (fuel : nat) (self : Planners) (input_products : list pytype)
    (apply_product_requirements : pytype → list pytype → solver bool)
    (registered : list (TaskPlanner * DNF)) :
  (∀ r acc b acc',
     apply_product_requirements r input_products acc = Some (b, acc') →
     producible fuel self input_products r = Some b) →
  (∀ r acc b acc',
     apply_product_requirements r input_products acc = Some (b, acc') →
     consumed_justified fuel self input_products (fully_consumed acc) →
     consumed_justified fuel self input_products (fully_consumed acc')) →
  (∀ planner clauses clause,
     (planner, clauses) ∈ registered → clause ∈ clauses → registered_clause self planner clause) →
  ∀ matched acc acc' b,
    any_planner apply_product_requirements input_products registered matched acc
      = Some (b, acc') →
    consumed_justified fuel self input_products (fully_consumed acc) →
    consumed_justified fuel self input_products (fully_consumed acc').
Proof.
  intros Hprod Hcons.
  induction registered as [|[planner clauses] rest IH]; intros Hreg matched acc acc' b Hres Hacc.
  { by injection Hres as <- <-. }
  cbn [any_planner] in Hres. unfold solver_bind at 1 in Hres.
  destruct (_apply_product_requirement_clauses _ _ _ clauses acc) as [[m acc1]|] eqn:Hc; [|done].
  eapply IH; [|exact Hres|].
  - intros p cls cl Hp Hcl. eapply Hreg; [apply elem_of_cons; right; exact Hp|done].
  - eapply (clauses_consumed fuel self input_products apply_product_requirements Hprod Hcons);
      [|exact Hc|exact Hacc].
    intros cl Hcl. eapply Hreg; [apply elem_of_cons; by left|done].
Qed.

Lemma solver_apply_producible (fuel f : nat) (self : Planners) (input_products : list pytype) :
  f ≤ fuel →
  ∀ r acc b acc',
    _apply_product_requirements f self r input_products acc = Some (b, acc') →
    producible fuel self input_products r = Some b.
Proof.
  intros Hle r acc b acc' Hr.
  apply (producible_more_fuel self input_products f fuel); [done|].
  rewrite <- (solver_verdict f self r input_products acc). by rewrite Hr.
Qed.

Lemma solver_consumed (fuel : nat) (self : Planners) (input_products : list pytype) (f : nat) :
  f ≤ fuel →
  ∀ o acc b acc',
    _apply_product_requirements f self o input_products acc = Some (b, acc') →
    consumed_justified fuel self input_products (fully_consumed acc) →
    consumed_justified fuel self input_products (fully_consumed acc').
Proof.
  induction f as [|f IH]; intros Hle o acc b acc' Hres Hacc; [done|].
  cbn [_apply_product_requirements] in Hres.
  case_bool_decide; [by injection Hres as <- <-|].
  case_bool_decide; [by injection Hres as <- <-|].
  eapply (any_planner_consumed fuel self input_products
            (_apply_product_requirements f self)); [| | |exact Hres|exact Hacc].
  - apply solver_apply_producible. lia.
  - intros r acc0 b0 acc0' Hr. eapply IH; [lia|exact Hr].
  - intros planner clauses clause Hp Hcl. by exists o, planner, clauses.
Qed.

(** ** Planners.for_product_type_and_subject *)

Lemma planner_applies_spec (fuel : nat) (self : Planners) (input_products : list pytype)
    (configuration : option obj) (planner : TaskPlanner) (ored_clauses : DNF)
    (candidates candidates' : partials) (yielded : bool) :
  planner_applies fuel self input_products configuration planner ored_clauses candidates
    = Some (yielded, candidates') →
  ∃ b acc',
    _apply_product_requirement_clauses (_apply_product_requirements fuel self) input_products
      planner ored_clauses (mkAcc ∅ candidates) = Some (b, acc') ∧
    clauses_verdict (producible fuel self input_products) ored_clauses = Some b ∧
    yielded = b && match configuration with
                   | None => true
                   | Some c => bool_decide (type_of c ∈ fully_consumed acc')
                   end.
Proof.
  unfold planner_applies. intros Happ.
  pose proof (clauses_verdict_sound (_apply_product_requirements fuel self)
                (producible fuel self input_products) input_products
                (λ r acc, solver_verdict fuel self r input_products acc)
                planner ored_clauses (mkAcc ∅ candidates)) as Hv.
  destruct (_apply_product_requirement_clauses _ _ _ _ _) as [[b acc']|]; [|done].
  exists b, acc'. split; [done|]. split; [done|].
  destruct b; by injection Happ as <- _.
Qed.

Lemma yield_planners_spec (fuel : nat) (self : Planners) (input_products : list pytype)
    (configuration : option obj) (registered : list (TaskPlanner * DNF)) :
  ∀ (candidates : partials) (selected : list TaskPlanner),
    yield_planners fuel self input_products configuration registered candidates
      = Some selected →
    selected `sublist_of` registered.*1 ∧
    (∀ planner, planner ∈ selected →
       ∃ ored_clauses candidates0 acc',
         (planner, ored_clauses) ∈ registered ∧
         _apply_product_requirement_clauses (_apply_product_requirements fuel self)
           input_products planner ored_clauses (mkAcc ∅ candidates0) = Some (true, acc') ∧
         ∀ c, configuration = Some c → type_of c ∈ fully_consumed acc') ∧
    (∀ planner ored_clauses,
       (planner, ored_clauses) ∈ registered →
       ∃ b, clauses_verdict (producible fuel self input_products) ored_clauses = Some b ∧
            (configuration = None → b = true → planner ∈ selected)).
Proof.
  induction registered as [|[planner clauses] rest IH]; intros candidates selected Hres.
  { injection Hres as <-. split; [done|].
    split; [by intros ? ?%elem_of_nil|by intros ? ? ?%elem_of_nil]. }
  cbn [yield_planners] in Hres.
  destruct (planner_applies _ _ _ _ _ _ _) as [[yielded candidates']|] eqn:Happ; [|done].
  destruct (yield_planners _ _ _ _ rest _) as [planners|] eqn:Hrest; [|done].
  injection Hres as <-.
  destruct (IH _ _ Hrest) as (Hsub & Hsel & Hall).
  destruct (planner_applies_spec _ _ _ _ _ _ _ _ _ Happ) as (b & acc' & Hrun & Hv & Hy).
  split; [|split].
  - cbn. destruct yielded; by constructor.
  - intros p Hp.
    assert (Hcase : yielded = true ∧ p = planner ∨ p ∈ planners).
    { destruct yielded; [|by right].
      apply elem_of_cons in Hp as [->|?]; [by left|by right]. }
    destruct Hcase as [[-> ->]|Hin].
    + symmetry in Hy. apply andb_true_iff in Hy as [-> Hcfg].
      exists clauses, candidates, acc'. split; [apply elem_of_cons; by left|].
      split; [done|]. intros c ->. by apply bool_decide_eq_true_1 in Hcfg.
    + destruct (Hsel p Hin) as (cl & c0 & a & Hreg & Hr & Hc).
      exists cl, c0, a. split; [apply elem_of_cons; by right|done].
  - intros p cl [[= -> ->]|Hin]%elem_of_cons.
    + exists b. split; [done|]. intros -> ->. cbn in Hy. subst yielded.
      apply elem_of_cons. by left.
    + destruct (Hall p cl Hin) as (b' & Hb' & Himp). exists b'. split; [done|].
      intros Hc Ht. specialize (Himp Hc Ht). destruct yielded; [apply elem_of_cons; by right|done].
Qed.



(** ** Plan.bind *)

Lemma outcome_map_raise {A B} (f : A → outcome B) (l : list A) (e : error) :
  outcome_map f l = Raise e → ∃ x, x ∈ l ∧ f x = Raise e.
Proof.
  induction l as [|x l IH]; [done|]. cbn [outcome_map].
  destruct (f x) as [y|e'] eqn:Hx.
  - destruct (outcome_map f l) as [ys|e'']; [done|].
    intros [= ->]. destruct IH as (x' & Hin & Hx'); [done|].
    exists x'. split; [apply elem_of_cons; by right|done].
  - intros [= ->]. exists x. split; [apply elem_of_cons; by left|done].
Qed.

Lemma outcome_map_ok {A B} (f : A → outcome B) (l : list A) :
  (∀ x, x ∈ l → ∃ y, f x = Ok y) → ∃ ys, outcome_map f l = Ok ys.
Proof.
  induction l as [|x l IH]; intros Hall; [by eexists|]. cbn [outcome_map].
  destruct (Hall x) as [y ->]; [apply elem_of_cons; by left|].
  destruct IH as [ys ->]; [|by eexists].
  intros x' Hx'. apply Hall, elem_of_cons. by right.
Qed.

Lemma elem_of_flat_map {A B} (f : A → list B) (l : list A) (y : B) :
  y ∈ flat_map f l ↔ ∃ x, x ∈ l ∧ y ∈ f x.
Proof.
  rewrite list_elem_of_In, in_flat_map. split.
  - intros (x & Hx & Hy). exists x. by rewrite !list_elem_of_In.
  - intros (x & Hx & Hy). exists x. by rewrite <- !list_elem_of_In.
Qed.

Lemma dict_get_elem {V} (k : string) (v : V) (d : list (string * V)) :
  dict_get k d = Some v → (k, v) ∈ d.
Proof.
  induction d as [|[k' v'] d IH]; [done|]. simpl.
  destruct (decide (k = k')) as [->|].
  - intros [= ->]. apply elem_of_cons. by left.
  - intros Hget. apply elem_of_cons. right. by apply IH.
Qed.

Lemma value_at_promise (path : list step) (v : value) (pr : Promise) :
  value_at path v = Some (VPromise pr) → pr ∈ PlanM.iter_promises v.
Proof.
  revert v. induction path as [|[k|i] path IH]; intros v Hat.
  - simpl in Hat. injection Hat as ->. by apply list_elem_of_singleton.
  - destruct v as [|entries| | | |]; try done. cbn [value_at] in Hat.
    destruct (dict_get k entries) as [x|] eqn:Hget; [|done]. simpl in Hat.
    cbn [PlanM.iter_promises]. apply elem_of_flat_map.
    exists (k, x). split; [by apply dict_get_elem|by apply IH].
  - destruct v as [| |elems| | |]; try done. cbn [value_at] in Hat.
    destruct (elems !! i) as [x|] eqn:Hget; [|done]. simpl in Hat.
    cbn [PlanM.iter_promises]. apply elem_of_flat_map.
    exists x. split; [by eapply list_elem_of_lookup_2|by apply IH].
Qed.

Section bind_outcome.

Variable products_by_promise : gmap promise_key value.

Local Abbreviation bind_products := (PlanBinding.bind_products products_by_promise).

Lemma bind_products_raise (item : value) (e : error) :
  bind_products item = Raise e →
  ∃ pr, pr ∈ PlanM.iter_promises item ∧
        products_by_promise !! PromiseM._key pr = None ∧ e = KeyError (PromiseM._key pr).
Proof.
  revert e. induction item as [p|entries IH|elems IH|s|o|t] using value_ind_nested;
    intros e; cbn [PlanBinding.bind_products PlanM.iter_promises]; try done.
  - destruct (products_by_promise !! PromiseM._key p) eqn:Hp; [done|].
    intros [= <-]. exists p. split; [apply list_elem_of_singleton; done|done].
  - destruct (outcome_map _ entries) as [bound|e'] eqn:Hmap; [done|].
    intros [= ->]. apply outcome_map_raise in Hmap as ([k v] & Hin & Hv).
    cbn [snd fst] in Hv. destruct (bind_products v) as [v'|e'] eqn:Hbv; [done|].
    injection Hv as ->.
    destruct (proj1 (Forall_forall _ _) IH _ Hin e Hbv) as (pr & Hpr & Hnone & ->).
    exists pr. split; [|done]. apply elem_of_flat_map. by exists (k, v).
  - destruct (outcome_map _ elems) as [bound|e'] eqn:Hmap; [done|].
    intros [= ->]. apply outcome_map_raise in Hmap as (v & Hin & Hbv).
    destruct (proj1 (Forall_forall _ _) IH _ Hin e Hbv) as (pr & Hpr & Hnone & ->).
    exists pr. split; [|done]. apply elem_of_flat_map. by exists v.
Qed.

Lemma bind_products_ok (item : value) (item' : value) :
  bind_products item = Ok item' →
  ∀ pr, pr ∈ PlanM.iter_promises item → is_Some (products_by_promise !! PromiseM._key pr).
Proof.
  revert item'. induction item as [p|entries IH|elems IH|s|o|t] using value_ind_nested;
    intros item'; cbn [PlanBinding.bind_products PlanM.iter_promises];
    try (by intros _ ? ?%elem_of_nil).
  - destruct (products_by_promise !! PromiseM._key p) eqn:Hp; [|done].
    intros _ pr ->%list_elem_of_singleton. by rewrite Hp.
  - destruct (outcome_map _ entries) as [bound|e'] eqn:Hmap; [|done].
    intros _ pr Hpr. apply elem_of_flat_map in Hpr as ([k v] & Hin & Hpr).
    cbn [snd] in Hpr.
    assert (Hget : ∃ v', bind_products v = Ok v').
    { clear -Hmap Hin. revert bound Hmap.
      induction entries as [|[k0 v0] entries IHe]; intros bound Hmap;
        [by apply elem_of_nil in Hin|].
      cbn [outcome_map snd fst] in Hmap.
      destruct (bind_products v0) as [x'|e] eqn:Hx; [|done].
      destruct (outcome_map _ entries) as [bound'|e] eqn:Hrest; [|done].
      apply elem_of_cons in Hin as [[= -> ->]|Hin]; [by eexists|]. by eapply IHe. }
    destruct Hget as [v' Hv'].
    exact (proj1 (Forall_forall _ _) IH _ Hin v' Hv' pr Hpr).
  - destruct (outcome_map _ elems) as [bound|e'] eqn:Hmap; [|done].
    intros _ pr Hpr. apply elem_of_flat_map in Hpr as (v & Hin & Hpr).
    destruct (proj1 (list_elem_of_lookup _ _) Hin) as [i Hi].
    destruct (outcome_map_elem _ _ _ _ _ Hmap Hi) as (v' & _ & Hv').
    exact (proj1 (Forall_forall _ _) IH _ Hin v' Hv' pr Hpr).
Qed.

Lemma bind_inputs_raise (inputs bound : list (string * value)) (e : error) :
  PlanBinding.bind_inputs products_by_promise inputs bound = Raise e →
  ∃ kv, kv ∈ inputs ∧ bind_products kv.2 = Raise e.
Proof.
  revert bound. induction inputs as [|kv inputs IH]; intros bound; [done|].
  cbn [PlanBinding.bind_inputs].
  destruct (bind_products kv.2) as [v|e'] eqn:Hv.
  - intros (kv' & Hin & Hkv')%IH. exists kv'. split; [apply elem_of_cons; by right|done].
  - intros [= ->]. exists kv. split; [apply elem_of_cons; by left|done].
Qed.

Lemma bind_inputs_ok (inputs bound res : list (string * value)) :
  PlanBinding.bind_inputs products_by_promise inputs bound = Ok res →
  ∀ kv, kv ∈ inputs → ∃ v, bind_products kv.2 = Ok v.
Proof.
  revert bound. induction inputs as [|kv inputs IH]; intros bound; [by intros _ ? ?%elem_of_nil|].
  cbn [PlanBinding.bind_inputs].
  destruct (bind_products kv.2) as [v|e'] eqn:Hv; [|done].
  intros Hrest kv' [->|Hin]%elem_of_cons; [by eexists|]. by eapply IH.
Qed.

Lemma bind_products_leaf (path : list step) (item item' leaf : value) :
  value_at path item = Some leaf →
  is_leaf leaf = true →
  bind_products item = Ok item' →
  value_at path item' = match leaf with
                        | VPromise pr => products_by_promise !! PromiseM._key pr
                        | _ => Some leaf
                        end.
Proof.
  revert item item'. induction path as [|[k|i] path IH]; intros item item' Hat Hleaf Hbind.
  - simpl in Hat. injection Hat as ->. destruct leaf; try done; simpl in Hbind.
    + destruct (products_by_promise !! PromiseM._key p); [|done]. by injection Hbind as <-.
    + by injection Hbind as <-.
    + by injection Hbind as <-.
    + by injection Hbind as <-.
  - destruct item as [|entries| | | |]; try done. cbn [value_at] in Hat.
    destruct (dict_get k entries) as [v|] eqn:Hget; [|done]. simpl in Hat.
    cbn [PlanBinding.bind_products] in Hbind.
    destruct (outcome_map _ entries) as [bound|e] eqn:Hmap; [|done].
    injection Hbind as <-.
    destruct (outcome_map_entry _ _ _ _ _ Hmap Hget) as (v' & Hget' & Hv').
    cbn [value_at]. rewrite Hget'. simpl. by eapply IH.
  - destruct item as [| |elems| | |]; try done. cbn [value_at] in Hat.
    destruct (elems !! i) as [v|] eqn:Hget; [|done]. simpl in Hat.
    cbn [PlanBinding.bind_products] in Hbind.
    destruct (outcome_map _ elems) as [bound|e] eqn:Hmap; [|done].
    injection Hbind as <-.
    destruct (outcome_map_elem _ _ _ _ _ Hmap Hget) as (v' & Hget' & Hv').
    cbn [value_at]. rewrite Hget'. simpl. by eapply IH.
Qed.

End bind_outcome.

Lemma promises_of_inputs (p : Plan) (k : promise_key) :
  k ∈ PromiseM._key <$> PlanM.promises p ↔
  ∃ kv pr, kv ∈ _inputs p ∧ pr ∈ PlanM.iter_promises kv.2 ∧ PromiseM._key pr = k.
Proof.
  rewrite promises_keys. unfold PlanM._key. cbn [snd].
  rewrite (hashable_promises (VMapping (_inputs p))). cbn [PlanM.iter_promises].
  rewrite list_elem_of_fmap. split.
  - intros (pr & -> & Hpr). apply elem_of_flat_map in Hpr as (kv & Hin & Hpr).
    by exists kv, pr.
  - intros (kv & pr & Hin & Hpr & <-). exists pr. split; [done|].
    apply elem_of_flat_map. by exists kv.
Qed.

(** X3. [Plan.bind] returns a binding exactly when every promise of the plan
    has a product in [products_by_promise]; otherwise it raises the
    [KeyError] of a promise of the plan that has none.  The binding carries
    the categorization of the plan. *)
Theorem bind_needs_every_product :
  ∀ (products_by_promise : gmap promise_key value) (p : Plan),
    ((∃ b, PlanBinding.bind products_by_promise p = Ok b) ↔
     ∀ pr, pr ∈ PlanM.promises p → is_Some (products_by_promise !! PromiseM._key pr)) ∧
    (∀ e, PlanBinding.bind products_by_promise p = Raise e →
       ∃ pr, pr ∈ PlanM.promises p ∧
             products_by_promise !! PromiseM._key pr = None ∧
             e = KeyError (PromiseM._key pr)) ∧
    (∀ b, PlanBinding.bind products_by_promise p = Ok b → args b = _func_or_task_type p).
Proof.
  intros pbp p.
  assert (Hraise : ∀ e, PlanBinding.bind pbp p = Raise e →
            ∃ pr, pr ∈ PlanM.promises p ∧ pbp !! PromiseM._key pr = None ∧
                  e = KeyError (PromiseM._key pr)).
  { intros e. unfold PlanBinding.bind.
    destruct (PlanBinding.bind_inputs pbp (_inputs p) []) as [res|e'] eqn:Hres; [done|].
    intros [= ->]. apply bind_inputs_raise in Hres as (kv & Hin & Hkv).
    apply bind_products_raise in Hkv as (pr & Hpr & Hnone & ->).
    assert (Hk : PromiseM._key pr ∈ PromiseM._key <$> PlanM.promises p).
    { apply promises_of_inputs. by exists kv, pr. }
    apply list_elem_of_fmap in Hk as (pr' & Heq & Hpr').
    exists pr'. by rewrite <- Heq. }
  split; [split|split; [exact Hraise|]].
  - intros [b Hb] pr Hpr. unfold PlanBinding.bind in Hb.
    destruct (PlanBinding.bind_inputs pbp (_inputs p) []) as [res|e'] eqn:Hres; [|done].
    assert (Hk : PromiseM._key pr ∈ PromiseM._key <$> PlanM.promises p).
    { apply list_elem_of_fmap. by exists pr. }
    apply promises_of_inputs in Hk as (kv & pr' & Hin & Hpr' & <-).
    destruct (bind_inputs_ok _ _ _ _ Hres kv Hin) as [v Hv].
    by eapply bind_products_ok.
  - intros Hall. destruct (PlanBinding.bind pbp p) as [b|e] eqn:Hb; [by eexists|].
    destruct (Hraise e eq_refl) as (pr & Hpr & Hnone & _).
    destruct (Hall pr Hpr) as [? ?]. congruence.
  - intros b. unfold PlanBinding.bind.
    destruct (PlanBinding.bind_inputs pbp (_inputs p) []); [|done]. by intros [= <-].
Qed.

(** X4. In the binding [Plan.bind] returns, every input keeps its name, and
    at every position of a leaf of the input tree stands the product of the
    promise, when the leaf is a promise, and the leaf itself otherwise. *)
Theorem bind_puts_products_in_place :
  ∀ (products_by_promise : gmap promise_key value) (p : Plan) (b : Binding)
    (name : string) (v : value) (path : list step) (leaf : value),
    NoDup ((λ kv, kv.1) <$> _inputs p) →
    PlanBinding.bind products_by_promise p = Ok b →
    dict_get name (_inputs p) = Some v →
    value_at path v = Some leaf →
    is_leaf leaf = true →
    ∃ v', dict_get name (kwargs b) = Some v' ∧
          value_at path v' = match leaf with
                             | VPromise pr => products_by_promise !! PromiseM._key pr
                             | _ => Some leaf
                             end ∧
          is_Some (value_at path v').
Proof.
  intros pbp p b name v path leaf Hnodup Hbind Hget Hat Hleaf.
  pose proof Hbind as Hb. unfold PlanBinding.bind in Hbind.
  destruct (PlanBinding.bind_inputs pbp (_inputs p) []) as [res|e] eqn:Hres; [|done].
  injection Hbind as <-. cbn [kwargs].
  destruct (bind_inputs_entry pbp _ _ _ _ _ Hnodup Hres Hget) as (v' & Hget' & Hv').
  exists v'. split; [done|].
  pose proof (bind_products_leaf pbp _ _ _ _ Hat Hleaf Hv') as Hplace.
  split; [done|]. rewrite Hplace.
  destruct leaf; try done; try by eexists.
  eapply bind_products_ok; [exact Hv'|]. by eapply value_at_promise.
Qed.

Lemma bind_puts_products_in_place_witness :
  NoDup ((λ kv, kv.1) <$> _inputs javac_plan) ∧
  PlanBinding.bind generated_sources javac_plan = Ok javac_binding ∧
  dict_get "sources" (_inputs javac_plan) = Some (VSeq [VStr "A.java"; VPromise gen_promise]) ∧
  value_at [Index 1] (VSeq [VStr "A.java"; VPromise gen_promise]) = Some (VPromise gen_promise) ∧
  ∃ v', dict_get "sources" (kwargs javac_binding) = Some v' ∧
        value_at [Index 1] v' = generated_sources !! PromiseM._key gen_promise ∧
        is_Some (value_at [Index 1] v').
Proof.
  assert (Hnodup : NoDup ((λ kv, kv.1) <$> _inputs javac_plan))
    by (apply (bool_decide_unpack _); vm_compute; exact I).
  assert (Hbind : PlanBinding.bind generated_sources javac_plan = Ok javac_binding)
    by (vm_compute; reflexivity).
  split; [exact Hnodup|]. split; [exact Hbind|]. split; [reflexivity|]. split; [reflexivity|].
  exact (bind_puts_products_in_place generated_sources javac_plan javac_binding "sources"
           (VSeq [VStr "A.java"; VPromise gen_promise]) [Index 1] (VPromise gen_promise)
           Hnodup Hbind eq_refl eq_refl eq_refl).
Defined.

(** ** ExecutionGraph.walk on any graph *)

Section walk_any.

Variable product_mapper : gmap promise_key Plan.

Local Abbreviation promised := (ProductMapper.promised product_mapper).
Local Abbreviation walk_plan := (ExecutionGraphM._walk_plan product_mapper).

(** Every promise of [p] has a plan, with an equal plan in [plans]. *)
Local Abbreviation settled plans p :=
  (∀ input, input ∈ PlanM.promises p →
     ∃ q, promised input = Some q ∧ PlanM._key q ∈ keys_of plans).

Lemma keys_of_app_l (plans added : list Plan) (k : PlanM.plan_key) :
  k ∈ keys_of plans → k ∈ keys_of (plans ++ added).
Proof. intros Hk. unfold keys_of. rewrite fmap_app. apply elem_of_app. by left. Qed.

Lemma walk_promises_returns (fuel : nat) :
  (∀ pr plans,
     length (unseen product_mapper plans) < fuel →
     ∃ r added, walk_plan fuel pr plans = Some (r, plans ++ added) ∧
                ∀ e, r = Raise e → e = AttributeError) →
  ∀ inputs plans,
    length (unseen product_mapper plans) < fuel →
    ∃ r added,
      ExecutionGraphM.walk_promises (walk_plan fuel) inputs plans = Some (r, plans ++ added) ∧
      ∀ e, r = Raise e → e = AttributeError.
Proof.
  intros Hplan. induction inputs as [|input inputs IH]; intros plans Hfuel.
  { exists (Ok []), []. by rewrite app_nil_r. }
  destruct (Hplan input plans Hfuel) as (r1 & added1 & Hrun1 & He1).
  cbn [ExecutionGraphM.walk_promises]. rewrite Hrun1. destruct r1 as [out1|e1].
  - destruct (IH (plans ++ added1)) as (r2 & added2 & Hrun2 & He2).
    { eapply Nat.le_lt_trans; [|exact Hfuel]. apply unseen_mono. intros k. apply keys_of_app_l. }
    rewrite Hrun2, <- app_assoc. destruct r2 as [out2|e2].
    + exists (Ok (out1 ++ out2)), (added1 ++ added2). by split.
    + exists (Raise e2), (added1 ++ added2). by split.
  - exists (Raise e1), added1. by split.
Qed.

Lemma walk_plan_returns (fuel : nat) :
  ∀ pr plans,
    length (unseen product_mapper plans) < fuel →
    ∃ r added, walk_plan fuel pr plans = Some (r, plans ++ added) ∧
               ∀ e, r = Raise e → e = AttributeError.
Proof.
  induction fuel as [|fuel IH]; intros pr plans Hfuel; [lia|].
  cbn [ExecutionGraphM._walk_plan].
  destruct (promised pr) as [p|] eqn:Hp.
  2:{ exists (Raise AttributeError), []. rewrite app_nil_r. split; [done|]. by intros e [= <-]. }
  destruct (existsb (PlanM.eq p) plans) eqn:Hseen.
  { exists (Ok []), []. by rewrite app_nil_r. }
  assert (Hnew : PlanM._key p ∉ keys_of plans).
  { intros Hin. apply plan_seen in Hin. congruence. }
  destruct (walk_promises_returns fuel IH (PlanM.promises p) (plans ++ [p]))
    as (r & added & Hrun & He).
  { pose proof (unseen_add product_mapper plans pr p Hp Hnew). lia. }
  rewrite Hrun, <- app_assoc. destruct r as [out|e].
  - exists (Ok (out ++ [(pr, p)])), ([p] ++ added). by split.
  - exists (Raise e), ([p] ++ added). by split.
Qed.

Lemma walk_promises_settles (fuel : nat) :
  (∀ pr plans out plans',
     walk_plan fuel pr plans = Some (Ok out, plans') →
     ∃ added, plans' = plans ++ added ∧
              (∃ p, promised pr = Some p ∧ PlanM._key p ∈ keys_of plans') ∧
              ∀ q, q ∈ added → settled plans' q) →
  ∀ inputs plans out plans',
    ExecutionGraphM.walk_promises (walk_plan fuel) inputs plans = Some (Ok out, plans') →
    ∃ added, plans' = plans ++ added ∧
             (∀ input, input ∈ inputs →
                ∃ p, promised input = Some p ∧ PlanM._key p ∈ keys_of plans') ∧
             ∀ q, q ∈ added → settled plans' q.
Proof.
  intros Hplan. induction inputs as [|input inputs IH]; intros plans out plans' Hrun.
  { injection Hrun as <- <-. exists []. rewrite app_nil_r. split; [done|].
    split; [by intros ? ?%elem_of_nil|by intros ? ?%elem_of_nil]. }
  cbn [ExecutionGraphM.walk_promises] in Hrun.
  destruct (walk_plan fuel input plans) as [[[out1|e1] plans1]|] eqn:Hrun1; try done.
  destruct (ExecutionGraphM.walk_promises _ inputs plans1) as [[[out2|e2] plans2]|] eqn:Hrun2;
    try done.
  injection Hrun as <- <-.
  destruct (Hplan _ _ _ _ Hrun1) as (added1 & -> & (p & Hp & Hkp) & Hset1).
  destruct (IH _ _ _ Hrun2) as (added2 & -> & Hin2 & Hset2).
  exists (added1 ++ added2). split; [by rewrite app_assoc|]. split.
  - intros c [->|Hc]%elem_of_cons; [|by apply Hin2].
    exists p. split; [done|]. by apply keys_of_app_l.
  - intros q [Hq|Hq]%elem_of_app; [|by apply Hset2].
    intros c Hc. destruct (Hset1 q Hq c Hc) as (r & Hr & Hk).
    exists r. split; [done|]. by apply keys_of_app_l.
Qed.

Lemma walk_plan_settles (fuel : nat) :
  ∀ pr plans out plans',
    walk_plan fuel pr plans = Some (Ok out, plans') →
    ∃ added, plans' = plans ++ added ∧
             (∃ p, promised pr = Some p ∧ PlanM._key p ∈ keys_of plans') ∧
             ∀ q, q ∈ added → settled plans' q.
Proof.
  induction fuel as [|fuel IH]; intros pr plans out plans' Hrun; [done|].
  cbn [ExecutionGraphM._walk_plan] in Hrun.
  destruct (promised pr) as [p|] eqn:Hp; [|done].
  destruct (existsb (PlanM.eq p) plans) eqn:Hseen.
  { injection Hrun as <- <-. exists []. rewrite app_nil_r. split; [done|]. split.
    - exists p. split; [done|]. by apply plan_seen.
    - by intros ? ?%elem_of_nil. }
  destruct (ExecutionGraphM.walk_promises _ _ _) as [[[out1|e1] plans1]|] eqn:Hrun1; try done.
  injection Hrun as <- <-.
  destruct (walk_promises_settles fuel IH _ _ _ _ Hrun1) as (added & -> & Hinputs & Hset).
  exists ([p] ++ added). split; [by rewrite app_assoc|]. split.
  - exists p. split; [done|]. apply keys_of_app_l. unfold keys_of. rewrite fmap_app.
    apply elem_of_app. right. by apply list_elem_of_singleton.
  - intros q [->%list_elem_of_singleton|Hq]%elem_of_app; [exact Hinputs|by apply Hset].
Qed.

Lemma settled_resolves (roots : list Promise) (plans : list Plan) :
  (∀ root, root ∈ roots →
     ∃ p, promised root = Some p ∧ PlanM._key p ∈ keys_of plans) →
  (∀ q, q ∈ plans → settled plans q) →
  resolves product_mapper roots.
Proof.
  intros Hroots Hset.
  assert (Hall : ∀ pr, reachable_promise product_mapper roots pr →
            ∃ p, promised pr = Some p ∧ PlanM._key p ∈ keys_of plans).
  { induction 1 as [pr Hroot|pr p pr' _ IH Hp Hpr']; [by apply Hroots|].
    destruct IH as (p0 & Hp0 & Hk). assert (p0 = p) as -> by congruence.
    apply list_elem_of_fmap in Hk as (q & Hkey & Hq).
    destruct (promises_proper p q pr' Hkey Hpr') as (input & Hinput & Hsame).
    destruct (Hset q Hq input Hinput) as (r & Hr & Hkr).
    exists r. split; [|done]. unfold ProductMapper.promised in *. by rewrite <- Hsame. }
  intros pr Hpr. destruct (Hall pr Hpr) as (p & -> & _). by eexists.
Qed.

End walk_any.

(** X5. [ExecutionGraph.walk] comes back on every execution graph, cyclic or
    not, as soon as the fuel exceeds the number of registered promises.  It
    returns normally exactly when every promise reachable from the roots has
    a plan; otherwise it raises, and the error is the [AttributeError] of
    the access to the promises of a missing plan. *)
Theorem walk_returns_or_misses_a_plan :
  ∀ (self : ExecutionGraph) (fuel : nat),
    size (graph_product_mapper self) < fuel →
    ∃ r, ExecutionGraphM.walk fuel self = Some r ∧
         ((∃ yielded, r = Ok yielded) ↔
          resolves (graph_product_mapper self) (root_promises self)) ∧
         (∀ e, r = Raise e → e = AttributeError).
Proof.
  intros [roots m] fuel Hfuel. cbn [graph_product_mapper root_promises] in *.
  unfold ExecutionGraphM.walk. cbn [graph_product_mapper root_promises].
  destruct (walk_promises_returns m fuel (walk_plan_returns m fuel) roots [])
    as (r & added & Hrun & He).
  { pose proof (unseen_size m []). lia. }
  rewrite Hrun. exists r. split; [done|]. split; [|done]. split.
  - intros [yielded ->].
    destruct (walk_promises_settles m fuel (walk_plan_settles m fuel) _ _ _ _ Hrun)
      as (added' & Heq & Hroots & Hset).
    apply (settled_resolves m roots ([] ++ added)); [done|].
    intros q Hq. apply Hset. simpl in Heq. by rewrite <- Heq.
  - intros Hres.
    destruct (walk_promises_ok m roots fuel (walk_plan_ok m roots Hres fuel) roots [])
      as (out & plans' & Hok & _).
    { pose proof (unseen_size m []). lia. }
    { intros root Hroot. by constructor. }
    rewrite Hok in Hrun. injection Hrun as <- _. by eexists.
Qed.

Lemma walk_returns_or_misses_a_plan_witness :
  size (graph_product_mapper dangling_graph) < 1 ∧
  ∃ r, ExecutionGraphM.walk 1 dangling_graph = Some r ∧
       ((∃ yielded, r = Ok yielded) ↔
        resolves (graph_product_mapper dangling_graph) (root_promises dangling_graph)) ∧
       (∀ e, r = Raise e → e = AttributeError).
Proof.
  assert (Hsize : size (graph_product_mapper dangling_graph) < 1).
  { vm_compute. lia. }
  split; [exact Hsize|]. exact (walk_returns_or_misses_a_plan dangling_graph 1 Hsize).
Defined.

(** ** LocalScheduler.promise when no planner applies *)

Lemma request_plans_none (Products_for_subject : obj → list pytype) (fuel : nat)
    (self : LocalScheduler) (promise : obj → pytype → option obj → M Promise)
    (product_type : pytype) (subject : obj) (configuration : option obj)
    (registered : list (TaskPlanner * DNF)) :
  ∀ (candidates : partials) (plans : list (planner_ref * Plan)) (st : SchedulerState),
    yield_planners fuel (_planners self) (Products_for_subject subject) configuration
      registered candidates = Some [] →
    request_plans Products_for_subject fuel self promise product_type subject configuration
      registered candidates plans st = Some (Ok plans, st).
Proof.
  induction registered as [|[planner clauses] rest IH]; intros candidates plans st Hnone; [done|].
  cbn [request_plans yield_planners] in Hnone |- *.
  destruct (planner_applies _ _ _ _ _ _ _) as [[yielded candidates']|]; [|done].
  destruct (yield_planners _ _ _ _ rest _) as [planners|] eqn:Hrest; [|done].
  destruct yielded; [done|]. injection Hnone as ->. by apply IH.
Qed.

(** X6. [promise] for a product that is not promised yet and that no
    registered planner applies to depends on the native products of the
    subject alone: it raises [NoProducersError] and leaves the scheduler as
    it was when the subject does not carry the product; it registers the
    plan that lifts the product off the subject, records it under
    [NoPlanner] and returns its promise when the subject lists the product
    once; and it raises [ConflictingProducersError] when the subject lists
    the product several times. *)
Theorem promise_without_planner :
  ∀ (Products_for_subject : obj → list pytype) (fuel : nat) (self : LocalScheduler)
    (subject : obj) (product_type : pytype) (configuration : option obj)
    (st : SchedulerState),
    let subject' := match subject with Address spec => _graph self spec | _ => subject end in
    ProductMapper.promised (_product_mapper st)
      (PromiseM.init product_type (inr subject') configuration) = None →
    for_product_type_and_subject Products_for_subject fuel (_planners self) product_type
      subject' configuration = Some [] →
    promise Products_for_subject (S fuel) self subject product_type configuration st
    = match length (filter (λ n, n = product_type) (Products_for_subject subject')) with
      | 0 => Some (Raise (NoProducersError product_type subject'), st)
      | 1 =>
          Some (Ok (PromiseM.init product_type (inr subject') configuration),
                mkState (<[(product_type, subject', configuration) :=
                             native_plan product_type subject']> (_product_mapper st))
                  (record_plan NoPlanner product_type (native_plan product_type subject')
                     (_plans_by_product_type_by_planner st)))
      | S (S n) =>
          Some (Raise (ConflictingProducersError product_type subject'
                         (replicate (S (S n)) NoPlanner)), st)
      end.
Proof.
  intros Pfs fuel self subject product_type configuration st subject' Hmiss Hnone.
  rewrite (promise_slow_path Pfs fuel self subject product_type configuration st st
             (replicate (length (filter (λ n, n = product_type) (Pfs subject')))
                (NoPlanner, native_plan product_type subject'))); [|exact Hmiss|].
  2:{ unfold candidate_plans, M_bind.
      rewrite (request_plans_none Pfs fuel self _ product_type subject' configuration _ ∅ [] st
                 Hnone).
      by rewrite lift_native_products_all. }
  fold subject'. destruct (length _) as [|[|n]]; [done| |].
  - cbn [replicate]. rewrite settle_one_plan. cbn.
    rewrite decide_True by done. rewrite bool_decide_eq_true_2 by done. done.
  - unfold settle_plans. cbn [replicate length]. cbn [Nat.ltb Nat.leb].
    by rewrite !fmap_cons, fmap_replicate.
Qed.

Lemma promise_without_planner_witness :
  ProductMapper.promised (_product_mapper initial_state)
    (PromiseM.init "Sources" (inr java_library) None) = None ∧
  for_product_type_and_subject sources_for_subject 0 (_planners javac_scheduler) "Sources"
    java_library None = Some [] ∧
  promise sources_for_subject 1 javac_scheduler java_library "Sources" None initial_state
  = Some (Ok (PromiseM.init "Sources" (inr java_library) None), sources_promised).
Proof.
  split; [reflexivity|]. split; [reflexivity|].
  exact (promise_without_planner sources_for_subject 0 javac_scheduler java_library "Sources"
           None initial_state eq_refl eq_refl).
Defined.

(** ** What scheduling does to the product mapper *)

Lemma M_bind_steps {A B : Type} (R : relation (gmap promise_key Plan)) (c : M A) (k : A → M B) :
  Transitive R → steps R c → (∀ a, steps R (k a)) → steps R (M_bind c k).
Proof.
  intros Htrans Hc Hk st r st' Hrun. unfold M_bind in Hrun.
  destruct (c st) as [[[a|e] st1]|] eqn:Hcst; [| |done].
  - etransitivity; [by eapply Hc|by eapply Hk].
  - injection Hrun as <- <-. by eapply Hc.
Qed.

Lemma M_ret_steps {A : Type} (R : relation (gmap promise_key Plan)) (a : A) :
  Reflexive R → steps R (M_ret a).
Proof. intros Hrefl st r st' [= <- <-]. reflexivity. Qed.

Section scheduling_steps.

Variable R : relation (gmap promise_key Plan).

Hypothesis R_refl : Reflexive R.
Hypothesis R_trans : Transitive R.

Hypothesis R_register : ∀ m product_type p primary_subject configuration,
  R m (ProductMapper.register_promises m product_type p primary_subject configuration).2.

Variables (Products_for_subject : obj → list pytype) (self : LocalScheduler).

Hypothesis planners_respect : ∀ product_type planner ored_clauses,
  (planner, ored_clauses) ∈ PlannersM.requirements (_planners self) product_type →
  planner_respects R planner.

Lemma request_plans_steps (fuel : nat) (promise : obj → pytype → option obj → M Promise)
    (product_type : pytype) (subject : obj) (configuration : option obj)
    (registered : list (TaskPlanner * DNF)) :
  (∀ s pt c, steps R (promise s pt c)) →
  (∀ planner ored_clauses, (planner, ored_clauses) ∈ registered → planner_respects R planner) →
  ∀ candidates plans,
    steps R (request_plans Products_for_subject fuel self promise product_type subject
               configuration registered candidates plans).
Proof.
  intros Hpromise. induction registered as [|[planner clauses] rest IH];
    intros Hreg candidates plans.
  { by apply M_ret_steps. }
  cbn [request_plans].
  assert (Hrest : ∀ planner ored_clauses,
            (planner, ored_clauses) ∈ rest → planner_respects R planner).
  { intros p c Hin. apply (Hreg p c), elem_of_cons. by right. }
  destruct (planner_applies _ _ _ _ _ _ _) as [[[|] candidates']|]; [| |done].
  - apply M_bind_steps; [done| |intros planned; by apply IH].
    apply (Hreg planner clauses); [apply elem_of_cons; by left|done].
  - by apply IH.
Qed.

Lemma settle_plans_steps (product_type : pytype) (subject : obj) (configuration : option obj)
    (plans : list (planner_ref * Plan)) :
  steps R (settle_plans product_type subject configuration plans).
Proof.
  intros st r st'. unfold settle_plans.
  destruct (1 <? length plans); [by intros [= <- <-]|].
  destruct plans as [|[planner p] plans]; [by intros [= <- <-]|].
  pose proof (R_register (_product_mapper st) product_type p (Some subject) configuration) as Hreg.
  destruct (ProductMapper.register_promises _ _ _ _ _) as [[[primary|]|e] mapper];
    cbn [snd] in Hreg.
  - by intros [= <- <-].
  - by intros [= <- <-].
  - destruct e; by intros [= <- <-].
Qed.

Lemma promise_steps (fuel : nat) :
  ∀ subject product_type configuration,
    steps R (promise Products_for_subject fuel self subject product_type configuration).
Proof.
  induction fuel as [|fuel IH]; intros subject product_type configuration st r st' Hrun; [done|].
  cbn [promise] in Hrun.
  destruct (ProductMapper.promised _ _); [by injection Hrun as <- <-|].
  revert Hrun. apply M_bind_steps; [done| |intros plans; apply settle_plans_steps].
  unfold candidate_plans. apply M_bind_steps; [done| |].
  - apply request_plans_steps; [exact IH|]. intros planner clauses. apply planners_respect.
  - intros plans st0 r0 st0'. rewrite lift_native_products_all. by intros [= <- <-].
Qed.

Lemma promise_all_steps (fuel : nat) (subject : obj) (product_types : list pytype) :
  ∀ root_promises,
    steps R (promise_all Products_for_subject fuel self subject product_types root_promises).
Proof.
  induction product_types as [|product_type rest IH]; intros root_promises.
  { by apply M_ret_steps. }
  cbn [promise_all]. apply M_bind_steps; [done|apply promise_steps|intros p; apply IH].
Qed.

Lemma promise_subjects_steps (fuel : nat) (subjects : list obj) (product_types : list pytype) :
  ∀ root_promises,
    steps R (promise_subjects Products_for_subject fuel self subjects product_types
               root_promises).
Proof.
  induction subjects as [|subject rest IH]; intros root_promises.
  { by apply M_ret_steps. }
  cbn [promise_subjects]. apply M_bind_steps; [done| |].
  - intros st r st'. unfold lift_outcome.
    destruct (produced_types_for_subject _ _ _ _ _); [|done]. by intros [= <- <-].
  - intros produced. apply M_bind_steps; [done|apply promise_all_steps|intros ?; apply IH].
Qed.

Lemma promise_goals_steps (fuel : nat) (goals : list string) (subjects : list obj) :
  ∀ root_promises,
    steps R (promise_goals Products_for_subject fuel self goals subjects root_promises).
Proof.
  induction goals as [|goal rest IH]; intros root_promises.
  { by apply M_ret_steps. }
  cbn [promise_goals].
  apply M_bind_steps; [done|apply promise_subjects_steps|intros ?; apply IH].
Qed.

Lemma register_finalized_steps (product_type : pytype) (finalized_plans : list Plan) :
  ∀ mapper, R mapper (register_finalized product_type finalized_plans mapper).
Proof.
  unfold register_finalized.
  induction finalized_plans as [|p rest IH]; intros mapper; [reflexivity|].
  cbn [fold_left]. etransitivity; [apply R_register|apply IH].
Qed.

Lemma finalization_pass_steps (index : list (planner_ref * list (pytype * list Plan))) :
  ∀ mapper, R mapper (finalization_pass self index mapper).
Proof.
  unfold finalization_pass.
  induction index as [|by_planner rest IH]; intros mapper; [reflexivity|].
  cbn [fold_left]. etransitivity; [|apply IH].
  generalize (by_planner.2). clear IH. intros l. revert mapper.
  induction l as [|by_product_type l IHl]; intros mapper; [reflexivity|].
  cbn [fold_left]. etransitivity; [|apply IHl].
  destruct (finalize self by_planner.1 by_product_type.2); [|reflexivity].
  apply register_finalized_steps.
Qed.

Lemma execution_graph_steps (fuel : nat) (build_request : BuildRequest) :
  steps R (execution_graph Products_for_subject fuel self build_request).
Proof.
  unfold execution_graph. apply M_bind_steps; [done|apply promise_goals_steps|].
  intros root_promises st r st' [= <- <-]. apply finalization_pass_steps.
Qed.

End scheduling_steps.

Lemma keeps_promises_refl : Reflexive keeps_promises.
Proof. by intros m k. Qed.

Lemma keeps_promises_trans : Transitive keeps_promises.
Proof. intros m1 m2 m3 H12 H23 k Hk. by apply H23, H12. Qed.

Lemma stays_covered_refl : Reflexive stays_covered.
Proof. by intros m Hm. Qed.

Lemma stays_covered_trans : Transitive stays_covered.
Proof. intros m1 m2 m3 H12 H23 Hm. by apply H23, H12. Qed.

Lemma register_promises_stays_covered (m : gmap promise_key Plan) (product_type : pytype)
    (p : Plan) (primary_subject configuration : option obj) :
  stays_covered m
    (ProductMapper.register_promises m product_type p primary_subject configuration).2.
Proof.
  intros Hm pt s c q. rewrite register_promises_lookup. case_bool_decide as Hk.
  - intros [= <-]. apply list_elem_of_fmap in Hk as (s0 & Hkey & Hs0).
    injection Hkey as -> -> ->. apply list_elem_of_fmap. by exists s0.
  - apply Hm.
Qed.

Lemma javac_planner_respects (R : relation (gmap promise_key Plan)) :
  Reflexive R → Transitive R → planner_respects R javac_planner.
Proof.
  intros Hrefl Htrans promise Hpromise product_type subject configuration.
  cbn [plan javac_planner]. apply M_bind_steps; [done|apply Hpromise|].
  intros sources. by apply M_ret_steps.
Qed.

Lemma javac_scheduler_planners (R : relation (gmap promise_key Plan)) :
  Reflexive R → Transitive R →
  ∀ product_type planner ored_clauses,
    (planner, ored_clauses) ∈ PlannersM.requirements (_planners javac_scheduler) product_type →
    planner_respects R planner.
Proof.
  intros Hrefl Htrans product_type planner clauses. unfold PlannersM.requirements. cbn.
  destruct (String.eqb product_type "Classes"); cbn.
  - intros [= -> _]%list_elem_of_singleton. by apply javac_planner_respects.
  - by intros ?%elem_of_nil.
Qed.

Section roots_planned.

Variables (Products_for_subject : obj → list pytype) (self : LocalScheduler).

Hypothesis planners_keep : ∀ product_type planner ored_clauses,
  (planner, ored_clauses) ∈ PlannersM.requirements (_planners self) product_type →
  planner_respects keeps_promises planner.

Local Abbreviation planned st root_promises :=
  (∀ p : Promise, p ∈ root_promises → is_Some (_product_mapper st !! PromiseM._key p)).

Lemma promise_all_planned (fuel : nat) (subject : obj) (product_types : list pytype) :
  ∀ roots0 roots st st',
    planned st roots0 →
    promise_all Products_for_subject fuel self subject product_types roots0 st
      = Some (Ok roots, st') →
    planned st' roots.
Proof.
  induction product_types as [|product_type rest IH]; intros roots0 roots st st' Hroots0 Hrun.
  { by injection Hrun as <- <-. }
  cbn [promise_all] in Hrun. unfold M_bind at 1 in Hrun.
  destruct (promise _ _ _ _ _ _ st) as [[[p|e] st1]|] eqn:Hp; [|done|done].
  eapply IH; [|exact Hrun].
  intros q [Hq|Hq%list_elem_of_singleton]%elem_of_app; [|subst q].
  - eapply (promise_steps keeps_promises keeps_promises_refl keeps_promises_trans
              register_promises_keeps Products_for_subject self planners_keep); [exact Hp|].
    by apply Hroots0.
  - destruct (promise_registered _ _ _ _ _ _ _ _ _ Hp) as [-> Hsome]. exact Hsome.
Qed.

Lemma promise_subjects_planned (fuel : nat) (subjects : list obj) (product_types : list pytype) :
  ∀ roots0 roots st st',
    planned st roots0 →
    promise_subjects Products_for_subject fuel self subjects product_types roots0 st
      = Some (Ok roots, st') →
    planned st' roots.
Proof.
  induction subjects as [|subject rest IH]; intros roots0 roots st st' Hroots0 Hrun.
  { by injection Hrun as <- <-. }
  cbn [promise_subjects] in Hrun. unfold M_bind at 1, lift_outcome in Hrun.
  destruct (produced_types_for_subject _ _ _ _ _) as [[produced|e]|]; [|done|done].
  unfold M_bind at 1 in Hrun.
  destruct (promise_all _ _ _ _ _ _ st) as [[[roots1|e] st1]|] eqn:Hall; [|done|done].
  eapply IH; [|exact Hrun]. by eapply promise_all_planned.
Qed.

Lemma promise_goals_planned (fuel : nat) (goals : list string) (subjects : list obj) :
  ∀ roots0 roots st st',
    planned st roots0 →
    promise_goals Products_for_subject fuel self goals subjects roots0 st
      = Some (Ok roots, st') →
    planned st' roots.
Proof.
  induction goals as [|goal rest IH]; intros roots0 roots st st' Hroots0 Hrun.
  { by injection Hrun as <- <-. }
  cbn [promise_goals] in Hrun. unfold M_bind at 1 in Hrun.
  destruct (promise_subjects _ _ _ _ _ _ st) as [[[roots1|e] st1]|] eqn:Hall; [|done|done].
  eapply IH; [|exact Hrun]. by eapply promise_subjects_planned.
Qed.

End roots_planned.

(** X7. When the planners only change the product mapper through the
    [promise] method they are handed, and so never drop a promise,
    [execution_graph] drops none either: a promise that had a plan before the
    call has one in the graph it returns, and so has every root promise of
    the graph.  The mapper of the graph is the one the scheduler keeps. *)
Theorem execution_graph_plans_its_roots :
  ∀ (Products_for_subject : obj → list pytype) (fuel : nat) (self : LocalScheduler)
    (build_request : BuildRequest) (st st' : SchedulerState) (graph : ExecutionGraph),
    (∀ product_type planner ored_clauses,
       (planner, ored_clauses) ∈ PlannersM.requirements (_planners self) product_type →
       planner_respects keeps_promises planner) →
    execution_graph Products_for_subject fuel self build_request st = Some (Ok graph, st') →
    graph_product_mapper graph = _product_mapper st' ∧
    (∀ p, is_Some (ProductMapper.promised (_product_mapper st) p) →
          is_Some (ProductMapper.promised (graph_product_mapper graph) p)) ∧
    (∀ p, p ∈ root_promises graph →
          is_Some (ProductMapper.promised (graph_product_mapper graph) p)).
Proof.
  intros Pfs fuel self build_request st st' graph Hkeep Hrun.
  pose proof (execution_graph_steps keeps_promises keeps_promises_refl keeps_promises_trans
                register_promises_keeps Pfs self Hkeep fuel build_request _ _ _ Hrun) as Hsteps.
  unfold execution_graph, M_bind in Hrun.
  destruct (promise_goals _ _ _ _ _ _ st) as [[[roots|e] st1]|] eqn:Hgoals; [|done|done].
  injection Hrun as <- <-. cbn [graph_product_mapper root_promises _product_mapper] in *.
  split; [done|]. split; [intros p; apply Hsteps|].
  intros p Hp.
  apply (finalization_pass_steps keeps_promises keeps_promises_refl keeps_promises_trans
           register_promises_keeps self).
  eapply (promise_goals_planned Pfs self Hkeep); [|exact Hgoals|exact Hp].
  by intros ? ?%elem_of_nil.
Qed.

Lemma execution_graph_plans_its_roots_witness :
  (∀ product_type planner ored_clauses,
     (planner, ored_clauses) ∈ PlannersM.requirements (_planners javac_scheduler) product_type →
     planner_respects keeps_promises planner) ∧
  execution_graph sources_for_subject 4 javac_scheduler (mkBuildRequest ["compile"] ["lib"])
    initial_state = Some (Ok javac_graph, javac_session) ∧
  ∀ p, p ∈ root_promises javac_graph →
       is_Some (ProductMapper.promised (graph_product_mapper javac_graph) p).
Proof.
  assert (Hrun : execution_graph sources_for_subject 4 javac_scheduler
                   (mkBuildRequest ["compile"] ["lib"]) initial_state
                 = Some (Ok javac_graph, javac_session)) by reflexivity.
  split; [exact (javac_scheduler_planners _ keeps_promises_refl keeps_promises_trans)|].
  split; [exact Hrun|].
  exact (proj2 (proj2 (execution_graph_plans_its_roots _ _ _ _ _ _ _
                         (javac_scheduler_planners _ keeps_promises_refl keeps_promises_trans)
                         Hrun))).
Defined.

(** X8. [register_promises] stores a plan under promises for the subjects of
    the plan only.  Hence, when the planners only change the product mapper
    through the [promise] method they are handed, [promise] and
    [execution_graph] keep the mapper covered, whether they return or raise:
    if every registered plan had the subject of its promise among its own
    subjects before the call, this is so after the call. *)
Theorem plans_stay_on_their_subjects :
  ∀ (Products_for_subject : obj → list pytype) (self : LocalScheduler),
    (∀ product_type planner ored_clauses,
       (planner, ored_clauses) ∈ PlannersM.requirements (_planners self) product_type →
       planner_respects stays_covered planner) →
    (∀ m product_type p primary_subject configuration,
       covers m →
       covers (ProductMapper.register_promises m product_type p primary_subject
                 configuration).2) ∧
    (∀ fuel subject product_type configuration st r st',
       promise Products_for_subject fuel self subject product_type configuration st
         = Some (r, st') →
       covers (_product_mapper st) → covers (_product_mapper st')) ∧
    (∀ fuel build_request st r st',
       execution_graph Products_for_subject fuel self build_request st = Some (r, st') →
       covers (_product_mapper st) → covers (_product_mapper st')).
Proof.
  intros Pfs self Hplanners. split; [|split].
  - intros m product_type p primary_subject configuration.
    apply register_promises_stays_covered.
  - intros fuel subject product_type configuration.
    apply (promise_steps stays_covered stays_covered_refl stays_covered_trans
             register_promises_stays_covered Pfs self Hplanners).
  - intros fuel build_request.
    apply (execution_graph_steps stays_covered stays_covered_refl stays_covered_trans
             register_promises_stays_covered Pfs self Hplanners).
Qed.

Lemma plans_stay_on_their_subjects_witness :
  (∀ product_type planner ored_clauses,
     (planner, ored_clauses) ∈ PlannersM.requirements (_planners javac_scheduler) product_type →
     planner_respects stays_covered planner) ∧
  execution_graph sources_for_subject 4 javac_scheduler (mkBuildRequest ["compile"] ["lib"])
    initial_state = Some (Ok javac_graph, javac_session) ∧
  covers (_product_mapper initial_state) ∧
  covers (_product_mapper javac_session).
Proof.
  assert (Hrun : execution_graph sources_for_subject 4 javac_scheduler
                   (mkBuildRequest ["compile"] ["lib"]) initial_state
                 = Some (Ok javac_graph, javac_session)) by reflexivity.
  assert (Hempty : covers (_product_mapper initial_state)).
  { intros product_type subject configuration p Hp. cbn in Hp.
    by rewrite lookup_empty in Hp. }
  split; [exact (javac_scheduler_planners _ stays_covered_refl stays_covered_trans)|].
  split; [exact Hrun|]. split; [exact Hempty|].
  exact (proj2 (proj2 (plans_stay_on_their_subjects sources_for_subject javac_scheduler
                         (javac_scheduler_planners _ stays_covered_refl stays_covered_trans)))
           4 _ initial_state _ _ Hrun Hempty).
Defined.

(** ** The root promises of an execution graph *)

Lemma existsb_eqb_elem (k : string) (s : list string) :
  existsb (String.eqb k) s = true ↔ k ∈ s.
Proof.
  rewrite existsb_exists. split.
  - intros (x & Hx & ->%String.eqb_eq). by apply list_elem_of_In.
  - intros Hk. exists k. split; [by apply list_elem_of_In|apply String.eqb_refl].
Qed.

Lemma add_by_eqb_elem (k x : string) (s : list string) :
  x ∈ add_by String.eqb k s ↔ x ∈ s ∨ x = k.
Proof.
  unfold add_by. destruct (existsb (String.eqb k) s) eqn:Hk.
  - apply existsb_eqb_elem in Hk. split; [by left|]. by intros [?| ->].
  - rewrite elem_of_app, list_elem_of_singleton. done.
Qed.

Lemma add_all_by_eqb_elem {A} (f : A → string) (l : list A) (s : list string) (x : string) :
  x ∈ fold_left (λ ordered entry, add_by String.eqb (f entry) ordered) l s ↔
  x ∈ s ∨ x ∈ f <$> l.
Proof.
  revert s. induction l as [|e l IH]; intros s; cbn [fold_left].
  - rewrite fmap_nil, elem_of_nil. tauto.
  - rewrite IH, add_by_eqb_elem, fmap_cons, elem_of_cons. tauto.
Qed.

Lemma goal_product_types_elem (self : LocalScheduler) (goal : string) (product_type : pytype) :
  product_type ∈ goal_product_types self goal ↔
  ∃ planner, planner ∈ PlannersM.for_goal (_planners self) goal ∧
             product_type ∈ (product_types planner).*1.
Proof.
  unfold goal_product_types.
  assert (Hfold : ∀ planners ordered,
            product_type ∈ fold_left (λ ordered planner,
                fold_left (λ ordered entry, add_by String.eqb entry.1 ordered)
                  (product_types planner) ordered) planners ordered ↔
            product_type ∈ ordered ∨
            ∃ planner, planner ∈ planners ∧ product_type ∈ (product_types planner).*1).
  { induction planners as [|planner planners IH]; intros ordered; cbn [fold_left].
    - split; [by left|]. intros [?|(? & ?%elem_of_nil & _)]; done.
    - rewrite IH, (add_all_by_eqb_elem fst). split.
      + intros [[?|?]|(p & Hp & Hpt)]; [by left| |].
        * right. exists planner. split; [apply elem_of_cons; by left|done].
        * right. exists p. split; [apply elem_of_cons; by right|done].
      + intros [?|(p & [->|Hp]%elem_of_cons & Hpt)]; [by left; left|by left; right|].
        right. by exists p. }
  rewrite Hfold. split; [|by right]. by intros [?%elem_of_nil|?].
Qed.

Lemma produced_types_returned (Products_for_subject : obj → list pytype) (fuel : nat)
    (self : Planners) (subject : obj) (output_product_types produced : list pytype) :
  produced_types_for_subject Products_for_subject fuel self subject output_product_types
    = Some (Ok produced) →
  produced = filter (λ o, producible fuel self (Products_for_subject subject) o = Some true)
               output_product_types.
Proof.
  unfold produced_types_for_subject.
  pose proof (producible_outputs_verdicts fuel self (Products_for_subject subject)
                output_product_types (mkAcc ∅ ∅)) as Hv.
  destruct (producible_outputs _ _ _ _ _) as [[l acc]|]; [|done].
  destruct (mapM _ output_product_types) as [verdicts|] eqn:Hm; [|done].
  cbn in Hv. injection Hv as Hl. intros Hres.
  assert (produced = l) as ->.
  { case_bool_decide; [by injection Hres|]. by destruct (last output_product_types). }
  rewrite Hl. apply kept_outputs. by apply mapM_Some_1.
Qed.

Section root_promises.

Variables (Products_for_subject : obj → list pytype) (self : LocalScheduler).

Local Abbreviation resolved subject :=
  (match subject with Address spec => _graph self spec | _ => subject end).

Lemma promise_all_roots (fuel : nat) (subject : obj) (product_types : list pytype) :
  ∀ roots0 roots st st',
    promise_all Products_for_subject fuel self subject product_types roots0 st
      = Some (Ok roots, st') →
    ∀ p, p ∈ roots →
      p ∈ roots0 ∨
      ∃ product_type, product_type ∈ product_types ∧
                      PromiseM._key p = (product_type, resolved subject, None).
Proof.
  induction product_types as [|product_type rest IH]; intros roots0 roots st st' Hrun p Hp.
  { injection Hrun as <- <-. by left. }
  cbn [promise_all] in Hrun. unfold M_bind at 1 in Hrun.
  destruct (promise _ _ _ _ _ _ st) as [[[p1|e] st1]|] eqn:Hp1; [|done|done].
  destruct (IH _ _ _ _ Hrun p Hp) as [[Hin|Hin%list_elem_of_singleton]%elem_of_app
                                      |(pt & Hpt & Hkey)].
  - by left.
  - subst p1. right. exists product_type. split; [apply elem_of_cons; by left|].
    by destruct (promise_registered _ _ _ _ _ _ _ _ _ Hp1) as [-> _].
  - right. exists pt. split; [apply elem_of_cons; by right|done].
Qed.

Lemma promise_subjects_roots (fuel : nat) (subjects : list obj) (product_types : list pytype) :
  ∀ roots0 roots st st',
    promise_subjects Products_for_subject fuel self subjects product_types roots0 st
      = Some (Ok roots, st') →
    ∀ p, p ∈ roots →
      p ∈ roots0 ∨
      ∃ subject product_type,
        subject ∈ subjects ∧ product_type ∈ product_types ∧
        producible fuel (_planners self) (Products_for_subject subject) product_type
          = Some true ∧
        PromiseM._key p = (product_type, resolved subject, None).
Proof.
  induction subjects as [|subject rest IH]; intros roots0 roots st st' Hrun p Hp.
  { injection Hrun as <- <-. by left. }
  cbn [promise_subjects] in Hrun. unfold M_bind at 1, lift_outcome in Hrun.
  destruct (produced_types_for_subject _ _ _ _ _) as [[produced|e]|] eqn:Hproduced;
    [|done|done].
  apply produced_types_returned in Hproduced.
  unfold M_bind at 1 in Hrun.
  destruct (promise_all _ _ _ _ _ _ st) as [[[roots1|e] st1]|] eqn:Hall; [|done|done].
  destruct (IH _ _ _ _ Hrun p Hp) as [Hin|(s & pt & Hs & Hpt & Hprod & Hkey)].
  - destruct (promise_all_roots _ _ _ _ _ _ _ Hall p Hin) as [?|(pt & Hpt & Hkey)]; [by left|].
    right. exists subject, pt. split; [apply elem_of_cons; by left|].
    rewrite Hproduced in Hpt. apply list_elem_of_filter in Hpt as [Hprod Hpt]. done.
  - right. exists s, pt. split; [apply elem_of_cons; by right|done].
Qed.

Lemma promise_goals_roots (fuel : nat) (goals : list string) (subjects : list obj) :
  ∀ roots0 roots st st',
    promise_goals Products_for_subject fuel self goals subjects roots0 st
      = Some (Ok roots, st') →
    ∀ p, p ∈ roots →
      p ∈ roots0 ∨
      ∃ goal subject product_type,
        goal ∈ goals ∧ subject ∈ subjects ∧ product_type ∈ goal_product_types self goal ∧
        producible fuel (_planners self) (Products_for_subject subject) product_type
          = Some true ∧
        PromiseM._key p = (product_type, resolved subject, None).
Proof.
  induction goals as [|goal rest IH]; intros roots0 roots st st' Hrun p Hp.
  { injection Hrun as <- <-. by left. }
  cbn [promise_goals] in Hrun. unfold M_bind at 1 in Hrun.
  destruct (promise_subjects _ _ _ _ _ _ st) as [[[roots1|e] st1]|] eqn:Hall; [|done|done].
  destruct (IH _ _ _ _ Hrun p Hp) as [Hin|(g & s & pt & Hg & Hs & Hpt & Hprod & Hkey)].
  - destruct (promise_subjects_roots _ _ _ _ _ _ _ Hall p Hin)
      as [?|(s & pt & Hs & Hpt & Hprod & Hkey)]; [by left|].
    right. exists goal, s, pt. split; [apply elem_of_cons; by left|done].
  - right. exists g, s, pt. split; [apply elem_of_cons; by right|done].
Qed.

End root_promises.

(** X9. Every root promise of the graph [execution_graph] returns is a
    promise without configuration, for a root of the build request (resolved
    in the BUILD graph, and once more when this gives an address), of a
    product type that a planner of a requested goal declares and that is
    derivable from the native products of the root. *)
Theorem root_promises_are_requested :
  ∀ (Products_for_subject : obj → list pytype) (fuel : nat) (self : LocalScheduler)
    (build_request : BuildRequest) (st st' : SchedulerState) (graph : ExecutionGraph),
    execution_graph Products_for_subject fuel self build_request st = Some (Ok graph, st') →
    ∀ p, p ∈ root_promises graph →
      ∃ goal address planner,
        goal ∈ goals build_request ∧
        address ∈ addressable_roots build_request ∧
        planner ∈ PlannersM.for_goal (_planners self) goal ∧
        _product_type p ∈ (product_types planner).*1 ∧
        derivable (_planners self) (Products_for_subject (_graph self address))
          (_product_type p) ∧
        PromiseM._key p =
          (_product_type p,
           match _graph self address with
           | Address spec => _graph self spec
           | subject => subject
           end,
           None).
Proof.
  intros Pfs fuel self build_request st st' graph Hrun p Hp.
  unfold execution_graph, M_bind in Hrun.
  destruct (promise_goals _ _ _ _ _ _ st) as [[[roots|e] st1]|] eqn:Hgoals; [|done|done].
  injection Hrun as <- <-. cbn [root_promises] in Hp.
  destruct (promise_goals_roots _ _ _ _ _ _ _ _ _ Hgoals p Hp)
    as [?%elem_of_nil|(goal & subject & pt & Hgoal & Hsubject & Hpt & Hprod & Hkey)]; [done|].
  apply list_elem_of_fmap in Hsubject as (address & -> & Haddress).
  apply goal_product_types_elem in Hpt as (planner & Hplanner & Hdeclared).
  assert (_product_type p = pt) as Heq by (by injection Hkey).
  exists goal, address, planner. rewrite Heq.
  repeat (split; [done|]). split; [by eapply producible_derivable|].
  rewrite Hkey. by destruct (_graph self address).
Qed.

Lemma root_promises_are_requested_witness :
  execution_graph sources_for_subject 4 javac_scheduler (mkBuildRequest ["compile"] ["lib"])
    initial_state = Some (Ok javac_graph, javac_session) ∧
  ∀ p, p ∈ root_promises javac_graph →
    ∃ goal address planner,
      goal ∈ ["compile"] ∧ address ∈ ["lib"] ∧
      planner ∈ PlannersM.for_goal (_planners javac_scheduler) goal ∧
      _product_type p ∈ (product_types planner).*1 ∧
      derivable (_planners javac_scheduler) (sources_for_subject java_library)
        (_product_type p) ∧
      PromiseM._key p = (_product_type p, java_library, None).
Proof.
  assert (Hrun : execution_graph sources_for_subject 4 javac_scheduler
                   (mkBuildRequest ["compile"] ["lib"]) initial_state
                 = Some (Ok javac_graph, javac_session)) by reflexivity.
  split; [exact Hrun|].
  exact (root_promises_are_requested _ _ _ _ _ _ _ Hrun).
Defined.

(** ** Plan equality *)

Lemma ascii_compare_lt_trans (a b c : Ascii.ascii) :
  Ascii.compare a b = Lt → Ascii.compare b c = Lt → Ascii.compare a c = Lt.
Proof.
  unfold Ascii.compare. rewrite !N.compare_lt_iff. apply N.lt_trans.
Qed.

Lemma string_leb_trans (s1 s2 s3 : string) :
  String.leb s1 s2 = true → String.leb s2 s3 = true → String.leb s1 s3 = true.
Proof.
  unfold String.leb.
  assert (H : ∀ s1 s2 s3, String.compare s1 s2 ≠ Gt → String.compare s2 s3 ≠ Gt →
                String.compare s1 s3 ≠ Gt).
  { clear. induction s1 as [|c1 s1 IH]; intros [|c2 s2] [|c3 s3]; cbn; try done.
    destruct (Ascii.compare c1 c2) eqn:H12; [| |done].
    - apply Ascii.compare_eq_iff in H12 as ->.
      destruct (Ascii.compare c2 c3); [apply IH|done|done].
    - destruct (Ascii.compare c2 c3) eqn:H23; [| |done].
      + apply Ascii.compare_eq_iff in H23 as ->. by rewrite H12.
      + by rewrite (ascii_compare_lt_trans _ _ _ H12 H23). }
  intros H12 H23. specialize (H s1 s2 s3).
  destruct (String.compare s1 s2), (String.compare s2 s3), (String.compare s1 s3);
    try done; exfalso; by apply H.
Qed.

Lemma sorted_insert_comm (a b : string * hkey) (l : list (string * hkey)) :
  a.1 ≠ b.1 →
  sorted_insert a (sorted_insert b l) = sorted_insert b (sorted_insert a l).
Proof.
  intros Hne.
  assert (Hcases : String.leb a.1 b.1 = true ∧ String.leb b.1 a.1 = false ∨
                   String.leb a.1 b.1 = false ∧ String.leb b.1 a.1 = true).
  { destruct (String.leb a.1 b.1) eqn:Hle, (String.leb b.1 a.1) eqn:Hge; auto.
    - destruct Hne. by apply String.leb_antisym.
    - destruct (String.leb_total a.1 b.1); congruence. }
  induction l as [|x l IH]; cbn [sorted_insert].
  - by destruct Hcases as [[-> ->]|[-> ->]].
  - destruct (String.leb b.1 x.1) eqn:Hbx, (String.leb a.1 x.1) eqn:Hax; cbn [sorted_insert].
    + destruct Hcases as [[-> ->]|[-> ->]]; by rewrite ?Hax, ?Hbx.
    + destruct Hcases as [[Hle Hge]|[Hle Hge]]; rewrite Hle, ?Hax, ?Hbx; [|done].
      by rewrite (string_leb_trans _ _ _ Hle Hbx) in Hax.
    + destruct Hcases as [[Hle Hge]|[Hle Hge]]; rewrite Hge, ?Hax, ?Hbx; [done|].
      by rewrite (string_leb_trans _ _ _ Hge Hax) in Hbx.
    + by rewrite Hax, Hbx, IH.
Qed.

Lemma sorted_proper (l l' : list (string * hkey)) :
  l ≡ₚ l' → NoDup l.*1 → sorted l = sorted l'.
Proof.
  induction 1 as [|x l l' Hperm IH|x y l|l1 l2 l3 H12 IH12 H23 IH23]; intros Hnodup.
  - done.
  - cbn. unfold sorted in IH. rewrite IH; [done|]. by apply NoDup_cons in Hnodup as [_ ?].
  - cbn. apply sorted_insert_comm. cbn in Hnodup.
    apply NoDup_cons in Hnodup as [Hy _]. intros Heq. apply Hy. rewrite Heq.
    apply elem_of_cons. by left.
  - rewrite IH12 by done. apply IH23. by rewrite <- H12.
Qed.

Lemma hashable_mapping_proper (entries entries' : list (string * value)) :
  entries ≡ₚ entries' → NoDup entries.*1 →
  PlanM.hashable (VMapping entries) = PlanM.hashable (VMapping entries').
Proof.
  intros Hperm Hnodup. cbn [PlanM.hashable]. do 2 f_equal.
  apply sorted_proper; [by apply fmap_Permutation|].
  rewrite <- list_fmap_compose. exact Hnodup.
Qed.

(** X10. The key of a plan, hence plan equality and the hash of a plan, does
    not depend on the order in which the inputs of the plan (or the entries
    of a mapping among them) are listed, nor on the order, the repetitions or
    the alternates of its subjects. *)
Theorem plan_equality_ignores_order :
  ∀ (p q : Plan),
    _func_or_task_type p = _func_or_task_type q →
    (∀ o, o ∈ SubjectM.primary <$> _subjects p ↔ o ∈ SubjectM.primary <$> _subjects q) →
    _inputs p ≡ₚ _inputs q →
    NoDup (_inputs p).*1 →
    PlanM.eq p q = true ∧
    (∀ (H : Type) (py_hash : PlanM.plan_key → H), PlanM.hash py_hash p = PlanM.hash py_hash q) ∧
    (∀ entries entries' : list (string * value),
       entries ≡ₚ entries' → NoDup entries.*1 →
       PlanM.hashable (VMapping entries) = PlanM.hashable (VMapping entries')).
Proof.
  intros p q Hf Hsubjects Hinputs Hnodup.
  assert (Hkey : PlanM._key p = PlanM._key q).
  { unfold PlanM._key. rewrite Hf. f_equal; [f_equal|by apply hashable_mapping_proper].
    apply leibniz_equiv. intros o. by rewrite !elem_of_list_to_set. }
  split; [by apply bool_decide_eq_true|]. split.
  - intros H py_hash. unfold PlanM.hash. by rewrite Hkey.
  - apply hashable_mapping_proper.
Qed.

Lemma plan_equality_ignores_order_witness :
  _inputs javac_both_plan ≡ₚ _inputs javac_both_plan_reordered ∧
  NoDup (_inputs javac_both_plan).*1 ∧
  PlanM.eq javac_both_plan javac_both_plan_reordered = true.
Proof.
  assert (Hperm : _inputs javac_both_plan ≡ₚ _inputs javac_both_plan_reordered)
    by apply Permutation_swap.
  assert (Hnodup : NoDup (_inputs javac_both_plan).*1)
    by (apply (bool_decide_unpack _); vm_compute; exact I).
  split; [exact Hperm|]. split; [exact Hnodup|].
  apply (plan_equality_ignores_order javac_both_plan javac_both_plan_reordered eq_refl);
    [|exact Hperm|exact Hnodup].
  intros o. cbn. rewrite !elem_of_cons. tauto.
Defined.

(** ** Plan.__init__ *)

Lemma subject_seen (s : Subject) (seen : list Subject) :
  existsb (SubjectM.eq s) seen = true ↔ SubjectM.primary s ∈ SubjectM.primary <$> seen.
Proof.
  rewrite existsb_exists, list_elem_of_fmap. split.
  - intros (t & Ht & Heq). exists t. split; [|by apply list_elem_of_In].
    by apply bool_decide_eq_true_1 in Heq.
  - intros (t & Heq & Ht). exists t. split; [by apply list_elem_of_In|].
    by apply bool_decide_eq_true_2.
Qed.

Lemma frozenset_subjects_spec (l : list Subject) :
  ∀ seen,
    NoDup (SubjectM.primary <$> seen) →
    NoDup (SubjectM.primary <$> frozenset_subjects seen l) ∧
    (∀ o, o ∈ SubjectM.primary <$> frozenset_subjects seen l ↔
          o ∈ SubjectM.primary <$> seen ∨ o ∈ SubjectM.primary <$> l) ∧
    (∀ s, s ∈ frozenset_subjects seen l → s ∈ seen ∨ s ∈ l).
Proof.
  induction l as [|s l IH]; intros seen Hnodup; cbn [frozenset_subjects].
  { split; [done|]. split; [|by left]. intros o. rewrite fmap_nil, elem_of_nil. tauto. }
  destruct (existsb (SubjectM.eq s) seen) eqn:Hseen.
  - apply subject_seen in Hseen. destruct (IH seen Hnodup) as (Hnd & Hin & Hfrom).
    split; [done|]. split.
    + intros o. rewrite Hin, fmap_cons, elem_of_cons. split; [tauto|].
      intros [?|[->|?]]; auto.
    + intros t Ht. destruct (Hfrom t Ht); [by left|]. right. apply elem_of_cons. by right.
  - assert (Hnew : SubjectM.primary s ∉ SubjectM.primary <$> seen).
    { intros Hin. apply subject_seen in Hin. congruence. }
    destruct (IH (seen ++ [s])) as (Hnd & Hin & Hfrom).
    { rewrite fmap_app. apply NoDup_app. split; [done|]. split.
      - intros o Ho ->%list_elem_of_singleton. done.
      - apply NoDup_singleton. }
    split; [done|]. split.
    + intros o. rewrite Hin, fmap_app, elem_of_app, !fmap_cons, fmap_nil, !elem_of_cons,
        elem_of_nil. tauto.
    + intros t Ht. destruct (Hfrom t Ht) as [[?|Hs%list_elem_of_singleton]%elem_of_app|?].
      * by left.
      * right. apply elem_of_cons. by left.
      * right. apply elem_of_cons. by right.
Qed.

Lemma dict_get_is_Some {V} (k : string) (d : list (string * V)) :
  is_Some (dict_get k d) ↔ k ∈ d.*1.
Proof.
  induction d as [|[k' v] d IH]; cbn [dict_get].
  - rewrite fmap_nil, elem_of_nil. split; [by intros [? ?]|done].
  - rewrite fmap_cons, elem_of_cons. cbn [fst]. destruct (decide (k = k')) as [->|Hne].
    + split; [by left|by eexists].
    + rewrite IH. split; [by right|]. by intros [?|?].
Qed.

(** X11. [Plan.__init__] raises [ValueError] exactly when it is given a class
    that is not a [Task]; a categorization passes through unchanged.  The
    subjects of the plan it builds are the given subjects as a set: each is
    one of the given items as a subject, every given primary is there, and no
    two of them have the same primary.  The inputs are stored as given, and
    [__getattr__] answers for the names of the inputs and raises
    [AttributeError] for any other name. *)
Theorem plan_subjects_are_a_set :
  ∀ (f : func_or_task_type) (subjects : list (Subject + obj))
    (inputs : list (string * value)),
    match PlanM.init f subjects inputs with
    | None => ∃ name, f = AClass name false
    | Some p =>
        _categorize f = Some (_func_or_task_type p) ∧
        (∀ c, f = ACategorization c → _func_or_task_type p = c) ∧
        _inputs p = inputs ∧
        (∀ item, is_Some (PlanM.getattr p item) ↔ item ∈ inputs.*1) ∧
        NoDup (SubjectM.primary <$> PlanM.subjects p) ∧
        (∀ o, o ∈ SubjectM.primary <$> PlanM.subjects p ↔
              o ∈ SubjectM.primary <$> (SubjectM.as_subject <$> subjects)) ∧
        (∀ s, s ∈ PlanM.subjects p → s ∈ SubjectM.as_subject <$> subjects)
    end.
Proof.
  intros f subjects inputs. unfold PlanM.init.
  destruct (_categorize f) as [c|] eqn:Hc; cbn.
  - destruct (frozenset_subjects_spec (SubjectM.as_subject <$> subjects) [])
      as (Hnd & Hin & Hfrom); [constructor|].
    split; [done|]. split; [by intros c' ->; injection Hc|]. split; [done|].
    split; [intros item; apply dict_get_is_Some|].
    split; [done|]. split.
    + intros o. rewrite Hin, fmap_nil, elem_of_nil. tauto.
    + intros s Hs. by destruct (Hfrom s Hs) as [?%elem_of_nil|?].
  - destruct f as [c|name [|]|name]; try done. by exists name.
Qed.

(** ** Planners.__init__: the registry *)

Lemma get_by_setitem_eqb {V} (k k' : string) (v : V) (d : list (string * V)) :
  get_by String.eqb k (setitem_by String.eqb k' v d)
  = if String.eqb k k' then Some v else get_by String.eqb k d.
Proof.
  induction d as [|[k0 v0] d IH]; cbn [setitem_by get_by]; [done|].
  destruct (String.eqb_spec k' k0) as [->|Hne]; cbn [get_by].
  - by destruct (String.eqb k k0).
  - rewrite IH. destruct (String.eqb_spec k k0) as [->|?]; [|done].
    destruct (String.eqb_spec k0 k') as [->|?]; done.
Qed.

Lemma register_outputs_goals (planner : TaskPlanner) (entries : list (pytype * DNF)) :
  ∀ self, _planners_by_goal_name (fold_left (PlannersM.register_output planner) entries self)
          = _planners_by_goal_name self.
Proof. induction entries as [|e entries IH]; intros self; cbn [fold_left]; [done|]. by rewrite IH. Qed.

Lemma for_goal_register_planner (self : Planners) (planner : TaskPlanner) (goal : string) :
  PlannersM.for_goal (PlannersM.register_planner self planner) goal
  = if String.eqb goal (goal_name planner)
    then add_by planner_is planner (PlannersM.for_goal self goal)
    else PlannersM.for_goal self goal.
Proof.
  unfold PlannersM.for_goal, PlannersM.register_planner.
  rewrite register_outputs_goals. cbn [_planners_by_goal_name].
  rewrite get_by_setitem_eqb. by destruct (String.eqb_spec goal (goal_name planner)) as [->|?].
Qed.

Lemma add_by_fresh (planner : TaskPlanner) (registered : list TaskPlanner) :
  planner_id planner ∉ planner_id <$> registered →
  add_by planner_is planner registered = registered ++ [planner].
Proof.
  intros Hnew. unfold add_by.
  destruct (existsb (planner_is planner) registered) eqn:Hex; [|done].
  apply existsb_exists in Hex as (q & Hq & Hid). destruct Hnew.
  apply Nat.eqb_eq in Hid. rewrite Hid. apply list_elem_of_fmap. exists q.
  split; [done|by apply list_elem_of_In].
Qed.

Lemma for_goal_registered (planners : list TaskPlanner) (goal : string) :
  ∀ self,
    NoDup (planner_id <$> (PlannersM.for_goal self goal ++ planners)) →
    PlannersM.for_goal (fold_left PlannersM.register_planner planners self) goal
    = PlannersM.for_goal self goal ++ filter (λ planner, goal_name planner = goal) planners.
Proof.
  induction planners as [|planner planners IH]; intros self Hnodup; cbn [fold_left].
  { by rewrite filter_nil, app_nil_r. }
  rewrite fmap_app, fmap_cons in Hnodup.
  apply NoDup_app in Hnodup as (Hself & Hdisjoint & [Hnew Hrest]%NoDup_cons).
  assert (Hfresh : planner_id planner ∉ planner_id <$> PlannersM.for_goal self goal).
  { intros Hin. apply (Hdisjoint _ Hin), elem_of_cons. by left. }
  rewrite filter_cons, IH; rewrite for_goal_register_planner;
    destruct (String.eqb_spec goal (goal_name planner)) as [->|Hne].
  - rewrite decide_True by done. rewrite add_by_fresh by done. by rewrite <- app_assoc.
  - rewrite decide_False by done. done.
  - rewrite add_by_fresh by done. rewrite <- app_assoc. cbn [app].
    rewrite fmap_app, fmap_cons. apply NoDup_app. split; [done|]. split; [done|].
    by constructor.
  - rewrite fmap_app. apply NoDup_app. split; [done|]. split; [|done].
    intros i Hi Hin. apply (Hdisjoint i Hi), elem_of_cons. by right.
Qed.

(** X12. [Planners.__init__] files every planner under its goal: for distinct
    planners, the set [for_goal] answers holds the registered planners of the
    goal and nothing else, each of them once, and is empty for a goal no
    planner has. *)
Theorem planners_are_filed_by_goal :
  ∀ (planners : list TaskPlanner) (goal : string),
    NoDup (planner_id <$> planners) →
    (∀ planner, planner ∈ PlannersM.for_goal (PlannersM.init planners) goal ↔
                planner ∈ planners ∧ goal_name planner = goal) ∧
    NoDup (planner_id <$> PlannersM.for_goal (PlannersM.init planners) goal) ∧
    ((∀ planner, planner ∈ planners → goal_name planner ≠ goal) →
     PlannersM.for_goal (PlannersM.init planners) goal = []).
Proof.
  intros planners goal Hnodup.
  assert (Heq : PlannersM.for_goal (PlannersM.init planners) goal
                = filter (λ planner, goal_name planner = goal) planners).
  { unfold PlannersM.init. by rewrite for_goal_registered. }
  split; [|split].
  - intros planner. rewrite Heq, list_elem_of_filter. tauto.
  - rewrite Heq. eapply sublist_NoDup; [exact Hnodup|].
    apply fmap_sublist, sublist_filter.
  - intros Hnone. rewrite Heq. clear Heq Hnodup.
    induction planners as [|planner planners IH]; [done|]. rewrite filter_cons.
    rewrite decide_False by (apply Hnone, elem_of_cons; by left).
    apply IH. intros p Hp. apply Hnone, elem_of_cons. by right.
Qed.

Lemma planners_are_filed_by_goal_witness :
  NoDup (planner_id <$> two_planners) ∧
  (∀ planner, planner ∈ PlannersM.for_goal (PlannersM.init two_planners) "compile" ↔
              planner ∈ two_planners ∧ goal_name planner = "compile") ∧
  NoDup (planner_id <$> PlannersM.for_goal (PlannersM.init two_planners) "compile").
Proof.
  assert (Hnodup : NoDup (planner_id <$> two_planners))
    by (apply (bool_decide_unpack _); vm_compute; exact I).
  split; [exact Hnodup|].
  exact (conj (proj1 (planners_are_filed_by_goal two_planners "compile" Hnodup))
              (proj1 (proj2 (planners_are_filed_by_goal two_planners "compile" Hnodup)))).
Defined.

Lemma requirements_register_output (planner : TaskPlanner) (self : Planners)
    (entry : pytype * DNF) (product_type : pytype) :
  PlannersM.requirements (PlannersM.register_output planner self entry) product_type
  = if String.eqb product_type entry.1
    then setitem_by planner_is planner entry.2 (PlannersM.requirements self product_type)
    else PlannersM.requirements self product_type.
Proof.
  unfold PlannersM.requirements, PlannersM.register_output. cbn [_product_requirements].
  rewrite get_by_setitem_eqb. by destruct (String.eqb_spec product_type entry.1) as [->|?].
Qed.

Lemma requirements_register_outputs (planner : TaskPlanner) (product_type : pytype)
    (entries : list (pytype * DNF)) :
  ∀ self,
    NoDup entries.*1 →
    PlannersM.requirements (fold_left (PlannersM.register_output planner) entries self)
      product_type
    = match dict_get product_type entries with
      | Some ored_clauses =>
          setitem_by planner_is planner ored_clauses (PlannersM.requirements self product_type)
      | None => PlannersM.requirements self product_type
      end.
Proof.
  induction entries as [|[k dnf] entries IH]; intros self Hnodup; cbn [fold_left dict_get];
    [done|].
  rewrite fmap_cons in Hnodup. apply NoDup_cons in Hnodup as [Hk Hnodup]. cbn [fst] in Hk.
  rewrite IH by done. rewrite requirements_register_output. cbn [fst snd].
  destruct (decide (product_type = k)) as [->|Hne].
  - rewrite String.eqb_refl.
    destruct (dict_get k entries) as [dnf'|] eqn:Hget; [|done].
    destruct Hk. by eapply dict_get_key.
  - by destruct (String.eqb_spec product_type k).
Qed.

Lemma requirements_register_planner (self : Planners) (planner : TaskPlanner)
    (product_type : pytype) :
  NoDup (product_types planner).*1 →
  PlannersM.requirements (PlannersM.register_planner self planner) product_type
  = match dict_get product_type (product_types planner) with
    | Some ored_clauses =>
        setitem_by planner_is planner ored_clauses (PlannersM.requirements self product_type)
    | None => PlannersM.requirements self product_type
    end.
Proof.
  intros Hnodup. unfold PlannersM.register_planner.
  by rewrite requirements_register_outputs.
Qed.

Lemma setitem_by_fresh (planner : TaskPlanner) (ored_clauses : DNF)
    (registered : list (TaskPlanner * DNF)) :
  planner_id planner ∉ planner_id <$> registered.*1 →
  setitem_by planner_is planner ored_clauses registered = registered ++ [(planner, ored_clauses)].
Proof.
  induction registered as [|[q dnf] registered IH]; cbn [setitem_by]; [done|].
  rewrite !fmap_cons. cbn [fst]. intros [Hne Hnew]%not_elem_of_cons.
  unfold planner_is at 1. rewrite (proj2 (Nat.eqb_neq _ _) Hne). by rewrite IH.
Qed.

Lemma declared_for_planners (product_type : pytype) (planners : list TaskPlanner) :
  (declared_for product_type planners).*1 `sublist_of` planners.
Proof.
  induction planners as [|planner planners IH]; [done|]. unfold declared_for. cbn [omap list_omap].
  destruct (dict_get product_type (product_types planner)); cbn; by constructor.
Qed.

Lemma requirements_registered (product_type : pytype) (planners : list TaskPlanner) :
  ∀ self,
    NoDup (planner_id <$> ((PlannersM.requirements self product_type).*1 ++ planners)) →
    (∀ planner, planner ∈ planners → NoDup (product_types planner).*1) →
    PlannersM.requirements (fold_left PlannersM.register_planner planners self) product_type
    = PlannersM.requirements self product_type ++ declared_for product_type planners.
Proof.
  induction planners as [|planner planners IH]; intros self Hnodup Hdict; cbn [fold_left].
  { by rewrite app_nil_r. }
  rewrite fmap_app, fmap_cons in Hnodup.
  apply NoDup_app in Hnodup as (Hself & Hdisjoint & [Hnew Hrest]%NoDup_cons).
  assert (Hfresh : planner_id planner
                   ∉ planner_id <$> (PlannersM.requirements self product_type).*1).
  { intros Hin. apply (Hdisjoint _ Hin), elem_of_cons. by left. }
  assert (Hstep := requirements_register_planner self planner product_type
                     (Hdict planner ltac:(apply elem_of_cons; by left))).
  unfold declared_for. cbn [omap list_omap]. fold (declared_for product_type planners).
  rewrite IH.
  - rewrite Hstep. destruct (dict_get product_type (product_types planner)); cbn [fmap option_fmap option_map].
    + rewrite setitem_by_fresh by done. by rewrite <- app_assoc.
    + done.
  - rewrite Hstep. rewrite fmap_app.
    destruct (dict_get product_type (product_types planner)).
    + rewrite setitem_by_fresh by done. rewrite fmap_app, fmap_app. cbn.
      rewrite <- app_assoc. cbn. apply NoDup_app. split; [done|]. split; [done|].
      by constructor.
    + apply NoDup_app. split; [done|]. split; [|done].
      intros i Hi Hin. apply (Hdisjoint i Hi), elem_of_cons. by right.
  - intros p Hp. apply Hdict, elem_of_cons. by right.
Qed.

Lemma output_products_register_outputs (planner : TaskPlanner) (entries : list (pytype * DNF))
    (product_type : pytype) :
  ∀ self,
    product_type ∈ _output_products (fold_left (PlannersM.register_output planner) entries self)
    ↔ product_type ∈ _output_products self ∨ product_type ∈ entries.*1.
Proof.
  induction entries as [|e entries IH]; intros self; cbn [fold_left].
  - rewrite fmap_nil, elem_of_nil. tauto.
  - rewrite IH. unfold PlannersM.register_output at 1. cbn [_output_products].
    rewrite add_by_eqb_elem, fmap_cons, elem_of_cons. tauto.
Qed.

Lemma output_products_registered (planners : list TaskPlanner) (product_type : pytype) :
  ∀ self,
    product_type ∈ _output_products (fold_left PlannersM.register_planner planners self)
    ↔ product_type ∈ _output_products self ∨
      ∃ planner, planner ∈ planners ∧ product_type ∈ (product_types planner).*1.
Proof.
  induction planners as [|planner planners IH]; intros self; cbn [fold_left].
  - split; [by left|]. by intros [?|(? & ?%elem_of_nil & _)].
  - rewrite IH. unfold PlannersM.register_planner at 1.
    rewrite output_products_register_outputs. cbn [_output_products]. split.
    + intros [[?|?]|(p & Hp & Hpt)]; [by left| |].
      * right. exists planner. split; [apply elem_of_cons; by left|done].
      * right. exists p. split; [apply elem_of_cons; by right|done].
    + intros [?|(p & [->|Hp]%elem_of_cons & Hpt)]; [by left; left|by left; right|].
      right. by exists p.
Qed.

(** X13. [Planners.__init__] indexes the requirements by product type.  For
    distinct planners, each declaring a product type at most once, the
    planners registered for a product type are the planners that declare it,
    in registration order, each with the formula it declares; and the output
    products are the product types some planner declares. *)
Theorem requirements_are_indexed_by_product_type :
  ∀ (planners : list TaskPlanner) (product_type : pytype),
    NoDup (planner_id <$> planners) →
    (∀ planner, planner ∈ planners → NoDup (product_types planner).*1) →
    PlannersM.requirements (PlannersM.init planners) product_type
      = declared_for product_type planners ∧
    (∀ planner ored_clauses,
       (planner, ored_clauses) ∈ PlannersM.requirements (PlannersM.init planners) product_type ↔
       planner ∈ planners ∧ (product_type, ored_clauses) ∈ product_types planner) ∧
    (product_type ∈ _output_products (PlannersM.init planners) ↔
     ∃ planner, planner ∈ planners ∧ product_type ∈ (product_types planner).*1).
Proof.
  intros planners product_type Hnodup Hdict.
  assert (Heq : PlannersM.requirements (PlannersM.init planners) product_type
                = declared_for product_type planners).
  { unfold PlannersM.init. by rewrite requirements_registered. }
  split; [done|]. split.
  - intros planner clauses. rewrite Heq. unfold declared_for. rewrite list_elem_of_omap. split.
    + intros (p & Hp & Hget).
      destruct (dict_get product_type (product_types p)) as [dnf|] eqn:Hdnf; [|done].
      injection Hget as -> ->. split; [done|]. by apply dict_get_elem.
    + intros [Hp Hin]. exists planner. split; [done|].
      assert (Hget : dict_get product_type (product_types planner) = Some clauses).
      { specialize (Hdict planner Hp). revert Hin Hdict. generalize (product_types planner).
        intros d. induction d as [|[k v] d IHd]; [by intros ?%elem_of_nil|].
        rewrite fmap_cons. intros Hin [Hk Hd]%NoDup_cons. cbn [dict_get].
        apply elem_of_cons in Hin as [[= <- <-]|Hin].
        - by rewrite decide_True.
        - destruct (decide (product_type = k)) as [->|?]; [|by apply IHd].
          destruct Hk. apply list_elem_of_fmap. by exists (k, clauses). }
      by rewrite Hget.
  - unfold PlannersM.init. rewrite output_products_registered. cbn [_output_products].
    rewrite elem_of_nil. tauto.
Qed.

Lemma requirements_are_indexed_by_product_type_witness :
  NoDup (planner_id <$> two_planners) ∧
  (∀ planner, planner ∈ two_planners → NoDup (product_types planner).*1) ∧
  PlannersM.requirements (PlannersM.init two_planners) "Sources"
    = [(thrift_planner, [["ThriftSources"]])].
Proof.
  assert (Hnodup : NoDup (planner_id <$> two_planners))
    by (apply (bool_decide_unpack _); vm_compute; exact I).
  assert (Hdict : ∀ planner, planner ∈ two_planners → NoDup (product_types planner).*1).
  { intros planner [->|[->|?%elem_of_nil]%elem_of_cons]%elem_of_cons; [| |done];
      apply (bool_decide_unpack _); vm_compute; exact I. }
  split; [exact Hnodup|]. split; [exact Hdict|].
  exact (proj1 (requirements_are_indexed_by_product_type two_planners "Sources" Hnodup Hdict)).
Defined.

(** ** The finalization pass *)

Lemma finalization_pass_registrations (self : LocalScheduler)
    (index : list (planner_ref * list (pytype * list Plan))) :
  ∀ mapper,
    finalization_pass self index mapper
    = fold_left (λ mapper registration,
                   (ProductMapper.register_promises mapper registration.1 registration.2
                      None None).2)
        (registrations self index) mapper.
Proof.
  unfold finalization_pass, registrations.
  induction index as [|by_planner index IH]; intros mapper; [done|].
  cbn [fold_left flat_map]. rewrite fold_left_app, IH. f_equal.
  generalize (by_planner.2). intros l. revert mapper.
  induction l as [|by_product_type l IHl]; intros mapper; [done|].
  cbn [fold_left flat_map]. rewrite fold_left_app, IHl. f_equal.
  destruct (finalize self by_planner.1 by_product_type.2) as [fps|]; [|done].
  unfold register_finalized. revert mapper.
  induction fps as [|fp fps IHf]; intros mapper; [done|]. cbn [fold_left fmap list_fmap].
  apply IHf.
Qed.

Lemma registrations_lookup (l : list (pytype * Plan)) (k : promise_key) :
  ∀ mapper,
    fold_left (λ mapper registration,
                 (ProductMapper.register_promises mapper registration.1 registration.2
                    None None).2) l mapper !! k
    = match last (filter (registers k) l) with
      | Some registration => Some registration.2
      | None => mapper !! k
      end.
Proof.
  induction l as [|r l IH] using rev_ind; intros mapper; [done|].
  rewrite fold_left_app, filter_app. cbn [fold_left]. rewrite register_promises_lookup.
  rewrite filter_cons, filter_nil. unfold registers at 2.
  case_bool_decide as Hk.
  - rewrite decide_True by done. by rewrite last_snoc.
  - rewrite decide_False by done. rewrite app_nil_r. apply IH.
Qed.

(** X14. The finalization pass of [execution_graph] registers every plan a
    planner returns from [finalize_plans], when it is not the very set it was
    given, for each subject of the plan, without configuration.  After the
    pass a promise resolves to the plan of the last registration that stores
    a plan for it, and to the plan it had before when there is none; so each
    subject of a finalized plan is promised a finalized plan that has it
    among its subjects. *)
Theorem finalization_registers_last :
  ∀ (self : LocalScheduler) (index : list (planner_ref * list (pytype * list Plan)))
    (mapper : gmap promise_key Plan),
    let finalized := finalization_pass self index mapper in
    (∀ product_type finalized_plan,
       (product_type, finalized_plan) ∈ registrations self index ↔
       ∃ planner by_product_type plans finalized_plans,
         (planner, by_product_type) ∈ index ∧ (product_type, plans) ∈ by_product_type ∧
         finalize self planner plans = Some finalized_plans ∧
         finalized_plan ∈ finalized_plans) ∧
    (∀ promise,
       ProductMapper.promised finalized promise
       = match last (filter (registers (PromiseM._key promise)) (registrations self index)) with
         | Some registration => Some registration.2
         | None => ProductMapper.promised mapper promise
         end) ∧
    (∀ product_type finalized_plan subject,
       (product_type, finalized_plan) ∈ registrations self index →
       subject ∈ PlanM.subjects finalized_plan →
       ∃ plan,
         ProductMapper.promised finalized (PromiseM.init product_type (inl subject) None)
           = Some plan ∧
         (product_type, plan) ∈ registrations self index ∧
         SubjectM.primary subject ∈ SubjectM.primary <$> PlanM.subjects plan).
Proof.
  intros self index mapper finalized. split; [|split].
  - intros product_type fp. unfold registrations. rewrite elem_of_flat_map. split.
    + intros ([planner by_pt] & Hindex & Hin). apply elem_of_flat_map in Hin
        as ([pt plans] & Hby & Hin). cbn [fst snd] in Hin.
      destruct (finalize self planner plans) as [fps|] eqn:Hfin; [|by apply elem_of_nil in Hin].
      apply list_elem_of_fmap in Hin as (fp' & [= -> ->] & Hfp).
      by exists planner, by_pt, plans, fps.
    + intros (planner & by_pt & plans & fps & Hindex & Hby & Hfin & Hfp).
      exists (planner, by_pt). split; [done|]. apply elem_of_flat_map.
      exists (product_type, plans). split; [done|]. cbn [fst snd]. rewrite Hfin.
      apply list_elem_of_fmap. by exists fp.
  - intros promise. unfold finalized, ProductMapper.promised.
    by rewrite finalization_pass_registrations, registrations_lookup.
  - intros product_type fp subject Hreg Hsubject.
    unfold finalized, ProductMapper.promised.
    rewrite finalization_pass_registrations, registrations_lookup.
    destruct (last (filter _ _)) as [[pt plan]|] eqn:Hlast.
    + apply last_filter_elem in Hlast as [Hin Hk]. unfold registers in Hk. cbn [fst snd] in Hk.
      apply list_elem_of_fmap in Hk as (s & Hkey & Hs). injection Hkey as -> Hprimary.
      exists plan. split; [done|]. split; [done|].
      apply list_elem_of_fmap. exists s. split; [|done].
      unfold SubjectM.primary in *. cbn in Hprimary. done.
    + destruct (last_filter_none _ _ Hlast (product_type, fp) Hreg).
      unfold registers. cbn [fst snd]. apply list_elem_of_fmap. by exists subject.
Qed.

(** ** The promises of a plan *)

Lemma set_update_spec (l : list Promise) :
  ∀ seen,
    NoDup (PromiseM._key <$> seen) →
    NoDup (PromiseM._key <$> PlanM.set_update seen l) ∧
    ∀ pr, pr ∈ PlanM.set_update seen l → pr ∈ seen ∨ pr ∈ l.
Proof.
  induction l as [|p l IH]; intros seen Hnodup; cbn [PlanM.set_update].
  { split; [done|]. by left. }
  destruct (existsb (PromiseM.eq p) seen) eqn:Hseen.
  - destruct (IH seen Hnodup) as [Hnd Hfrom]. split; [done|].
    intros pr Hpr. destruct (Hfrom pr Hpr); [by left|]. right. apply elem_of_cons. by right.
  - assert (Hnew : PromiseM._key p ∉ PromiseM._key <$> seen).
    { intros Hin. apply promise_seen in Hin. congruence. }
    destruct (IH (seen ++ [p])) as [Hnd Hfrom].
    { rewrite fmap_app. apply NoDup_app. split; [done|]. split.
      - intros k Hk Hk'%list_elem_of_singleton. by subst k.
      - apply NoDup_singleton. }
    split; [done|]. intros pr Hpr.
    destruct (Hfrom pr Hpr) as [[?|Hp%list_elem_of_singleton]%elem_of_app|?].
    + by left.
    + subst pr. right. apply elem_of_cons. by left.
    + right. apply elem_of_cons. by right.
Qed.

(** X15. [Plan.promises] is the set of the promises in the inputs of the
    plan: no two of its promises are equal, each occurs in the input tree of
    some input, and every promise that occurs in an input tree is equal to
    one of them. *)
Theorem plan_promises_are_a_set :
  ∀ (p : Plan),
    NoDup (PromiseM._key <$> PlanM.promises p) ∧
    (∀ pr, pr ∈ PlanM.promises p →
       ∃ kv, kv ∈ _inputs p ∧ pr ∈ PlanM.iter_promises kv.2) ∧
    (∀ kv pr, kv ∈ _inputs p → pr ∈ PlanM.iter_promises kv.2 →
       ∃ pr', pr' ∈ PlanM.promises p ∧ PromiseM.eq pr' pr = true) ∧
    (∀ name v path pr,
       dict_get name (_inputs p) = Some v → value_at path v = Some (VPromise pr) →
       ∃ pr', pr' ∈ PlanM.promises p ∧ PromiseM.eq pr' pr = true).
Proof.
  intros p.
  assert (Hfold : ∀ (inputs : list (string * value)) seen,
            NoDup (PromiseM._key <$> seen) →
            NoDup (PromiseM._key <$>
                     fold_left (λ promises kv, PlanM.set_update promises (PlanM.iter_promises kv.2))
                       inputs seen) ∧
            ∀ pr, pr ∈ fold_left (λ promises kv,
                                    PlanM.set_update promises (PlanM.iter_promises kv.2))
                         inputs seen →
                  pr ∈ seen ∨ ∃ kv, kv ∈ inputs ∧ pr ∈ PlanM.iter_promises kv.2).
  { induction inputs as [|kv inputs IH]; intros seen Hnodup; cbn [fold_left].
    { split; [done|]. by left. }
    destruct (set_update_spec (PlanM.iter_promises kv.2) seen Hnodup) as [Hnd Hfrom].
    destruct (IH _ Hnd) as [Hnd' Hfrom']. split; [done|].
    intros pr Hpr. destruct (Hfrom' pr Hpr) as [Hin|(kv' & Hkv' & Hin)].
    - destruct (Hfrom pr Hin); [by left|]. right. exists kv. split; [apply elem_of_cons; by left|done].
    - right. exists kv'. split; [apply elem_of_cons; by right|done]. }
  destruct (Hfold (_inputs p) []) as [Hnd Hfrom]; [constructor|].
  assert (Hall : ∀ kv pr, kv ∈ _inputs p → pr ∈ PlanM.iter_promises kv.2 →
            ∃ pr', pr' ∈ PlanM.promises p ∧ PromiseM.eq pr' pr = true).
  { intros kv pr Hkv Hpr.
    assert (Hk : PromiseM._key pr ∈ PromiseM._key <$> PlanM.promises p).
    { apply promises_of_inputs. by exists kv, pr. }
    apply list_elem_of_fmap in Hk as (pr' & Heq & Hpr'). exists pr'. split; [done|].
    by apply bool_decide_eq_true. }
  split; [exact Hnd|]. split; [|split; [exact Hall|]].
  - intros pr Hpr. by destruct (Hfrom pr Hpr) as [?%elem_of_nil|?].
  - intros name v path pr Hget Hat. apply (Hall (name, v)); [by apply dict_get_elem|].
    by eapply value_at_promise.
Qed.

(** ** What a successful promise leaves behind *)

Lemma get_by_setitem_same {K V} (eqb : K → K → bool) (k : K) (v : V) (d : list (K * V)) :
  eqb k k = true → get_by eqb k (setitem_by eqb k v d) = Some v.
Proof.
  intros Hrefl. induction d as [|[k0 v0] d IH]; cbn [setitem_by get_by].
  - by rewrite Hrefl.
  - destruct (eqb k k0) eqn:Hk; cbn [get_by]; by rewrite Hk.
Qed.

Lemma add_by_seen (p : Plan) (plans : list Plan) :
  existsb (PlanM.eq p) (add_by PlanM.eq p plans) = true.
Proof.
  unfold add_by. destruct (existsb (PlanM.eq p) plans) eqn:Hseen; [done|].
  rewrite existsb_app, Hseen. cbn. rewrite orb_false_r. by apply bool_decide_eq_true.
Qed.

Lemma record_plan_recorded (planner : planner_ref) (product_type : pytype) (p : Plan)
    (index : list (planner_ref * list (pytype * list Plan))) :
  ∃ by_product_type plans,
    get_by planner_ref_is planner (record_plan planner product_type p index)
      = Some by_product_type ∧
    get_by String.eqb product_type by_product_type = Some plans ∧
    existsb (PlanM.eq p) plans = true.
Proof.
  unfold record_plan. eexists _, _. split; [|split].
  - apply get_by_setitem_same. by apply bool_decide_eq_true.
  - apply get_by_setitem_same. apply String.eqb_refl.
  - apply add_by_seen.
Qed.

Lemma settle_plans_returned (product_type : pytype) (subject : obj)
    (configuration : option obj) (plans : list (planner_ref * Plan))
    (st st1 : SchedulerState) (pr : Promise) :
  settle_plans product_type subject configuration plans st = Some (Ok pr, st1) →
  ∃ planner p,
    plans = [(planner, p)] ∧
    st1 = mkState (ProductMapper.register_promises (_product_mapper st) product_type p
                     (Some subject) configuration).2
            (record_plan planner product_type p (_plans_by_product_type_by_planner st)) ∧
    ∃ s, s ∈ PlanM.subjects p ∧ SubjectM.primary s = subject ∧
         pr = PromiseM.init product_type (inl s) configuration.
Proof.
  intros Hrun. destruct plans as [|[planner p] [|more plans]]; [done| |done].
  rewrite settle_one_plan in Hrun.
  destruct (last (filter _ _)) as [s|] eqn:Hlast; [|done].
  injection Hrun as <- <-. exists planner, p. split; [done|]. split; [done|].
  apply last_filter_elem in Hlast as [Hs Heq]. exists s. split; [done|]. split; [|done].
  by injection Heq.
Qed.



(** ** The accumulators of the solver *)

Lemma adds_nothing (self : Planners) (input_products : list pytype)
    (E : TaskPlanner → list pytype → Prop) (acc : accumulators) :
  (∀ planner clause, ¬ E planner clause) → adds self input_products E acc acc.
Proof.
  intros Hnone. split; [|split; [|done]].
  - intros c. split; [by left|]. intros [?|(p & cl & HE & _)]; [done|]. by destruct (Hnone p cl).
  - intros c pl u. split; [by left|]. intros [?|(p & cl & HE & _)]; [done|].
    by destruct (Hnone p cl).
Qed.

Lemma adds_then (self : Planners) (input_products : list pytype)
    (E1 E2 E : TaskPlanner → list pytype → Prop) (acc acc1 acc2 : accumulators) :
  (∀ planner clause, E planner clause ↔ E1 planner clause ∨ E2 planner clause) →
  adds self input_products E1 acc acc1 →
  adds self input_products E2 acc1 acc2 →
  adds self input_products E acc acc2.
Proof.
  intros HE (Hf1 & Hp1 & Hn1) (Hf2 & Hp2 & Hn2). split; [|split; [|by auto]].
  - intros c. rewrite Hf2, Hf1. unfold consumes_fully. split.
    + intros [[?|(p & cl & H1 & ?)]|(p & cl & H2 & ?)]; [by left| |];
        right; exists p, cl; (split; [apply HE; auto|done]).
    + intros [?|(p & cl & [H1|H2]%HE & ?)]; [by left; left| |].
      * left. right. by exists p, cl.
      * right. by exists p, cl.
  - intros c pl u. rewrite Hp2, Hp1. unfold consumes. split.
    + intros [[?|(p & cl & H1 & ?)]|(p & cl & H2 & ?)]; [by left| |];
        right; exists p, cl; (split; [apply HE; auto|done]).
    + intros [?|(p & cl & [H1|H2]%HE & ?)]; [by left; left| |].
      * left. right. by exists p, cl.
      * right. by exists p, cl.
Qed.

Lemma producible_verdict_derivable (self : Planners) (input_products : list pytype)
    (fuel : nat) (r : pytype) (b : bool) :
  producible fuel self input_products r = Some b →
  (b = true ↔ derivable self input_products r).
Proof.
  intros Hb. split.
  - intros ->. by eapply producible_derivable.
  - intros Hd. by eapply derivable_producible.
Qed.

Lemma recorded_update_partial (planner : nat) (unconsumed : gset pytype)
    (candidates : partials) (consumed : pytype) (c : pytype) (pl : nat) (u : pytype) :
  recorded (update_partial planner unconsumed candidates consumed) c pl u ↔
  recorded candidates c pl u ∨ (c = consumed ∧ pl = planner ∧ u ∈ unconsumed).
Proof.
  unfold recorded, update_partial.
  destruct (decide (c = consumed)) as [->|Hc].
  - rewrite lookup_insert_eq. destruct (decide (pl = planner)) as [->|Hpl].
    + split.
      * intros (bp & m & [= <-] & Hm & Hu). rewrite lookup_insert_eq in Hm.
        injection Hm as <-. apply elem_of_union in Hu as [Hu|Hu]; [|by right].
        left. destruct (candidates !! consumed) as [bp0|] eqn:Hbp0; cbn in Hu;
          [|by rewrite lookup_empty in Hu].
        destruct (bp0 !! planner) as [m0|] eqn:Hm0; cbn in Hu; [|by apply elem_of_empty in Hu].
        by exists bp0, m0.
      * intros [(bp0 & m0 & Hbp0 & Hm0 & Hu)|(_ & _ & Hu)].
        -- eexists _, _. split; [done|]. split; [apply lookup_insert_eq|].
           rewrite Hbp0. cbn. rewrite Hm0. cbn. apply elem_of_union. by left.
        -- eexists _, _. split; [done|]. split; [apply lookup_insert_eq|].
           apply elem_of_union. by right.
    + split.
      * intros (bp & m & [= <-] & Hm & Hu). rewrite lookup_insert_ne in Hm by done.
        left. destruct (candidates !! consumed) as [bp0|] eqn:Hbp0; cbn in Hm;
          [|by rewrite lookup_empty in Hm].
        by exists bp0, m.
      * intros [(bp0 & m0 & Hbp0 & Hm0 & Hu)|(_ & ? & _)]; [|done].
        eexists _, m0. split; [done|]. split; [|done].
        rewrite lookup_insert_ne by done. rewrite Hbp0. done.
  - split.
    + intros (bp & m & Hbp & Hm & Hu). rewrite lookup_insert_ne in Hbp by done.
      left. by exists bp, m.
    + intros [(bp & m & Hbp & Hm & Hu)|(? & _)]; [|done].
      exists bp, m. by rewrite lookup_insert_ne by done.
Qed.

Lemma recorded_update_partials (planner : nat) (unconsumed : gset pytype)
    (consumed : list pytype) :
  ∀ (candidates : partials) (c : pytype) (pl : nat) (u : pytype),
    recorded (fold_left (update_partial planner unconsumed) consumed candidates) c pl u ↔
    recorded candidates c pl u ∨ (c ∈ consumed ∧ pl = planner ∧ u ∈ unconsumed).
Proof.
  induction consumed as [|c0 consumed IH]; intros candidates c pl u; cbn [fold_left].
  - split; [by left|]. by intros [?|[?%elem_of_nil _]].
  - rewrite IH, recorded_update_partial, elem_of_cons. tauto.
Qed.

Lemma no_empty_entry_update_partials (planner : nat) (unconsumed : gset pytype)
    (consumed : list pytype) (u : pytype) :
  u ∈ unconsumed →
  ∀ candidates : partials,
    no_empty_entry candidates →
    no_empty_entry (fold_left (update_partial planner unconsumed) consumed candidates).
Proof.
  intros Hu. induction consumed as [|c0 consumed IH]; intros candidates Hne; [done|].
  cbn [fold_left]. apply IH. intros c bp. unfold update_partial.
  destruct (decide (c = c0)) as [->|Hc].
  - rewrite lookup_insert_eq. intros [= <-]. split.
    + eexists planner, _. apply lookup_insert_eq.
    + intros pl m. destruct (decide (pl = planner)) as [->|Hpl].
      * rewrite lookup_insert_eq. intros [= <-]. exists u. apply elem_of_union. by right.
      * rewrite lookup_insert_ne by done.
        destruct (candidates !! c0) as [bp0|] eqn:Hbp0; cbn; [|by rewrite lookup_empty].
        apply (Hne c0 bp0 Hbp0).
  - rewrite lookup_insert_ne by done. apply Hne.
Qed.

Section clause_verdicts.

Variables (self : Planners) (input_products : list pytype).

Local Abbreviation derivable_here := (derivable self input_products).

Lemma requirements_where_derivable (anded_clause : list pytype) (matched : list bool)
    (r : pytype) :
  Forall2 (λ r m, m = true ↔ derivable_here r) anded_clause matched →
  (r ∈ requirements_where true anded_clause matched ↔ r ∈ anded_clause ∧ derivable_here r) ∧
  (r ∈ requirements_where false anded_clause matched ↔
   r ∈ anded_clause ∧ ¬ derivable_here r).
Proof.
  unfold requirements_where.
  induction 1 as [|r0 m clause matched Hm _ IH]; cbn [zip zip_with].
  { rewrite filter_nil, fmap_nil, !elem_of_nil. tauto. }
  rewrite !filter_cons. cbn [snd]. destruct IH as [IHt IHf].
  destruct m.
  - rewrite decide_True by done. rewrite decide_False by done.
    rewrite fmap_cons, !elem_of_cons, IHt, IHf. cbn [fst].
    assert (derivable_here r0) by (by apply Hm). intuition (subst; tauto).
  - rewrite decide_False by done. rewrite decide_True by done.
    rewrite fmap_cons, !elem_of_cons, IHt, IHf. cbn [fst].
    assert (¬ derivable_here r0) by (intros ?%Hm; done). intuition (subst; tauto).
Qed.

Lemma matched_count_derivable (anded_clause : list pytype) (matched : list bool) :
  Forall2 (λ r m, m = true ↔ derivable_here r) anded_clause matched →
  (length (filter (λ m, m = true) matched) = length anded_clause ↔
   satisfied self input_products anded_clause) ∧
  (length (filter (λ m, m = true) matched) = 0 ↔
   ∀ r, r ∈ anded_clause → ¬ derivable_here r).
Proof.
  intros Hall. split.
  - rewrite (Forall2_length _ _ _ Hall), all_matched. split.
    + intros Htrue r Hr. destruct (proj1 (list_elem_of_lookup _ _) Hr) as [i Hi].
      destruct (Forall2_lookup_l _ _ _ _ _ Hall Hi) as (m & Hmi & Hm).
      apply Hm. exact (proj1 (Forall_lookup _ _) Htrue _ _ Hmi).
    + intros Hsat. apply Forall_lookup. intros i m Hmi.
      destruct (Forall2_lookup_r _ _ _ _ _ Hall Hmi) as (r & Hi & Hm).
      apply Hm, Hsat. by eapply list_elem_of_lookup_2.
  - induction Hall as [|r0 m clause matched Hm _ IH].
    { split; [by intros _ ? ?%elem_of_nil|done]. }
    rewrite filter_cons. destruct m.
    + rewrite decide_True by done. cbn [length]. split; [done|].
      intros Hnone. destruct (Hnone r0); [apply elem_of_cons; by left|by apply Hm].
    + rewrite decide_False by done. rewrite IH. split.
      * intros Hnone r [->|Hr]%elem_of_cons; [intros ?%Hm; done|by apply Hnone].
      * intros Hnone r Hr. apply Hnone, elem_of_cons. by right.
Qed.

End clause_verdicts.

Lemma evaluated_expands (self : Planners) (input_products : list pytype) (o : pytype)
    (p : TaskPlanner) (clause : list pytype) :
  evaluated self input_products o p clause ↔
  (o ∉ input_products) ∧ o ∈ _output_products self ∧
  ∃ planner ored_clauses,
    (planner, ored_clauses) ∈ PlannersM.requirements self o ∧
    evaluated_in self input_products planner ored_clauses p clause.
Proof.
  split.
  - intros Hev. destruct Hev as [o planner before clause after Hin Hout Hreg Hbefore
                                |o registered before anded after r planner clause
                                   Hin Hout Hreg Hbefore Hr Hev].
    + split; [done|]. split; [done|]. exists planner, (before ++ clause :: after).
      split; [done|]. exists before, clause, after. split; [done|]. split; [done|]. by left.
    + split; [done|]. split; [done|]. exists registered, (before ++ anded :: after).
      split; [done|]. exists before, anded, after. split; [done|]. split; [done|].
      right. by exists r.
  - intros (Hin & Hout & planner & clauses & Hreg
            & before & anded & after & -> & Hbefore & [[-> ->]|(r & Hr & Hev)]).
    + by eapply evaluated_clause.
    + by eapply evaluated_requirement.
Qed.

Lemma evaluated_in_nil (self : Planners) (input_products : list pytype)
    (planner p : TaskPlanner) (clause : list pytype) :
  ¬ evaluated_in self input_products planner [] p clause.
Proof. intros (before & anded & after & Heq & _). by destruct before. Qed.

Lemma evaluated_in_cons (self : Planners) (input_products : list pytype)
    (planner : TaskPlanner) (anded_clause : list pytype) (rest : DNF)
    (p : TaskPlanner) (clause : list pytype) :
  evaluated_in self input_products planner (anded_clause :: rest) p clause ↔
  ((∃ r, r ∈ anded_clause ∧ evaluated self input_products r p clause) ∨
   (p = planner ∧ clause = anded_clause)) ∨
  (¬ satisfied self input_products anded_clause ∧
   evaluated_in self input_products planner rest p clause).
Proof.
  split.
  - intros (before & anded & after & Heq & Hbefore & Hcase).
    destruct before as [|c before]; cbn in Heq; injection Heq as <- ->.
    + left. destruct Hcase; [by right|by left].
    + right. split; [apply Hbefore, elem_of_cons; by left|].
      exists before, anded, after. split; [done|]. split; [|done].
      intros c Hc. apply Hbefore, elem_of_cons. by right.
  - intros [[Hreq|Hhere]|[Hnot (before & anded & after & -> & Hbefore & Hcase)]].
    + exists [], anded_clause, rest. split; [done|]. split; [by intros ? ?%elem_of_nil|].
      by right.
    + exists [], anded_clause, rest. split; [done|]. split; [by intros ? ?%elem_of_nil|].
      by left.
    + exists (anded_clause :: before), anded, after. split; [done|]. split; [|done].
      by intros c [->|Hc]%elem_of_cons; [|apply Hbefore].
Qed.

Section solver_adds.

Variables (self : Planners) (input_products : list pytype)
          (apply_product_requirements : pytype → list pytype → solver bool).

Local Abbreviation derivable_here := (derivable self input_products).
Local Abbreviation adds_here := (adds self input_products).
Local Abbreviation evaluated_here := (evaluated self input_products).

Hypothesis apply_adds : ∀ r acc b acc',
  apply_product_requirements r input_products acc = Some (b, acc') →
  (b = true ↔ derivable_here r) ∧ adds_here (evaluated_here r) acc acc'.

Lemma solver_map_adds (l : list pytype) :
  ∀ acc acc' matched,
    solver_map (λ r, apply_product_requirements r input_products) l acc
      = Some (matched, acc') →
    Forall2 (λ r m, m = true ↔ derivable_here r) l matched ∧
    adds_here (λ p clause, ∃ r, r ∈ l ∧ evaluated_here r p clause) acc acc'.
Proof.
  induction l as [|r l IH]; intros acc acc' matched Hres.
  - injection Hres as <- <-. split; [constructor|].
    apply adds_nothing. by intros p cl (r & ?%elem_of_nil & _).
  - cbn [solver_map] in Hres. unfold solver_bind at 1 in Hres.
    destruct (apply_product_requirements r input_products acc) as [[b acc1]|] eqn:Hr; [|done].
    unfold solver_bind at 1 in Hres.
    destruct (solver_map _ l acc1) as [[bs acc2]|] eqn:Hl; [|done].
    injection Hres as <- <-. destruct (IH _ _ _ Hl) as [Hall Hadds].
    destruct (apply_adds _ _ _ _ Hr) as [Hb Hadd]. split; [by constructor|].
    eapply adds_then; [|exact Hadd|exact Hadds].
    intros p cl. split.
    + intros (r' & [->|Hr']%elem_of_cons & Hev); [by left|right; by exists r'].
    + intros [Hev|(r' & Hr' & Hev)].
      * exists r. split; [apply elem_of_cons; by left|done].
      * exists r'. split; [apply elem_of_cons; by right|done].
Qed.

(** What the solver does with a clause once its requirements are judged. *)
Lemma clause_adds (planner : TaskPlanner) (anded_clause : list pytype) (matched : list bool)
    (acc : accumulators) :
  Forall2 (λ r m, m = true ↔ derivable_here r) anded_clause matched →
  let matched_count := length (filter (λ m, m = true) matched) in
  let after :=
    if matched_count =? length anded_clause then
      mkAcc (fully_consumed acc ∪ list_to_set anded_clause) (partially_consumed_candidates acc)
    else if 0 <? matched_count then
      mkAcc (fully_consumed acc)
        (fold_left (update_partial (planner_id planner)
                      (list_to_set (requirements_where false anded_clause matched)))
           (requirements_where true anded_clause matched) (partially_consumed_candidates acc))
    else acc in
  ((matched_count =? length anded_clause) = true ↔ satisfied self input_products anded_clause) ∧
  adds_here (λ p clause, p = planner ∧ clause = anded_clause) acc after.
Proof.
  intros Hall matched_count after.
  destruct (matched_count_derivable self input_products _ _ Hall) as [Hfull Hnone].
  fold matched_count in Hfull, Hnone.
  assert (Htest : (matched_count =? length anded_clause) = true
                  ↔ satisfied self input_products anded_clause).
  { by rewrite Nat.eqb_eq. }
  split; [exact Htest|]. subst after.
  destruct (matched_count =? length anded_clause) eqn:Heq.
  - assert (Hsat : satisfied self input_products anded_clause) by (by apply Htest).
    split; [|split; [|done]]; cbn [fully_consumed partially_consumed_candidates].
    + intros c. rewrite elem_of_union, elem_of_list_to_set. split.
      * intros [?|Hc]; [by left|]. right. by exists planner, anded_clause.
      * intros [?|(p & cl & [-> ->] & _ & Hc)]; [by left|by right].
    + intros c pl u. split; [by left|].
      intros [?|(p & cl & [-> ->] & _ & _ & Hu & _ & Hnot)]; [done|]. destruct Hnot. by apply Hsat.
  - assert (Hnot : ¬ satisfied self input_products anded_clause).
    { intros Hsat%Htest. done. }
    destruct (0 <? matched_count) eqn:Hpos.
    + assert (Hu : ∃ u, u ∈ anded_clause ∧ ¬ derivable_here u).
      { apply Nat.eqb_neq in Heq. unfold matched_count in Heq.
        rewrite (Forall2_length _ _ _ Hall), all_matched in Heq.
        apply not_Forall_Exists in Heq; [|apply _].
        apply Exists_exists in Heq as (m & Hm & Hfalse). cbn in Hfalse.
        destruct (proj1 (list_elem_of_lookup _ _) Hm) as [i Hi].
        destruct (Forall2_lookup_r _ _ _ _ _ Hall Hi) as (u & Hui & Hum).
        exists u. split; [by eapply list_elem_of_lookup_2|]. by intros ?%Hum. }
      split; [|split]; cbn [fully_consumed partially_consumed_candidates].
      * intros c. split; [by left|]. by intros [?|(p & cl & [-> ->] & ? & _)].
      * intros c pl u. rewrite recorded_update_partials, elem_of_list_to_set.
        rewrite (proj1 (requirements_where_derivable self input_products _ _ c Hall)).
        rewrite (proj2 (requirements_where_derivable self input_products _ _ u Hall)).
        split.
        -- intros [?|([Hc Hdc] & -> & [Hu' Hdu])]; [by left|].
           right. by exists planner, anded_clause.
        -- intros [?|(p & cl & [-> ->] & <- & Hc & Hu' & Hdc & Hdu)]; [by left|by right].
      * destruct Hu as (u & Hu & Hdu).
        apply (no_empty_entry_update_partials _ _ _ u).
        apply elem_of_list_to_set.
        by apply (requirements_where_derivable self input_products _ _ u Hall).
    + apply Nat.ltb_ge in Hpos. assert (matched_count = 0) as Hcount by lia.
      pose proof (proj1 Hnone Hcount) as Hzero.
      split; [|split; [|done]].
      * intros c. split; [by left|]. by intros [?|(p & cl & [-> ->] & ? & _)].
      * intros c pl u. split; [by left|].
        intros [?|(p & cl & [-> ->] & _ & Hc & _ & Hdc & _)]; [done|]. by destruct (Hzero c Hc).
Qed.

Lemma clauses_adds (planner : TaskPlanner) (ored_clauses : DNF) :
  ∀ acc acc' b,
    _apply_product_requirement_clauses apply_product_requirements input_products planner
      ored_clauses acc = Some (b, acc') →
    adds_here (evaluated_in self input_products planner ored_clauses) acc acc'.
Proof.
  induction ored_clauses as [|clause rest IH]; intros acc acc' b Hres.
  { injection Hres as <- <-. apply adds_nothing. intros p cl. apply evaluated_in_nil. }
  cbn [_apply_product_requirement_clauses] in Hres. unfold solver_bind at 1 in Hres.
  destruct (solver_map _ clause acc) as [[matched acc1]|] eqn:Hm; [|done].
  destruct (solver_map_adds _ _ _ _ Hm) as [Hall Hmap].
  destruct (clause_adds planner clause matched acc1 Hall) as [Htest Hclause].
  cbv zeta in Hclause.
  assert (Hhead : ∀ acc2,
            adds_here (λ p cl, p = planner ∧ cl = clause) acc1 acc2 →
            adds_here (λ p cl, (∃ r, r ∈ clause ∧ evaluated_here r p cl) ∨
                               (p = planner ∧ cl = clause)) acc acc2).
  { intros acc2 H2. eapply adds_then; [|exact Hmap|exact H2]. done. }
  destruct (_ =? _) eqn:Heq.
  - injection Hres as <- <-. assert (Hsat := proj1 Htest eq_refl).
    eapply adds_then; [|exact (Hhead _ Hclause)|apply (adds_nothing _ _ (λ _ _, False)); tauto].
    intros p cl. rewrite evaluated_in_cons. tauto.
  - assert (Hnot : ¬ satisfied self input_products clause) by (intros ?%Htest; done).
    destruct (0 <? _) eqn:Hpos.
    + unfold solver_bind in Hres. apply IH in Hres.
      eapply adds_then; [|exact (Hhead _ Hclause)|exact Hres].
      intros p cl. rewrite evaluated_in_cons. tauto.
    + apply IH in Hres.
      eapply adds_then; [|exact (Hhead _ Hclause)|exact Hres].
      intros p cl. rewrite evaluated_in_cons. tauto.
Qed.

Lemma any_planner_adds (registered : list (TaskPlanner * DNF)) :
  ∀ matched acc acc' b,
    any_planner apply_product_requirements input_products registered matched acc
      = Some (b, acc') →
    adds_here (λ p clause, ∃ planner ored_clauses,
                 (planner, ored_clauses) ∈ registered ∧
                 evaluated_in self input_products planner ored_clauses p clause) acc acc'.
Proof.
  induction registered as [|[planner clauses] rest IH]; intros matched acc acc' b Hres.
  { injection Hres as <- <-. apply adds_nothing.
    by intros p cl (? & ? & ?%elem_of_nil & _). }
  cbn [any_planner] in Hres. unfold solver_bind at 1 in Hres.
  destruct (_apply_product_requirement_clauses _ _ _ clauses acc) as [[m acc1]|] eqn:Hc; [|done].
  eapply adds_then; [|exact (clauses_adds _ _ _ _ _ Hc)|exact (IH _ _ _ _ Hres)].
  intros p cl. split.
  - intros (pl & cls & [[= -> ->]|Hin]%elem_of_cons & Hev); [by left|].
    right. by exists pl, cls.
  - intros [Hev|(pl & cls & Hin & Hev)].
    + exists planner, clauses. split; [apply elem_of_cons; by left|done].
    + exists pl, cls. split; [apply elem_of_cons; by right|done].
Qed.

End solver_adds.

Lemma solver_adds (self : Planners) (input_products : list pytype) (fuel : nat) :
  ∀ o acc b acc',
    _apply_product_requirements fuel self o input_products acc = Some (b, acc') →
    (b = true ↔ derivable self input_products o) ∧
    adds self input_products (evaluated self input_products o) acc acc'.
Proof.
  induction fuel as [|fuel IH]; intros o acc b acc' Hres; [done|].
  split.
  { apply (producible_verdict_derivable self input_products (S fuel)).
    rewrite <- (solver_verdict (S fuel) self o input_products acc). by rewrite Hres. }
  cbn [_apply_product_requirements] in Hres.
  case_bool_decide as Hin.
  { injection Hres as <- <-. apply adds_nothing. intros p cl Hev.
    by apply evaluated_expands in Hev as (? & _). }
  case_bool_decide as Hout.
  { injection Hres as <- <-. apply adds_nothing. intros p cl Hev.
    by apply evaluated_expands in Hev as (_ & ? & _). }
  pose proof (any_planner_adds self input_products (_apply_product_requirements fuel self) IH
                _ _ _ _ _ Hres) as Hadds.
  assert (Hout' : o ∈ _output_products self)
    by first [exact Hout|by apply dec_stable].
  eapply adds_then; [|exact Hadds|apply (adds_nothing _ _ (λ _ _, False)); tauto].
  intros p cl. rewrite evaluated_expands. split.
  - intros (_ & _ & Hev). by left.
  - intros [Hev|[]]. done.
Qed.

Lemma producible_outputs_adds (self : Planners) (input_products : list pytype) (fuel : nat)
    (outs : list pytype) :
  ∀ l acc acc',
    producible_outputs fuel self input_products outs acc = Some (l, acc') →
    adds self input_products
      (λ p clause, ∃ o, o ∈ outs ∧ evaluated self input_products o p clause) acc acc'.
Proof.
  induction outs as [|o outs IH]; intros l acc acc' Hres.
  { injection Hres as <- <-. apply adds_nothing. by intros p cl (? & ?%elem_of_nil & _). }
  cbn [producible_outputs] in Hres. unfold solver_bind at 1 in Hres.
  destruct (_apply_product_requirements fuel self o input_products acc) as [[b acc1]|] eqn:Ho;
    [|done].
  unfold solver_bind at 1 in Hres.
  destruct (producible_outputs fuel self input_products outs acc1) as [[l1 acc2]|] eqn:Hl;
    [|done].
  injection Hres as <- <-.
  eapply adds_then; [|exact (proj2 (solver_adds _ _ _ _ _ _ _ Ho))|exact (IH _ _ _ Hl)].
  intros p cl. split.
  - intros (o' & [->|Ho']%elem_of_cons & Hev); [by left|right; by exists o'].
  - intros [Hev|(o' & Ho' & Hev)].
    + exists o. split; [apply elem_of_cons; by left|done].
    + exists o'. split; [apply elem_of_cons; by right|done].
Qed.

(** C3. [produced_types_for_subject], once the solver has come back from all
    candidate outputs (as it does on ranked registries).  The accumulators
    then hold what the clauses evaluated for the candidates put there:
    [fully_consumed] holds the requirements of the satisfied clauses, and
    [partially_consumed_candidates] lists, for a product and a planner, the
    requirements that are not derivable in clauses of this planner that
    require the product, which is derivable; no entry is empty.  The call
    raises exactly when some product recorded in
    [partially_consumed_candidates] is missing from [fully_consumed]; the
    error then carries the last candidate output, the subject, and the
    recorded entries of the products that are not fully consumed; otherwise
    the call returns the candidates the solver judged producible, in their
    order. *)
Theorem produced_types_for_subject_spec :
  ∀ (Products_for_subject : obj → list pytype) (self : Planners) (subject : obj)
    (output_product_types : list pytype) (fuel : nat),
    let input_products := Products_for_subject subject in
    let result :=
      produced_types_for_subject Products_for_subject fuel self subject output_product_types in
    let evaluates planner anded_clause :=
      ∃ o, o ∈ output_product_types ∧ evaluated self input_products o planner anded_clause in
    (∀ rank, ranked self input_products rank →
             Forall (λ o, rank o < fuel) output_product_types → is_Some result) ∧
    (∀ producible_output_types acc,
       producible_outputs fuel self input_products output_product_types (mkAcc ∅ ∅)
         = Some (producible_output_types, acc) →
       let partially_consumed :=
         filter (λ entry, entry.1 ∉ fully_consumed acc) (partially_consumed_candidates acc) in
       let hard := ∃ product, product ∈ dom (partially_consumed_candidates acc) ∧
                              product ∉ fully_consumed acc in
       (∀ product, product ∈ fully_consumed acc ↔
                   consumes_fully self input_products evaluates product) ∧
       (∀ product planner requirement,
          recorded (partially_consumed_candidates acc) product planner requirement ↔
          consumes self input_products evaluates product planner requirement) ∧
       no_empty_entry (partially_consumed_candidates acc) ∧
       (hard ↔ ∃ product planner requirement,
                 consumes self input_products evaluates product planner requirement ∧
                 ¬ consumes_fully self input_products evaluates product) ∧
       producible_output_types
         = filter (λ o, producible fuel self input_products o = Some true)
             output_product_types ∧
       (∀ o, o ∈ producible_output_types ↔
             o ∈ output_product_types ∧ derivable self input_products o) ∧
       ((∃ e, result = Some (Raise e)) ↔ hard) ∧
       (hard → ∃ output_product_type,
                 last output_product_types = Some output_product_type ∧
                 result = Some (Raise (PartiallyConsumedInputsError output_product_type subject
                                         partially_consumed))) ∧
       (¬ hard → result = Some (Ok producible_output_types)) ∧
       (∀ product by_planner,
          partially_consumed !! product = Some by_planner ↔
          partially_consumed_candidates acc !! product = Some by_planner ∧
          product ∉ fully_consumed acc) ∧
       (∀ product planner requirement,
          recorded partially_consumed product planner requirement ↔
          consumes self input_products evaluates product planner requirement ∧
          ¬ consumes_fully self input_products evaluates product) ∧
       no_empty_entry partially_consumed ∧
       (∀ product by_planner planner missing requirement,
          partially_consumed !! product = Some by_planner →
          by_planner !! planner = Some missing →
          requirement ∈ missing →
          missing_for fuel self input_products planner product requirement)).
Proof.
  intros Products_for_subject self subject outs fuel input_products result evaluates. split.
  { intros rank Hranked Hfuel. subst result. unfold produced_types_for_subject.
    destruct (producible_outputs_return fuel self input_products rank outs Hranked Hfuel
                (mkAcc ∅ ∅)) as [[l acc] Hres].
    fold input_products. rewrite Hres.
    case_bool_decide; [by eexists|]. destruct (last outs); by eexists. }
  intros l acc Hres partially_consumed hard.
  destruct (producible_outputs_adds self input_products fuel outs l (mkAcc ∅ ∅) acc Hres)
    as (Hfc & Hpc & Hne). cbn [fully_consumed partially_consumed_candidates] in Hfc, Hpc, Hne.
  assert (Hfully : ∀ c, c ∈ fully_consumed acc ↔ consumes_fully self input_products evaluates c).
  { intros c. rewrite Hfc. split; [|by right]. by intros [?%elem_of_empty|?]. }
  assert (Hrecorded : ∀ c pl u,
            recorded (partially_consumed_candidates acc) c pl u ↔
            consumes self input_products evaluates c pl u).
  { intros c pl u. rewrite Hpc. split; [|by right].
    intros [(bp & m & Hbp & _)|?]; [|done]. by rewrite lookup_empty in Hbp. }
  assert (Hnonempty : no_empty_entry (partially_consumed_candidates acc)).
  { apply Hne. intros c bp Hbp. by rewrite lookup_empty in Hbp. }
  assert (Hl : l = filter (λ o, producible fuel self input_products o = Some true) outs).
  { pose proof (producible_outputs_verdicts fuel self input_products outs (mkAcc ∅ ∅)) as Hv.
    rewrite Hres in Hv. simpl in Hv.
    destruct (mapM (producible fuel self input_products) outs) as [bs|] eqn:Hbs; [|done].
    injection Hv as ->. apply kept_outputs. by apply mapM_Some_1. }
  assert (Hlookup : ∀ product by_planner,
            partially_consumed !! product = Some by_planner ↔
            partially_consumed_candidates acc !! product = Some by_planner ∧
            product ∉ fully_consumed acc).
  { intros product by_planner. subst partially_consumed.
    rewrite map_lookup_filter_Some. simpl. done. }
  assert (Hhard : hard ↔ partially_consumed ≠ ∅).
  { subst hard. split.
    - intros (product & Hdom & Hnot) Hempty. apply elem_of_dom in Hdom as [by_planner Hbp].
      assert (partially_consumed !! product = Some by_planner) as Hp by (by apply Hlookup).
      rewrite Hempty in Hp. by rewrite lookup_empty in Hp.
    - intros Hne'. apply map_choose in Hne' as (product & by_planner & Hp).
      apply Hlookup in Hp as [Hp Hnot]. exists product. split; [|done].
      apply elem_of_dom. by eexists. }
  assert (Hraise : hard → ∃ output_product_type,
            last outs = Some output_product_type ∧
            result = Some (Raise (PartiallyConsumedInputsError output_product_type subject
                                    partially_consumed))).
  { intros Hh. pose proof Hh as (product & Hdom & _). apply Hhard in Hh.
    subst result. unfold produced_types_for_subject. fold input_products. rewrite Hres.
    fold partially_consumed. rewrite bool_decide_eq_false_2 by done.
    destruct (last outs) as [o|] eqn:Hlast; [by exists o|].
    apply last_None in Hlast. subst outs. injection Hres as _ <-.
    by apply elem_of_dom in Hdom as [? ?]. }
  assert (Hok : ¬ hard → result = Some (Ok l)).
  { intros Hh. subst result. unfold produced_types_for_subject. fold input_products.
    rewrite Hres. fold partially_consumed. rewrite bool_decide_eq_true_2; [done|].
    destruct (decide (partially_consumed = ∅)) as [|Hne']; [done|].
    exfalso. by apply Hh, Hhard. }
  assert (Hpartial : ∀ c pl u,
            recorded partially_consumed c pl u ↔
            consumes self input_products evaluates c pl u ∧
            ¬ consumes_fully self input_products evaluates c).
  { intros c pl u. rewrite <- Hrecorded, <- Hfully. unfold recorded. split.
    - intros (bp & m & [Hbp Hnot]%Hlookup & Hm & Hu). split; [by exists bp, m|done].
    - intros [(bp & m & Hbp & Hm & Hu) Hnot]. exists bp, m. split; [by apply Hlookup|done]. }
  split; [exact Hfully|]. split; [exact Hrecorded|]. split; [exact Hnonempty|]. split.
  { subst hard. split.
    - intros (c & [bp Hbp]%elem_of_dom & Hnot).
      destruct (Hnonempty c bp Hbp) as [(pl & m & Hm) Hmissing].
      destruct (Hmissing pl m Hm) as [u Hu]. exists c, pl, u. split.
      + apply Hrecorded. by exists bp, m.
      + by rewrite <- Hfully.
    - intros (c & pl & u & (bp & m & Hbp & _)%Hrecorded & Hnot). exists c. split.
      + apply elem_of_dom. by eexists.
      + by rewrite Hfully. }
  split; [exact Hl|]. split.
  { intros o. rewrite Hl, list_elem_of_filter. split.
    - intros [Hprod Ho]. split; [done|]. by eapply producible_derivable.
    - intros [Ho Hd]. split; [|done].
      assert (Hsome : ∃ b, producible fuel self input_products o = Some b).
      { pose proof (producible_outputs_verdicts fuel self input_products outs (mkAcc ∅ ∅)) as Hv.
        rewrite Hres in Hv. simpl in Hv.
        destruct (mapM (producible fuel self input_products) outs) as [bs|] eqn:Hbs; [|done].
        apply mapM_Some_1 in Hbs. destruct (proj1 (list_elem_of_lookup _ _) Ho) as [i Hi].
        destruct (Forall2_lookup_l _ _ _ _ _ Hbs Hi) as (b & _ & Hb). by exists b. }
      destruct Hsome as [b Hb]. rewrite Hb. f_equal. by eapply derivable_producible. }
  split.
  { split.
    - intros [e He]. destruct (decide hard) as [|Hh]; [done|].
      rewrite (Hok Hh) in He. done.
    - intros Hh. destruct (Hraise Hh) as (o & _ & ->). by eexists. }
  split; [exact Hraise|]. split; [exact Hok|]. split; [exact Hlookup|].
  split; [exact Hpartial|]. split.
  { intros c bp [Hbp _]%Hlookup. by apply (Hnonempty c). }
  intros product by_planner planner missing requirement Hp Hbp Hreq.
  apply Hlookup in Hp as [Hp _].
  eapply (producible_outputs_justified fuel self input_products outs l (mkAcc ∅ ∅) acc Hres);
    [|exact Hp|exact Hbp|exact Hreq].
  intros c bp pl m u Hc. simpl in Hc. by rewrite lookup_empty in Hc.
Qed.
